(** * Google image scraper: URL extraction, post-processing and validation

    A shallow embedding of the URL-candidate pipeline of the scraper
    ([GoogleImageScraper.py], [core/scraper.py], [utils/helpers.py]) and the
    properties its specification states about it.

    Conventions.
    - A string is a list of character codes ([N]): UTF-16 code units inside
      the in-page extraction script, Unicode code points in Python.
    - Python integers are [Z]; byte strings are lists of codes below 256.
    - A Python exception inside a [try] block is [None] of an [option]. *)

From Stdlib Require Import String Ascii.
From Stdlib Require Import List NArith ZArith Bool Lia.
From Stdlib Require Import Permutation Sorted PeanoNat.
From Stdlib Require DecimalString DecimalNat.
Import ListNotations.

Set Implicit Arguments.

(** ** Strings *)

Definition str := list N.

Definition str_eq_dec : forall a b : str, {a = b} + {a <> b} :=
  list_eq_dec N.eq_dec.

(** [lit "abc"] is the string with the character codes of the literal. *)
Definition lit (s : String.string) : str :=
  List.map N_of_ascii (String.list_ascii_of_string s).

Arguments lit s%_string.

Fixpoint str_eqb (a b : str) : bool :=
  match a, b with
  | [], [] => true
  | x :: a', y :: b' => N.eqb x y && str_eqb a' b'
  | _, _ => false
  end.

(** [starts_with p s]: [p] is a prefix of [s]. *)
Fixpoint starts_with (p s : str) : bool :=
  match p, s with
  | [], _ => true
  | x :: p', y :: s' => N.eqb x y && starts_with p' s'
  | _ :: _, [] => false
  end.

(** [contains p s] is Python's [p in s] and JavaScript's [s.includes(p)]:
    [p] occurs in [s] as a contiguous run, compared code by code. *)
Fixpoint contains (p s : str) : bool :=
  starts_with p s ||
  match s with
  | [] => false
  | _ :: s' => contains p s'
  end.

(** The declarative reading of substring occurrence. *)
Definition substring (p s : str) : Prop :=
  exists a b, s = a ++ p ++ b.

(** ** Resolution window (helpers.py, GoogleImageScraper.py) *)

Module Resolution.

(** helpers.py, [validate_resolution]: two chained comparisons joined by
    [and]. *)
Definition validate_resolution (width height : Z)
    (min_resolution max_resolution : Z * Z) : bool :=
  ((fst min_resolution <=? width)%Z && (width <=? fst max_resolution)%Z) &&
  ((snd min_resolution <=? height)%Z && (height <=? snd max_resolution)%Z).

(** A decoded image, as far as the check reads it: PIL's [Image.size] is a
    2-tuple [(width, height)]. *)
Record Image := { size : Z * Z }.

(** Truth value of a 2-tuple: a tuple is falsy only when empty. *)
Definition tuple2_truthy (t : Z * Z) : bool := true.

(** GoogleImageScraper.py, [check_if_image_resolution_valid]. *)
Definition check_if_image_resolution_valid (image : Image)
    (min_resolution max_resolution : Z * Z) : bool :=
  let image_resolution := size image in
  if tuple2_truthy image_resolution then
    if (fst image_resolution >=? fst min_resolution)%Z &&
       (fst image_resolution <=? fst max_resolution)%Z &&
       (snd image_resolution >=? snd min_resolution)%Z &&
       (snd image_resolution <=? snd max_resolution)%Z
    then true
    else false
  else false.

(** scraper.py, [_validate_image_resolution]: the class reads the window
    from its configuration and calls the helper. *)
Definition _validate_image_resolution (image : Image)
    (min_resolution max_resolution : Z * Z) : bool :=
  validate_resolution (fst (size image)) (snd (size image))
    min_resolution max_resolution.

End Resolution.

(** ** First-occurrence deduplication

    [[...new Set(xs)]] in the script and [list(dict.fromkeys(xs))] in Python
    both insert the entries one by one into an insertion-ordered container
    that ignores a key it already holds. *)

Definition mem (x : str) (acc : list str) : bool :=
  existsb (str_eqb x) acc.

Definition insert_key (acc : list str) (x : str) : list str :=
  if mem x acc then acc else acc ++ [x].

Definition ordered_keys (xs : list str) : list str :=
  fold_left insert_key xs [].

(** ** Pattern filter *)

Module PatternFilter.

(** config.py, [thumbnail_patterns] default. *)
Definition default_blocklist : list str :=
  [ lit "encrypted-tbn"; lit "logo"; lit "favicon"; lit "/s90/";
    lit "/s100/"; lit "/s150/"; lit "=s64"; lit "=s90"; lit "=s100" ].

(** The script-tag scan keeps a match when none of the nine [includes]
    tests succeeds (GoogleImageScraper.py lines 122-130). *)
Definition script_keeps (url : str) : bool :=
  negb (contains (lit "encrypted-tbn") url) &&
  negb (contains (lit "logo") url) &&
  negb (contains (lit "favicon") url) &&
  negb (contains (lit "/s90/") url) &&
  negb (contains (lit "/s100/") url) &&
  negb (contains (lit "/s150/") url) &&
  negb (contains (lit "=s64") url) &&
  negb (contains (lit "=s90") url) &&
  negb (contains (lit "=s100") url).

(** The meta-tag scan only rejects [encrypted-tbn] (line 144). *)
Definition meta_keeps (url : str) : bool :=
  negb (contains (lit "encrypted-tbn") url).

(** The whole-document scan rejects three patterns and short URLs
    (lines 155-158). *)
Definition document_keeps (url : str) : bool :=
  negb (contains (lit "encrypted-tbn") url) &&
  negb (contains (lit "logo") url) &&
  negb (contains (lit "favicon") url) &&
  (50 <? length url)%nat.

(** [str.lower()] on ASCII letters. *)
Definition ascii_lower (c : N) : N :=
  if ((65 <=? c) && (c <=? 90))%N then (c + 32)%N else c.

Section Lower.
(** CPython lowers a string code point by code point: capital sigma
    (U+03A3) becomes the final or the medial small sigma depending on its
    context, every other code point goes through the full lower-case
    mapping of the Unicode database.  The database entries above ASCII and
    the final-sigma context test are taken as given. *)
Variable unicode_lower : N -> list N.
Variable final_sigma : str -> nat -> bool.

Definition lower_ucs4 (s : str) (i : nat) (c : N) : list N :=
  if (c =? 931)%N then [ if final_sigma s i then 962%N else 963%N ]
  else if (c <? 128)%N then [ ascii_lower c ]
  else unicode_lower c.

Definition py_lower (s : str) : str :=
  flat_map (fun ic => lower_ucs4 s (fst ic) (snd ic))
           (combine (seq 0 (length s)) s).

(** helpers.py line 93: [any(pattern in url.lower() for pattern in
    thumbnail_patterns)]. *)
Definition is_thumbnail (url : str) (thumbnail_patterns : list str) : bool :=
  existsb (fun pattern => contains pattern (py_lower url)) thumbnail_patterns.

(** helpers.py, [filter_thumbnail_urls]. *)
Definition filter_thumbnail_urls (urls : list str)
    (thumbnail_patterns : list str) : list str :=
  filter (fun url => negb (is_thumbnail url thumbnail_patterns) &&
                     (50 <? length url)%nat) urls.
End Lower.

End PatternFilter.

(** ** Regular expressions of the extraction script *)

Module Regex.

(** The fragment of ECMAScript patterns the script uses.  Capture groups
    only group here: the script reads whole matches, never a group. *)
Inductive regex :=
| Eps
| Chr (c : N)
| Cls (p : N -> bool)
| Seq (a b : regex)
| Alt (a b : regex)
| Opt (a : regex)
| Star (a : regex).

Definition Plus (a : regex) : regex := Seq a (Star a).

Definition ascii_upper (c : N) : N :=
  if ((97 <=? c) && (c <=? 122))%N then (c - 32)%N else c.

(** Matching a pattern character under the [i] flag.  Every pattern
    character of the script is ASCII; ECMAScript's Canonicalize never maps a
    code unit of 128 or more to an ASCII one, so such a unit matches none of
    them, and ASCII units are compared after upper-casing. *)
Definition chr_matches (c x : N) : bool :=
  ((x <? 128) && (ascii_upper x =? ascii_upper c))%N.

(** Backtracking matcher in continuation style, as ECMAScript defines it:
    alternatives left to right, quantifiers greedy, an iteration of [*]
    that consumes nothing is abandoned.  The continuation receives the
    input left after the part matched so far; the result is the input left
    after the whole match. *)
Fixpoint rmatch (r : regex) (s : str) (k : str -> option str)
    {struct r} : option str :=
  match r with
  | Eps => k s
  | Chr c =>
      match s with
      | x :: t => if chr_matches c x then k t else None
      | [] => None
      end
  | Cls p =>
      match s with
      | x :: t => if p x then k t else None
      | [] => None
      end
  | Seq a b => rmatch a s (fun t => rmatch b t k)
  | Alt a b =>
      match rmatch a s k with
      | Some e => Some e
      | None => rmatch b s k
      end
  | Opt a =>
      match rmatch a s k with
      | Some e => Some e
      | None => k s
      end
  | Star a =>
      (fix loop (n : nat) (s : str) {struct n} : option str :=
         match n with
         | O => k s
         | S n' =>
             match rmatch a s (fun t =>
                     if (length t <? length s)%nat then loop n' t else None)
             with
             | Some e => Some e
             | None => k s
             end
         end) (length s) s
  end.

(** One match attempt at the start of [s]: the matched prefix, if any. *)
Definition exec_at (r : regex) (s : str) : option str :=
  match rmatch r s (fun t => Some t) with
  | Some rest => Some (firstn (length s - length rest) s)
  | None => None
  end.

(** [s.match(r)] for a pattern with the [g] flag: all matches, left to
    right, each search starting where the previous match ended (one
    position further after an empty match).  [skip] counts the positions
    still covered by the previous match.  JavaScript returns [null] for no
    match at all, which the script treats like an empty array. *)
Fixpoint match_all (r : regex) (s : str) (skip : nat) : list str :=
  match s with
  | [] =>
      match skip with
      | O => match exec_at r [] with Some m => [m] | None => [] end
      | S _ => []
      end
  | _ :: s' =>
      match skip with
      | S j => match_all r s' j
      | O =>
          match exec_at r s with
          | Some m => m :: match_all r s' (length m - 1)
          | None => match_all r s' 0
          end
      end
  end.

(** [s.match(r)] without the [g] flag: the leftmost match. *)
Fixpoint match_first (r : regex) (s : str) : option str :=
  match exec_at r s with
  | Some m => Some m
  | None =>
      match s with
      | [] => None
      | _ :: s' => match_first r s'
      end
  end.

(** [\s]: ECMAScript WhiteSpace and LineTerminator code units. *)
Definition js_whitespace (c : N) : bool :=
  ((c =? 9) || (c =? 10) || (c =? 11) || (c =? 12) || (c =? 13) ||
   (c =? 32) || (c =? 160) || (c =? 5760) ||
   ((8192 <=? c) && (c <=? 8202)) ||
   (c =? 8232) || (c =? 8233) || (c =? 8239) || (c =? 8287) ||
   (c =? 12288) || (c =? 65279))%N.

(** The class of Method 1's pattern: any unit except white space, the two
    quote characters, comma and closing square bracket. *)
Definition url_char_script (c : N) : bool :=
  negb (js_whitespace c || (c =? 34) || (c =? 39) || (c =? 44) ||
        (c =? 93))%N.

(** The class of Method 2's pattern: any unit except white space and the
    two quote characters. *)
Definition url_char_meta (c : N) : bool :=
  negb (js_whitespace c || (c =? 34) || (c =? 39))%N.

(** The class of Method 3's pattern: Method 1's exclusions and also
    parentheses and braces. *)
Definition url_char_document (c : N) : bool :=
  negb (js_whitespace c || (c =? 34) || (c =? 39) || (c =? 44) ||
        (c =? 93) || (c =? 40) || (c =? 41) || (c =? 123) ||
        (c =? 125))%N.

(** [[?&]] *)
Definition query_start (c : N) : bool := ((c =? 63) || (c =? 38))%N.

Definition word (w : String.string) : regex :=
  fold_right (fun c r => Seq (Chr c) r) Eps (lit w).

Arguments word w%_string.

(** [https?:\/\/] *)
Definition scheme : regex :=
  Seq (word "http") (Seq (Opt (Chr 115)) (word "://")).

(** [(jpg|jpeg|png|webp|gif)] *)
Definition extension : regex :=
  Alt (word "jpg") (Alt (word "jpeg") (Alt (word "png")
    (Alt (word "webp") (word "gif")))).

(** The pattern of Methods 1 and 3 for a class [C]: the scheme, one or more
    units of [C], a dot, an extension, and optionally a query part made of
    one unit of [[?&]] followed by any number of units of [C]. *)
Definition image_url_with_query (C : N -> bool) : regex :=
  Seq scheme (Seq (Plus (Cls C)) (Seq (Chr 46) (Seq extension
    (Opt (Seq (Cls query_start) (Star (Cls C))))))).

(** Method 1, line 118. *)
Definition re_script : regex := image_url_with_query url_char_script.

(** Method 2, line 143: no query part. *)
Definition re_meta : regex :=
  Seq scheme (Seq (Plus (Cls url_char_meta)) (Seq (Chr 46) extension)).

(** Method 3, line 152. *)
Definition re_document : regex := image_url_with_query url_char_document.

End Regex.

(** ** Text-scan extractor: the script evaluated in the page *)

Module TextScan.
Import PatternFilter Regex.

(** What the script reads from the document. *)
Record script_elem := { textContent : str; innerHTML : str }.

Record document := {
  scripts : list script_elem;          (* querySelectorAll('script') *)
  metaTags : list (option str);        (* each meta's content attribute *)
  documentHTML : str                   (* documentElement.innerHTML *)
}.

(** JavaScript [a || b] on strings: the empty string is falsy. *)
Definition js_or (a b : str) : str :=
  match a with
  | [] => b
  | _ :: _ => a
  end.

(** Method 1: script tags holding image data. *)
Definition scan_script (script : script_elem) : list str :=
  let content := js_or (textContent script) (innerHTML script) in
  if contains [91; 34]%N content && contains (lit "http") content then
    filter script_keeps (match_all re_script content 0)
  else [].

(** Method 2: meta tags; the pattern has no [g] flag, so at most the
    leftmost match of each tag is taken. *)
Definition scan_meta (meta : option str) : list str :=
  let content := js_or (match meta with Some c => c | None => [] end) [] in
  if contains (lit "http") content &&
     (contains (lit ".jpg") content || contains (lit ".png") content) then
    match match_first re_meta content with
    | Some url => if meta_keeps url then [url] else []
    | None => []
    end
  else [].

(** Method 3: the whole document text. *)
Definition scan_document (allText : str) : list str :=
  filter document_keeps (match_all re_document allText 0).

(** The array [fullResUrls] after the three methods, in push order. *)
Definition fullResUrls (d : document) : list str :=
  flat_map scan_script (scripts d) ++
  flat_map scan_meta (metaTags d) ++
  scan_document (documentHTML d).

(** [uniqueUrls.sort((a, b) => b.length - a.length)]: the comparator. *)
Definition compare_length (a b : str) : Z :=
  (Z.of_nat (length b) - Z.of_nat (length a))%Z.

(** [Array.prototype.sort] is a stable sort (ECMAScript 2019); with a
    consistent comparator its result does not depend on the algorithm, and
    is the one of a stable insertion sort: an entry goes in front of the
    first entry it does not have to follow. *)
Fixpoint sort_insert (x : str) (l : list str) : list str :=
  match l with
  | [] => [x]
  | y :: l' =>
      if (compare_length x y <=? 0)%Z then x :: y :: l'
      else y :: sort_insert x l'
  end.

Definition js_sort (l : list str) : list str :=
  fold_right sort_insert [] l.

(** The value the script returns. *)
Definition extract_urls_from_page_data (d : document) : list str :=
  let uniqueUrls := ordered_keys (fullResUrls d) in
  js_sort uniqueUrls.

(** [page.evaluate] hands the array over to Python, where a string is a
    sequence of code points: a surrogate pair of the script's string becomes
    one code point, every other unit is kept. *)
Definition is_high_surrogate (c : N) : bool :=
  ((55296 <=? c) && (c <=? 56319))%N.

Definition is_low_surrogate (c : N) : bool :=
  ((56320 <=? c) && (c <=? 57343))%N.

Fixpoint js_to_py (s : str) : str :=
  match s with
  | [] => []
  | hi :: t =>
      match t with
      | lo :: t' =>
          if is_high_surrogate hi && is_low_surrogate lo
          then (65536 + (hi - 55296) * 1024 + (lo - 56320))%N :: js_to_py t'
          else hi :: js_to_py t
      | [] => [hi]
      end
  end.

End TextScan.

(** ** Python codecs used by the normalization *)

Module Codec.

Definition is_hex (c : N) : bool :=
  (((48 <=? c) && (c <=? 57)) || ((97 <=? c) && (c <=? 102)) ||
   ((65 <=? c) && (c <=? 70)))%N.

Definition hex_val (c : N) : N :=
  (if (48 <=? c) && (c <=? 57) then c - 48
   else if (97 <=? c) && (c <=? 102) then c - 87
   else c - 55)%N.

Definition is_octal (c : N) : bool := ((48 <=? c) && (c <=? 55))%N.

(** *** [str.encode('utf-8')]

    Raises [UnicodeEncodeError] on a lone surrogate. *)
Definition utf8_encode_char (c : N) : option (list N) :=
  (if c <? 128 then Some [c]
   else if c <? 2048 then Some [192 + c / 64; 128 + c mod 64]
   else if (55296 <=? c) && (c <=? 57343) then None
   else if c <? 65536 then
     Some [224 + c / 4096; 128 + (c / 64) mod 64; 128 + c mod 64]
   else if c <? 1114112 then
     Some [240 + c / 262144; 128 + (c / 4096) mod 64;
           128 + (c / 64) mod 64; 128 + c mod 64]
   else None)%N.

Fixpoint utf8_encode (s : str) : option (list N) :=
  match s with
  | [] => Some []
  | c :: t =>
      match utf8_encode_char c, utf8_encode t with
      | Some b, Some r => Some (b ++ r)
      | _, _ => None
      end
  end.

(** *** [bytes.decode('unicode_escape')]

    CPython's decoder reads the bytes left to right.  A byte outside an
    escape is the code point of the same value; a backslash starts an
    escape.  The decoder is written here as the automaton the C loop
    implements, one state per place where the loop can be waiting for a
    byte.  With the default [strict] error handler every error raises. *)
Inductive esc_state :=
| Plain                          (* outside an escape *)
| Backslash                      (* after a backslash *)
| Octal (more : nat) (ch : N)    (* in an octal escape, [more] digits may follow *)
| Hex (more : nat) (ch : N)      (* in a hex escape, [S more] digits are missing *)
| NameOpen                       (* after backslash N *)
| Name (acc : list N).           (* inside the braces of a named escape *)

Section UnicodeEscape.
(** The Unicode name table behind the named escape. *)
Variable name_lookup : list N -> option N.

Definition plain_step (c : N) : list N * esc_state :=
  if (c =? 92)%N then ([], Backslash) else ([c], Plain).

Definition backslash_step (c : N) : list N * esc_state :=
  (if c =? 10 then ([], Plain)                  (* line continuation *)
   else if c =? 92 then ([92], Plain)
   else if c =? 39 then ([39], Plain)
   else if c =? 34 then ([34], Plain)
   else if c =? 98 then ([8], Plain)            (* b *)
   else if c =? 102 then ([12], Plain)          (* f *)
   else if c =? 116 then ([9], Plain)           (* t *)
   else if c =? 110 then ([10], Plain)          (* n *)
   else if c =? 114 then ([13], Plain)          (* r *)
   else if c =? 118 then ([11], Plain)          (* v *)
   else if c =? 97 then ([7], Plain)            (* a *)
   else if is_octal c then ([], Octal 2 (c - 48))
   else if c =? 120 then ([], Hex 1 0)          (* x: two digits *)
   else if c =? 117 then ([], Hex 3 0)          (* u: four digits *)
   else if c =? 85 then ([], Hex 7 0)           (* U: eight digits *)
   else if c =? 78 then ([], NameOpen)          (* N *)
   else ([92; c], Plain))%N.                    (* unknown escape: kept *)

Definition step (st : esc_state) (c : N) : option (list N * esc_state) :=
  match st with
  | Plain => Some (plain_step c)
  | Backslash => Some (backslash_step c)
  | Octal more ch =>
      if is_octal c then
        let ch' := (ch * 8 + (c - 48))%N in
        match more with
        | S (S m) => Some ([], Octal (S m) ch')
        | _ => Some ([ch'], Plain)
        end
      else
        let (out, st') := plain_step c in Some (ch :: out, st')
  | Hex more ch =>
      if is_hex c then
        let ch' := (ch * 16 + hex_val c)%N in
        match more with
        | S m => Some ([], Hex m ch')
        | O => if (1114111 <? ch')%N then None else Some ([ch'], Plain)
        end
      else None
  | NameOpen => if (c =? 123)%N then Some ([], Name []) else None
  | Name acc =>
      if (c =? 125)%N then
        match acc with
        | [] => None
        | _ :: _ =>
            match name_lookup acc with
            | Some ch => Some ([ch], Plain)
            | None => None
            end
        end
      else Some ([], Name (acc ++ [c]))
  end.

(** End of input. *)
Definition finish (st : esc_state) : option (list N) :=
  match st with
  | Plain => Some []
  | Octal _ ch => Some [ch]
  | Backslash | Hex _ _ | NameOpen | Name _ => None
  end.

Fixpoint escape_run (st : esc_state) (s : list N) : option str :=
  match s with
  | [] => finish st
  | c :: t =>
      match step st c with
      | None => None
      | Some (out, st') =>
          match escape_run st' t with
          | Some r => Some (out ++ r)
          | None => None
          end
      end
  end.

Definition unicode_escape_decode (b : list N) : option str :=
  escape_run Plain b.
End UnicodeEscape.

(** *** [bytes.decode('utf-8', 'replace')]

    An ill-formed sequence is replaced by U+FFFD; the replaced span is the
    lead byte with the continuation bytes accepted so far, and decoding
    resumes at the offending byte.  A sequence cut by the end of the input
    is replaced as a whole. *)
Definition is_cont (b : N) : bool := ((128 <=? b) && (b <=? 191))%N.

Definition replacement : N := 65533%N.

Fixpoint utf8_decode_replace (s : list N) : str :=
  match s with
  | [] => []
  | b :: t =>
      if (b <? 128)%N then b :: utf8_decode_replace t
      else if (b <? 194)%N then replacement :: utf8_decode_replace t
      else if (b <? 224)%N then
        match t with
        | [] => [replacement]
        | b2 :: t2 =>
            if is_cont b2
            then ((b - 192) * 64 + (b2 - 128))%N :: utf8_decode_replace t2
            else replacement :: utf8_decode_replace t
        end
      else if (b <? 240)%N then
        match t with
        | [] => [replacement]
        | b2 :: t2 =>
            if negb (is_cont b2) ||
               ((b =? 224)%N && (b2 <? 160)%N) ||
               ((b =? 237)%N && (160 <=? b2)%N)
            then replacement :: utf8_decode_replace t
            else
              match t2 with
              | [] => [replacement]
              | b3 :: t3 =>
                  if is_cont b3
                  then ((b - 224) * 4096 + (b2 - 128) * 64 + (b3 - 128))%N
                         :: utf8_decode_replace t3
                  else replacement :: utf8_decode_replace t2
              end
        end
      else if (b <? 245)%N then
        match t with
        | [] => [replacement]
        | b2 :: t2 =>
            if negb (is_cont b2) ||
               ((b =? 240)%N && (b2 <? 144)%N) ||
               ((b =? 244)%N && (144 <=? b2)%N)
            then replacement :: utf8_decode_replace t
            else
              match t2 with
              | [] => [replacement]
              | b3 :: t3 =>
                  if negb (is_cont b3)
                  then replacement :: utf8_decode_replace t2
                  else
                    match t3 with
                    | [] => [replacement]
                    | b4 :: t4 =>
                        if is_cont b4
                        then ((b - 240) * 262144 + (b2 - 128) * 4096 +
                              (b3 - 128) * 64 + (b4 - 128))%N
                               :: utf8_decode_replace t4
                        else replacement :: utf8_decode_replace t3
                    end
              end
        end
      else replacement :: utf8_decode_replace t
  end.

(** *** [urllib.parse.unquote]

    [unquote_to_bytes] splits at every percent sign and replaces the two
    characters after it by one byte when both are hexadecimal digits; the
    sign stays otherwise.  Read left to right this is: *)
Fixpoint unquote_to_bytes (s : list N) : list N :=
  match s with
  | [] => []
  | c :: t =>
      if (c =? 37)%N then
        match t with
        | h1 :: h2 :: t2 =>
            if is_hex h1 && is_hex h2
            then (hex_val h1 * 16 + hex_val h2)%N :: unquote_to_bytes t2
            else c :: unquote_to_bytes t
        | _ => c :: unquote_to_bytes t
        end
      else c :: unquote_to_bytes t
  end.

(** One maximal ASCII run, percent-decoded and read back as UTF-8. *)
Definition unquote_run (run : list N) : str :=
  utf8_decode_replace (unquote_to_bytes run).

(** The string is cut into maximal ASCII runs; the characters between them
    are copied.  [run] is the run being collected. *)
Fixpoint unquote_parts (run : list N) (s : str) : str :=
  match s with
  | [] => unquote_run run
  | c :: t =>
      if (c <? 128)%N then unquote_parts (run ++ [c]) t
      else unquote_run run ++ c :: unquote_parts [] t
  end.

Definition unquote (s : str) : str :=
  if existsb (N.eqb 37) s then unquote_parts [] s else s.

(** *** helpers.py, [decode_url]

    The body of the [try] block; [None] when a codec raises. *)
Definition decode_steps (name_lookup : list N -> option N) (url : str)
    : option str :=
  match utf8_encode url with
  | None => None
  | Some bytes =>
      match unicode_escape_decode name_lookup bytes with
      | None => None
      | Some decoded => Some (unquote decoded)
      end
  end.

Definition decode_url (name_lookup : list N -> option N) (url : str) : str :=
  match decode_steps name_lookup url with
  | Some decoded => decoded
  | None => url
  end.

End Codec.

(** ** Interactive fallback extractor

    The loop of [_extract_urls_by_clicking] (scraper.py lines 223-272).
    The loop of GoogleImageScraper.py (lines 179-225, to which the line
    numbers below refer) is the same but for the [print] of line 214;
    it is [StandaloneFallback] further down. *)

Module Fallback.

(** The four entries of [full_img_selectors], in order. *)
Inductive selector := ImgSrc | ImgDataSrc | ClassN3VNCb | ClassIPVvYb.

Definition full_img_selectors : list selector :=
  [ImgSrc; ImgDataSrc; ClassN3VNCb; ClassIPVvYb].

(** What the page answers.  [get_attribute] returns a string or [None], or
    raises; [wait_for] raises on a timeout. *)
Inductive attr_result := AttrRaises | AttrValue (v : option str).

Inductive selector_outcome :=
| WaitRaises
| Visible (src data_src : attr_result).

(** One image container: whether the click (and the wait after it) goes
    through, what each selector finds afterwards, whether the Escape key
    press goes through. *)
Record container := {
  click_ok : bool;
  found : selector -> selector_outcome;
  escape_ok : bool
}.

(** Page interactions, in the order they are issued. *)
Inductive event :=
| Scroll
| LocateContainers
| Click (c : container)
| WaitFor (s : selector)
| PressEscape.

(** Python truth value of [str | None]. *)
Definition truthy (v : option str) : bool :=
  match v with
  | Some (_ :: _) => true
  | _ => false
  end.

(** [await get_attribute('src') or await get_attribute('data-src')];
    the outer [None] is an exception. *)
Definition src_or_data_src (src data_src : attr_result)
    : option (option str) :=
  match src with
  | AttrRaises => None
  | AttrValue v =>
      if truthy v then Some v
      else match data_src with
           | AttrRaises => None
           | AttrValue w => Some w
           end
  end.

(** The test of line 212. *)
Definition accepts (img_src : option str) : option str :=
  match img_src with
  | Some u =>
      if truthy img_src && contains (lit "http") u &&
         negb (contains (lit "encrypted-tbn") u) && (50 <? length u)%nat
      then Some u else None
  | None => None
  end.

(** The inner loop over the selectors: the URL appended, if any, and the
    waits issued. *)
Fixpoint try_selectors (c : container) (sels : list selector)
    : list event * option str :=
  match sels with
  | [] => ([], None)
  | s :: rest =>
      let next := try_selectors c rest in
      match found c s with
      | WaitRaises => (WaitFor s :: fst next, snd next)
      | Visible src data_src =>
          match src_or_data_src src data_src with
          | None => (WaitFor s :: fst next, snd next)
          | Some img_src =>
              match accepts img_src with
              | Some u => ([WaitFor s], Some u)
              | None => (WaitFor s :: fst next, snd next)
              end
          end
      end
  end.

(** The loop over the containers (lines 190-225).  An exception anywhere in
    a container's handling moves on to the next container; a URL appended
    before the exception stays. *)
Fixpoint click_loop (number_of_images : Z) (cs : list container)
    (clicked_urls : list str) : list event * list str :=
  match cs with
  | [] => ([], clicked_urls)
  | c :: rest =>
      if (Z.of_nat (length clicked_urls) >=? number_of_images)%Z
      then ([], clicked_urls)
      else if click_ok c then
        let (ev, got) := try_selectors c full_img_selectors in
        let clicked_urls' :=
          match got with
          | Some u => clicked_urls ++ [u]
          | None => clicked_urls
          end in
        let (ev', out) := click_loop number_of_images rest clicked_urls' in
        (Click c :: ev ++ PressEscape :: ev', out)
      else
        let (ev', out) := click_loop number_of_images rest clicked_urls in
        (Click c :: ev', out)
  end.

(** Python's [l[:n]]. *)
Definition py_take {A} (n : Z) (l : list A) : list A :=
  if (n <? 0)%Z then firstn (length l - Z.to_nat (- n)) l
  else firstn (Z.to_nat n) l.

(** Scrolling, locating the containers and clicking through them. *)
Definition extract_urls_by_clicking (scroll_attempts number_of_images : Z)
    (image_containers : list container) : list event * list str :=
  let max_attempts :=
    Z.min (Z.of_nat (length image_containers)) (number_of_images * 2) in
  let (ev, clicked_urls) :=
    click_loop number_of_images (py_take max_attempts image_containers) [] in
  (repeat Scroll (Z.to_nat scroll_attempts) ++ LocateContainers :: ev,
   clicked_urls).

End Fallback.

(** ** Printing on standard output *)

Module Stdout.

(** [print(s)] raises [UnicodeEncodeError] when the encoder of
    [sys.stdout] meets a character it cannot encode.  The encodings Python
    uses for a terminal all encode ASCII; what the encoder does with any
    other code point is [stdout_encodes] (for UTF-8: everything but a
    surrogate). *)
Definition print_ok (stdout_encodes : N -> bool) (s : str) : bool :=
  forallb (fun c => (c <? 128)%N || stdout_encodes c) s.

End Stdout.

(** ** The click loop of the standalone function

    [Fallback] is the loop of [_extract_urls_by_clicking], which hands the
    source it has appended to the logger.  GoogleImageScraper.py prints it
    instead (line 214), inside the [try] whose bare [except] goes on to
    the next selector: when the line cannot be printed the [break] of
    line 215 is not reached, the source stays appended and the remaining
    selectors are tried as well.  The line is ASCII apart from the first
    80 characters of the source. *)

Module StandaloneFallback.
Import Fallback.

Section Stdout.
Variable stdout_encodes : N -> bool.

Fixpoint try_selectors (c : container) (sels : list selector)
    (clicked_urls : list str) : list event * list str :=
  match sels with
  | [] => ([], clicked_urls)
  | s :: rest =>
      let next := try_selectors c rest clicked_urls in
      match found c s with
      | WaitRaises => (WaitFor s :: fst next, snd next)
      | Visible src data_src =>
          match src_or_data_src src data_src with
          | None => (WaitFor s :: fst next, snd next)
          | Some img_src =>
              match accepts img_src with
              | Some u =>
                  if Stdout.print_ok stdout_encodes (firstn 80 u)
                  then ([WaitFor s], clicked_urls ++ [u])
                  else
                    let next' := try_selectors c rest (clicked_urls ++ [u]) in
                    (WaitFor s :: fst next', snd next')
              | None => (WaitFor s :: fst next, snd next)
              end
          end
      end
  end.

Fixpoint click_loop (number_of_images : Z) (cs : list container)
    (clicked_urls : list str) : list event * list str :=
  match cs with
  | [] => ([], clicked_urls)
  | c :: rest =>
      if (Z.of_nat (length clicked_urls) >=? number_of_images)%Z
      then ([], clicked_urls)
      else if click_ok c then
        let (ev, clicked_urls') :=
          try_selectors c full_img_selectors clicked_urls in
        let (ev', out) := click_loop number_of_images rest clicked_urls' in
        (Click c :: ev ++ PressEscape :: ev', out)
      else
        let (ev', out) := click_loop number_of_images rest clicked_urls in
        (Click c :: ev', out)
  end.

(** GoogleImageScraper.py lines 179-225. *)
Definition extract_urls_by_clicking (scroll_attempts number_of_images : Z)
    (image_containers : list container) : list event * list str :=
  let max_attempts :=
    Z.min (Z.of_nat (length image_containers)) (number_of_images * 2) in
  let (ev, clicked_urls) :=
    click_loop number_of_images (py_take max_attempts image_containers) [] in
  (repeat Scroll (Z.to_nat scroll_attempts) ++ LocateContainers :: ev,
   clicked_urls).
End Stdout.

End StandaloneFallback.

(** ** URL post-processor and the search function *)

Module Scraper.
Import Fallback.

Section WithNames.
Variable name_lookup : list N -> option N.

(** GoogleImageScraper.py lines 228-229: both lists combined, first
    occurrences kept. *)
Definition merge (full_res_urls clicked_urls : list str) : list str :=
  ordered_keys (full_res_urls ++ clicked_urls).

(** Lines 236-246: the cleaning loop with its [try] and [except]. *)
Fixpoint clean_loop (image_urls cleaned_image_urls : list str) : list str :=
  match image_urls with
  | [] => cleaned_image_urls
  | url :: rest =>
      match Codec.decode_steps name_lookup url with
      | Some cleaned_url => clean_loop rest (cleaned_image_urls ++ [cleaned_url])
      | None => clean_loop rest (cleaned_image_urls ++ [url])
      end
  end.

(** Lines 233-246: truncation, then cleaning. *)
Definition finalize (number_of_images : Z) (full_res_urls : list str)
    : list str :=
  clean_loop (py_take number_of_images full_res_urls) [].

(** The URL post-processor: what the function does with the text-scan
    result [primary] and the click result [fallback], which is only
    consulted when [primary] is too short. *)
Definition merge_and_finalize (primary fallback : list str)
    (target_count : Z) : list str :=
  finalize target_count
    (if (Z.of_nat (length primary) <? target_count)%Z
     then merge primary fallback
     else primary).

(** The loaded page: the document the script reads and the containers
    the locator returns after scrolling. *)
Record page := {
  doc : TextScan.document;
  image_containers : list container
}.

(** GoogleImageScraper.py, [find_image_urls], lines 108-246: the work on
    the loaded page, up to the end of the cleaning loop.  The page
    interactions issued after the text scan and the value of
    [cleaned_image_urls] when the loop is left.  What the function does
    with that list before it returns (writing the JSON file, printing
    samples) is in [Search.find_image_urls]. *)
Definition find_image_urls_block (stdout_encodes : N -> bool) (p : page)
    (number_of_images : Z) : list event * list str :=
  let full_res_urls :=
    map TextScan.js_to_py (TextScan.extract_urls_from_page_data (doc p)) in
  if (Z.of_nat (length full_res_urls) <? number_of_images)%Z then
    let scroll_attempts := Z.max 3 (number_of_images / 10 + 1) in
    let (ev, clicked_urls) :=
      StandaloneFallback.extract_urls_by_clicking stdout_encodes
        scroll_attempts number_of_images (image_containers p) in
    (ev, finalize number_of_images (merge full_res_urls clicked_urls))
  else ([], finalize number_of_images full_res_urls).

(** core/config.py, the fields the search reads. *)
Record ScrapingConfig := {
  number_of_images : Z;
  scroll_attempts : Z
}.

(** core/scraper.py, [GoogleImageScraper.find_image_urls], lines 125-140:
    the same part of the class method, up to the value of
    [cleaned_image_urls]; the rest of the method is in
    [Search.GoogleImageScraper_find_image_urls]. *)
Definition GoogleImageScraper_find_image_urls_block (config : ScrapingConfig)
    (p : page) : list event * list str :=
  let full_res_urls :=
    map TextScan.js_to_py (TextScan.extract_urls_from_page_data (doc p)) in
  if (Z.of_nat (length full_res_urls) <? number_of_images config)%Z then
    let (ev, clicked_urls) :=
      extract_urls_by_clicking (scroll_attempts config)
        (number_of_images config) (image_containers p) in
    let full_res_urls := ordered_keys (full_res_urls ++ clicked_urls) in
    (ev, map (Codec.decode_url name_lookup)
           (py_take (number_of_images config) full_res_urls))
  else
    ([], map (Codec.decode_url name_lookup)
           (py_take (number_of_images config) full_res_urls)).
End WithNames.

End Scraper.

(** ** Reference notions used to state the properties *)

(** Position of the first occurrence of [x] in [l] ([length l] if none). *)
Fixpoint first_index (x : str) (l : list str) : nat :=
  match l with
  | [] => O
  | y :: t => if str_eqb x y then O else S (first_index x t)
  end.

(** [l] lists its entries in the order of their first occurrence in [ref]. *)
Definition first_occurrence_order (ref l : list str) : Prop :=
  StronglySorted (fun a b => (first_index a ref < first_index b ref)%nat) l.

(** First occurrences of the entries of [xs] that are not in [seen]. *)
Fixpoint unseen (seen xs : list str) : list str :=
  match xs with
  | [] => []
  | x :: t =>
      if mem x seen then unseen seen t else x :: unseen (x :: seen) t
  end.

Definition differs (x y : str) : bool := negb (str_eqb y x).

(** The escape [%20], as character codes. *)
Definition percent20 : str := [37; 50; 48]%N.

(** No percent sign of [s] is followed by two hexadecimal digits. *)
Definition no_percent_escape (s : str) : Prop :=
  forall a h1 h2 b, s = a ++ 37%N :: h1 :: h2 :: b ->
                    Codec.is_hex h1 && Codec.is_hex h2 = false.

(** A name table with no entry, and lower-casing tables for ASCII input,
    for concrete evaluations. *)
Definition no_names (_ : list N) : option N := None.
Definition ascii_only_lower (c : N) : list N := [c].
Definition never_final (_ : str) (_ : nat) : bool := false.

(** The backslash escape for the equals sign: a backslash followed by
    [u003d]. *)
Definition equals_escape : str := 92%N :: lit "u003d".

(** The strings a pattern denotes, whatever the search order. *)
Inductive matches : Regex.regex -> str -> Prop :=
| MEps : matches Regex.Eps []
| MChr c x : Regex.chr_matches c x = true -> matches (Regex.Chr c) [x]
| MCls p x : p x = true -> matches (Regex.Cls p) [x]
| MSeq a b u v :
    matches a u -> matches b v -> matches (Regex.Seq a b) (u ++ v)
| MAltL a b u : matches a u -> matches (Regex.Alt a b) u
| MAltR a b u : matches b u -> matches (Regex.Alt a b) u
| MOptSome a u : matches a u -> matches (Regex.Opt a) u
| MOptNone a : matches (Regex.Opt a) []
| MStarNil a : matches (Regex.Star a) []
| MStarCons a u v :
    matches a u -> matches (Regex.Star a) v -> matches (Regex.Star a) (u ++ v).

(** The image-extension pattern, spelled out: a scheme [http] or [https]
    in any letter case, [://], a non-empty body of characters of the class
    [C], a dot, one of the five extensions in any letter case, and
    optionally a query part that starts with [?] or [&] and goes on with
    characters of [C]. *)
Definition image_url_shape (C : N -> bool) (u : str) : Prop :=
  exists scheme body ext query,
    u = scheme ++ lit "://" ++ body ++ [46%N] ++ ext ++ query /\
    In (map PatternFilter.ascii_lower scheme) [lit "http"; lit "https"] /\
    body <> [] /\
    Forall (fun c => C c = true) body /\
    In (map PatternFilter.ascii_lower ext)
       [lit "jpg"; lit "jpeg"; lit "png"; lit "webp"; lit "gif"] /\
    (query = [] \/
     exists q0 q, query = q0 :: q /\ (q0 = 63%N \/ q0 = 38%N) /\
                  Forall (fun c => C c = true) q).

(** Same length, as the sort compares it. *)
Definition has_length (n : nat) (u : str) : bool := (length u =? n)%nat.

(** Characters that are not an ASCII capital, respectively small, letter. *)
Definition not_upper (c : N) : Prop := (c < 65 \/ 90 < c)%N.
Definition not_lower (c : N) : Prop := (c < 97 \/ 122 < c)%N.

(** The marker of the search engine's own thumbnails. *)
Definition tbn : str := lit "encrypted-tbn".

(** Descending length. *)
Definition longer_first (a b : str) : Prop := (length b <= length a)%nat.

(** Sample pages for concrete evaluations: one whose only script holds one
    image URL, and one with one meta tag whose content is the URL of a
    logo. *)
Definition one_url_document : TextScan.document :=
  {| TextScan.scripts :=
       [ {| TextScan.textContent :=
              [91; 34]%N ++ lit "https://cdn.example.org/photos/cat.jpg" ++ [34; 93]%N;
            TextScan.innerHTML := [] |} ];
     TextScan.metaTags := [];
     TextScan.documentHTML := [] |}.

Definition logo_meta_document : TextScan.document :=
  {| TextScan.scripts := [];
     TextScan.metaTags := [Some (lit "http://a.b/logo.jpg")];
     TextScan.documentHTML := [] |}.

(** A page whose only script holds an image URL with a percent-escaped
    letter, and a reproducible container for the click fallback. *)
Definition escaped_logo_document : TextScan.document :=
  {| TextScan.scripts :=
       [ {| TextScan.textContent :=
              [91; 34]%N ++ lit "https://cdn.example.org/img/%6Cogo.jpg" ++ [34; 93]%N;
            TextScan.innerHTML := [] |} ];
     TextScan.metaTags := [];
     TextScan.documentHTML := [] |}.

(** ** Search keys and the search URL *)

Module SearchKey.

(** The characters the first substitution of [clean_search_key] replaces:
    angle brackets, colon, double quote, slash, backslash, bar, question
    mark and star. *)
Definition invalid_filename_char (c : N) : bool :=
  ((c =? 60) || (c =? 62) || (c =? 58) || (c =? 34) || (c =? 47) ||
   (c =? 92) || (c =? 124) || (c =? 63) || (c =? 42))%N.

(** White space as Python's [re] and [str.strip] see it on strings. *)
Definition py_isspace (c : N) : bool :=
  (((9 <=? c) && (c <=? 13)) || ((28 <=? c) && (c <=? 32)) ||
   (c =? 133) || (c =? 160) || (c =? 5760) ||
   ((8192 <=? c) && (c <=? 8202)) ||
   (c =? 8232) || (c =? 8233) || (c =? 8239) || (c =? 8287) ||
   (c =? 12288))%N.

(** helpers.py line 54: every invalid character becomes an underscore. *)
Definition replace_invalid (s : str) : str :=
  map (fun c => if invalid_filename_char c then 95%N else c) s.

(** Line 56, the substitution: every maximal run of white space becomes
    one space.  [in_run] tells whether the previous character was white
    space. *)
Fixpoint collapse_spaces (in_run : bool) (s : str) : str :=
  match s with
  | [] => []
  | c :: t =>
      if py_isspace c
      then if in_run then collapse_spaces true t
           else 32%N :: collapse_spaces true t
      else c :: collapse_spaces false t
  end.

Fixpoint lstrip (s : str) : str :=
  match s with
  | [] => []
  | c :: t => if py_isspace c then lstrip t else s
  end.

Definition rstrip (s : str) : str := rev (lstrip (rev s)).

(** [str.strip()] *)
Definition strip (s : str) : str := rstrip (lstrip s).

(** Line 58: [cleaned.replace(' ', '_')]. *)
Definition spaces_to_underscores (s : str) : str :=
  map (fun c => if (c =? 32)%N then 95%N else c) s.

(** A character that may stay in a cleaned key. *)
Definition plain (c : N) : Prop :=
  invalid_filename_char c = false /\ py_isspace c = false.

(** helpers.py, [clean_search_key]. *)
Definition clean_search_key (search_key : str) : str :=
  let cleaned := replace_invalid search_key in
  let cleaned := strip (collapse_spaces false cleaned) in
  spaces_to_underscores cleaned.

End SearchKey.

Module SearchUrl.

(** [urllib.parse.quote(string)] with the default [safe='/']: the string
    is encoded as UTF-8; letters, digits and the four characters
    underscore, dot, hyphen and tilde are kept, as is the slash; every
    other byte becomes a percent sign and two upper-case hexadecimal
    digits.  [None] when the encoding raises. *)
Definition always_safe (b : N) : bool :=
  (((65 <=? b) && (b <=? 90)) || ((97 <=? b) && (b <=? 122)) ||
   ((48 <=? b) && (b <=? 57)) ||
   (b =? 95) || (b =? 46) || (b =? 45) || (b =? 126))%N.

Definition is_safe (b : N) : bool := (always_safe b || (b =? 47))%N.

Definition hex_digit (d : N) : N :=
  (if d <? 10 then 48 + d else 55 + d)%N.

Definition quoter (b : N) : list N :=
  if is_safe b then [b]
  else [37%N; hex_digit (b / 16); hex_digit (b mod 16)].

Definition quote (s : str) : option str :=
  match s with
  | [] => Some []
  | _ :: _ =>
      match Codec.utf8_encode s with
      | Some bs => Some (flat_map quoter bs)
      | None => None
      end
  end.

Definition search_prefix : str := lit "https://www.google.com/search?q=".

Definition search_suffix : str :=
  lit "&source=lnms&tbm=isch&sa=X&ved=2ahUKEwie44_AnqLpAhUhBWMBHUFGD90Q_AUoAXoECBUQAw&biw=1920&bih=947".

(** GoogleImageScraper.py, [google_images_url] (and [_generate_search_url]
    of the class). *)
Definition google_images_url (search_key : str) : option str :=
  match quote search_key with
  | Some encoded_key => Some (search_prefix ++ encoded_key ++ search_suffix)
  | None => None
  end.

End SearchUrl.

(** ** Counting page interactions *)

Definition is_click (e : Fallback.event) : bool :=
  match e with Fallback.Click _ => true | _ => false end.

Definition is_scroll (e : Fallback.event) : bool :=
  match e with Fallback.Scroll => true | _ => false end.

Definition count_events (f : Fallback.event -> bool)
    (ev : list Fallback.event) : nat :=
  length (filter f ev).

(** What the click fallback requires of a source it accepts. *)
Definition click_accepted (u : str) : Prop :=
  substring (lit "http") u /\ ~ substring tbn u /\ (50 < length u)%nat.

(** Two sample containers: one whose click raises, one whose preview
    shows an image with a long source. *)
Definition sample_src : str :=
  lit "https://images.example.org/gallery/full/sunset-over-the-bay.jpg".

Definition dead_container : Fallback.container :=
  {| Fallback.click_ok := false;
     Fallback.found := fun _ => Fallback.WaitRaises;
     Fallback.escape_ok := true |}.

Definition yielding_container : Fallback.container :=
  {| Fallback.click_ok := true;
     Fallback.found := fun s =>
       match s with
       | Fallback.ImgSrc =>
           Fallback.Visible (Fallback.AttrValue (Some sample_src))
             Fallback.AttrRaises
       | _ => Fallback.WaitRaises
       end;
     Fallback.escape_ok := true |}.

(** What one container contributes when it is attempted: the source the
    selectors find after a click that went through, nothing otherwise. *)
Definition container_yield (c : Fallback.container) : list str :=
  if Fallback.click_ok c then
    match snd (Fallback.try_selectors c Fallback.full_img_selectors) with
    | Some u => [u]
    | None => []
    end
  else [].


(** Code points that [str.encode('utf-8')] accepts: no surrogate, nothing
    above U+10FFFF. *)
Definition encodable (c : N) : Prop :=
  ((c < 55296) \/ (57343 < c < 1114112))%N.

(** The characters [quote] can produce with the default [safe]. *)
Definition query_char (c : N) : bool :=
  (SearchUrl.always_safe c || (c =? 47) || (c =? 37))%N.


(** A search key with a space, an ampersand and a letter outside ASCII. *)
Definition sample_key : str := lit "red roses & caf" ++ [233%N].


(** ** Downloading the images *)

Module Download.
Import Resolution.

(** [os.path.join] of two components, on POSIX. *)
Definition ends_with_sep (a : str) : bool :=
  match rev a with
  | c :: _ => (c =? 47)%N
  | [] => false
  end.

Definition path_join (a b : str) : str :=
  if starts_with [47%N] b then b
  else match a with
       | [] => b
       | _ :: _ => if ends_with_sep a then a ++ b else a ++ 47%N :: b
       end.

(** The decimal digits an f-string prints for the loop index. *)
Definition py_str_nat (n : nat) : str :=
  lit (DecimalString.NilEmpty.string_of_uint (Nat.to_uint n)).

(** What downloading and opening one URL gives: [_download_image] returns
    [None], [Image.open] raises, or the image opens and [_save_image]
    either returns or raises. *)
Inductive fetched :=
| NoResponse
| NotAnImage
| Opened (image : Image) (saves : bool).

Record SaveConfig := {
  photos_dir : str;
  image_save_format : str;
  min_resolution : Z * Z;
  max_resolution : Z * Z
}.

(** The two counters of the loop and the files written so far. *)
Record tally := {
  downloaded_count : nat;
  failed_count : nat;
  written : list str
}.

Definition failed (t : tally) : tally :=
  {| downloaded_count := downloaded_count t;
     failed_count := S (failed_count t);
     written := written t |}.

Definition downloaded (image_path : str) (t : tally) : tally :=
  {| downloaded_count := S (downloaded_count t);
     failed_count := failed_count t;
     written := written t ++ [image_path] |}.

(** scraper.py, [_save_image]: the path written. *)
Definition _save_image_path (config : SaveConfig)
    (images_dir image_name : str) : str :=
  let image_filename := image_name ++ 46%N :: image_save_format config in
  path_join images_dir image_filename.

Section Network.
(** The answer to the request number [index] for [image_url]. *)
Variable net : nat -> str -> fetched.

Fixpoint save_loop (config : SaveConfig) (images_dir search_key : str)
    (index : nat) (image_urls : list str) (t : tally) : tally :=
  match image_urls with
  | [] => t
  | image_url :: rest =>
      let t' :=
        match net index image_url with
        | NoResponse => failed t
        | NotAnImage => failed t
        | Opened image_from_web saves =>
            if negb (_validate_image_resolution image_from_web
                       (min_resolution config) (max_resolution config))
            then failed t
            else if saves then
              let image_name := search_key ++ 45%N :: py_str_nat index in
              downloaded (_save_image_path config images_dir image_name) t
            else failed t
        end in
      save_loop config images_dir search_key (S index) rest t'
  end.

Definition save_images (config : SaveConfig) (image_urls : list str)
    (search_key : str) : tally :=
  let images_dir := path_join (photos_dir config) search_key in
  save_loop config images_dir search_key 0 image_urls
    {| downloaded_count := 0; failed_count := 0; written := [] |}.
End Network.
End Download.

(** Whether the answer to a request ends in a saved file, and the
    indices of the requests that do. *)
Definition stored (config : Download.SaveConfig) (r : Download.fetched)
    : bool :=
  match r with
  | Download.Opened image saves =>
      Resolution._validate_image_resolution image
        (Download.min_resolution config) (Download.max_resolution config)
      && saves
  | _ => false
  end.

Fixpoint stored_indices (net : nat -> str -> Download.fetched)
    (config : Download.SaveConfig) (index : nat) (image_urls : list str)
    : list nat :=
  match image_urls with
  | [] => []
  | u :: rest =>
      (if stored config (net index u) then [index] else []) ++
      stored_indices net config (S index) rest
  end.


(** ** The operating system, and the search functions as a whole *)

Module Os.

(** How a call into the operating system ends: it succeeds, it raises
    [OSError], or it raises something else. *)
Inductive io_outcome := IoDone | IoOSError | IoOtherError.

(** The exceptions that leave the functions below. *)
Inductive exn :=
| UnicodeEncodeError
| UnboundLocalError
| FileOperationError
| BrowserError
| OSError
| OtherError.

Inductive outcome (A : Type) :=
| Returns (a : A)
| Raises (e : exn).

Arguments Returns {A} a.
Arguments Raises {A} e.

(** The dictionary handed to [json.dump]. *)
Record json_data := {
  search_key : str;
  timestamp : str;
  total_urls : nat;
  image_urls : list str
}.

(** What the process finds around it. *)
Record world := {
  (* the encoder of sys.stdout *)
  stdout_encodes : N -> bool;
  (* setup_logger(): the logs directory and the log file *)
  setup_logger : io_outcome;
  (* if not os.path.exists(d): os.makedirs(d) *)
  ensure_dir : str -> io_outcome;
  (* open(filepath, 'w', encoding='utf-8') and json.dump(data, f, ...) *)
  write_json : str -> json_data -> io_outcome;
  (* datetime.now().strftime(...) and datetime.now().isoformat() *)
  strftime_now : str;
  isoformat_now : str
}.

End Os.

Module Search.
Import Os Fallback Scraper.

Section World.
Variable name_lookup : list N -> option N.
Variable w : world.

(** The [try] statement shared by [save_urls_to_json] and
    [_save_urls_to_json].  An [OSError] is turned into
    [FileOperationError("save", filepath, ...)]; when it comes from
    [os.makedirs] the name [filepath] is not bound yet and evaluating the
    arguments raises [UnboundLocalError].  Any other exception is logged
    and [None] is returned. *)
Definition save_urls_try (image_urls : list str) (search_key base_dir : str)
    : outcome (option str) :=
  match ensure_dir w base_dir with
  | IoOSError => Raises UnboundLocalError
  | IoOtherError => Returns None
  | IoDone =>
      let cleaned_urls := map (Codec.decode_url name_lookup) image_urls in
      let filename :=
        search_key ++ lit "_" ++ strftime_now w ++ lit ".json" in
      let filepath := Download.path_join base_dir filename in
      let data :=
        {| Os.search_key := search_key;
           timestamp := isoformat_now w;
           total_urls := length cleaned_urls;
           Os.image_urls := cleaned_urls |} in
      match write_json w filepath data with
      | IoDone => Returns (Some filepath)
      | IoOSError => Raises FileOperationError
      | IoOtherError => Returns None
      end
  end.

(** GoogleImageScraper.py, [save_urls_to_json]: [setup_logger()] is
    called before the [try]. *)
Definition save_urls_to_json (image_urls : list str)
    (search_key base_dir : str) : outcome (option str) :=
  match setup_logger w with
  | IoOSError => Raises OSError
  | IoOtherError => Raises OtherError
  | IoDone => save_urls_try image_urls search_key base_dir
  end.

(** scraper.py, [_save_urls_to_json]: the logger exists already. *)
Definition _save_urls_to_json (image_urls : list str)
    (search_key json_dir : str) : outcome (option str) :=
  save_urls_try image_urls search_key json_dir.

(** GoogleImageScraper.py, [find_image_urls], for the page [p] that the
    search URL loads: the page interactions and how the call ends.  The
    first line printed holds the search key; building the search URL
    raises when the key cannot be encoded; after the work on the page the
    list is written to the JSON file when it is not empty, the first 100
    characters of the first three URLs are printed, and the list is
    returned.  Nothing here is caught. *)
Definition find_image_urls (p : page) (search_key : str)
    (number_of_images : Z) : list event * outcome (list str) :=
  if negb (Stdout.print_ok (stdout_encodes w) search_key)
  then ([], Raises UnicodeEncodeError)
  else
    match SearchUrl.google_images_url search_key with
    | None => ([], Raises UnicodeEncodeError)
    | Some _ =>
        let (ev, cleaned_image_urls) :=
          find_image_urls_block name_lookup (stdout_encodes w) p
            number_of_images in
        let saved :=
          match cleaned_image_urls with
          | [] => Returns None
          | _ :: _ =>
              save_urls_to_json cleaned_image_urls search_key
                (lit "google_search")
          end in
        match saved with
        | Raises e => (ev, Raises e)
        | Returns _ =>
            if forallb (fun url =>
                          Stdout.print_ok (stdout_encodes w) (firstn 100 url))
                 (firstn 3 cleaned_image_urls)
            then (ev, Returns cleaned_image_urls)
            else (ev, Raises UnicodeEncodeError)
        end
    end.

(** scraper.py, [GoogleImageScraper.find_image_urls]: the method logs
    where the function prints, and whatever is raised inside it leaves it
    as [BrowserError]. *)
Definition GoogleImageScraper_find_image_urls (config : ScrapingConfig)
    (json_dir : str) (p : page) (search_key : str)
    : list event * outcome (list str) :=
  match SearchUrl.google_images_url search_key with
  | None => ([], Raises BrowserError)
  | Some _ =>
      let (ev, cleaned_image_urls) :=
        GoogleImageScraper_find_image_urls_block name_lookup config p in
      match cleaned_image_urls with
      | [] => (ev, Returns cleaned_image_urls)
      | _ :: _ =>
          match _save_urls_to_json cleaned_image_urls search_key json_dir with
          | Raises _ => (ev, Raises BrowserError)
          | Returns _ => (ev, Returns cleaned_image_urls)
          end
      end
  end.

(** scraper.py, [GoogleImageScraper.scrape]: an exception of either step
    is logged and raised again; [save_images] creates its directory
    outside any [try]. *)
Definition scrape (net : nat -> str -> Download.fetched)
    (config : ScrapingConfig) (json_dir : str)
    (save_config : Download.SaveConfig) (p : page) (search_key : str)
    : outcome (list str * nat) :=
  match snd (GoogleImageScraper_find_image_urls config json_dir p
               search_key) with
  | Raises e => Raises e
  | Returns image_urls =>
      let images_dir :=
        Download.path_join (Download.photos_dir save_config) search_key in
      match ensure_dir w images_dir with
      | IoOSError => Raises OSError
      | IoOtherError => Raises OtherError
      | IoDone =>
          let downloaded_count :=
            Download.downloaded_count
              (Download.save_images net save_config image_urls search_key) in
          Returns (image_urls, downloaded_count)
      end
  end.
End World.

End Search.

(** A UTF-8 terminal; a world in which every call into the operating
    system succeeds; and one in which a file can only be created directly
    in [google_search], as when that directory has no subdirectory. *)
Definition utf8_stdout (c : N) : bool :=
  (negb ((55296 <=? c) && (c <=? 57343)) && (c <? 1114112))%N.

Definition sample_world : Os.world :=
  {| Os.stdout_encodes := utf8_stdout;
     Os.setup_logger := Os.IoDone;
     Os.ensure_dir := fun _ => Os.IoDone;
     Os.write_json := fun _ _ => Os.IoDone;
     Os.strftime_now := lit "20240101_120000";
     Os.isoformat_now := lit "2024-01-01T12:00:00" |}.

Definition flat_world : Os.world :=
  {| Os.stdout_encodes := utf8_stdout;
     Os.setup_logger := Os.IoDone;
     Os.ensure_dir := fun _ => Os.IoDone;
     Os.write_json := fun filepath _ =>
       if (1 <? length (filter (N.eqb 47) filepath))%nat
       then Os.IoOSError else Os.IoDone;
     Os.strftime_now := lit "20240101_120000";
     Os.isoformat_now := lit "2024-01-01T12:00:00" |}.

(** The standard output can print every source the selectors can find
    and accept in these containers. *)
Definition printable_sources (stdout_encodes : N -> bool)
    (cs : list Fallback.container) : Prop :=
  forall c s src data_src img_src u,
    In c cs ->
    Fallback.found c s = Fallback.Visible src data_src ->
    Fallback.src_or_data_src src data_src = Some img_src ->
    Fallback.accepts img_src = Some u ->
    Stdout.print_ok stdout_encodes (firstn 80 u) = true.

(** The first three URLs of a list can be printed. *)
Definition printable_samples (stdout_encodes : N -> bool)
    (urls : list str) : bool :=
  forallb (fun url => Stdout.print_ok stdout_encodes (firstn 100 url))
    (firstn 3 urls).

(** A sample network: every even request is answered by a 800 x 600
    image that saves, every odd one is not answered. *)
Definition sample_net (index : nat) (_ : str) : Download.fetched :=
  if Nat.even index
  then Download.Opened {| Resolution.size := (800, 600)%Z |} true
  else Download.NoResponse.

Definition sample_save_config : Download.SaveConfig :=
  {| Download.photos_dir := lit "photos";
     Download.image_save_format := lit "jpg";
     Download.min_resolution := (0, 0)%Z;
     Download.max_resolution := (9999, 9999)%Z |}.


(** ** The standalone download loop and the command-line front end *)

Module Standalone.
Import Resolution.

(** As [Download.fetched], with the [format] attribute of the opened
    image, which PIL leaves at [None] for an image it did not read from a
    file format. *)
Inductive fetched :=
| NoResponse
| NotAnImage
| Opened (image : Image) (format : option str) (saves : bool).

Definition accepted_formats : list str := [lit "jpg"; lit "png"; lit "jpeg"].

Section Lower.
Variable unicode_lower : N -> list N.
Variable final_sigma : str -> nat -> bool.

(** GoogleImageScraper.py, [save_image]: the path returned, [None] when
    the function raises ([format] is [None], or the conversion or the
    write fails). *)
Definition save_image (format : option str) (saves : bool)
    (images_dir_path image_name save_format : str) : option str :=
  match format with
  | None => None
  | Some f =>
      let image_original_format :=
        PatternFilter.py_lower unicode_lower final_sigma f in
      let save_format :=
        if match save_format with [] => true | _ :: _ => false end ||
           negb (mem save_format accepted_formats)
        then image_original_format else save_format in
      let image_filename := image_name ++ 46%N :: save_format in
      let image_path := Download.path_join images_dir_path image_filename in
      if saves then Some image_path else None
  end.

Section Network.
Variable net : nat -> str -> fetched.

(** GoogleImageScraper.py, [save_images], past the creation of the
    directory: the files written.  The function has no [return]. *)
Fixpoint save_loop (image_save_format images_dir_path image_file_prefix : str)
    (min_resolution max_resolution : Z * Z)
    (index : nat) (image_urls : list str) (written : list str) : list str :=
  match image_urls with
  | [] => written
  | image_url :: rest =>
      let written' :=
        match net index image_url with
        | NoResponse => written
        | NotAnImage => written
        | Opened image_from_web format saves =>
            if negb (check_if_image_resolution_valid image_from_web
                       min_resolution max_resolution)
            then written
            else
              let image_name :=
                image_file_prefix ++ 45%N :: Download.py_str_nat index in
              match save_image format saves images_dir_path image_name
                      image_save_format with
              | Some image_path => written ++ [image_path]
              | None => written
              end
        end in
      save_loop image_save_format images_dir_path image_file_prefix
        min_resolution max_resolution (S index) rest written'
  end.

Definition save_images (image_urls : list str)
    (image_save_format images_dir_path image_file_prefix : str)
    (min_resolution max_resolution : Z * Z) : list str :=
  save_loop image_save_format images_dir_path image_file_prefix
    min_resolution max_resolution 0 image_urls [].
End Network.
End Lower.
End Standalone.

Module Cli.
Import Os.

(** What a call hands back to the command-line front end. *)
Inductive py_value :=
| PyNone
| PyPair (a b : nat).

(** [downloaded, failed = value]; [None] for the [TypeError] raised when
    the value cannot be unpacked. *)
Definition unpack2 (v : py_value) : option (nat * nat) :=
  match v with
  | PyNone => None
  | PyPair a b => Some (a, b)
  end.

(** The dictionary returned by [scrape_single_term]; [error] tells
    whether the key is present. *)
Record result := {
  search_term : str;
  urls_found : nat;
  images_downloaded : nat;
  failed_downloads : nat;
  success : bool;
  error : bool
}.

Record CliConfig := {
  number_of_images : Z;
  image_save_format : str;
  photos_dir : str;
  min_resolution : Z * Z;
  max_resolution : Z * Z
}.

Section World.
Variable name_lookup : list N -> option N.
Variable w : world.
(** [str(config.photos_dir / clean_term)]. *)
Variable path_str : str -> str -> str.
(** Whether the call of the standalone [save_images] with these
    arguments runs to its end; it raises otherwise. *)
Variable save_images_completes :
  list str -> str -> str -> str -> Z * Z -> Z * Z -> bool.

(** The standalone [save_images] as the front end sees it: the function
    has no [return] statement, so a call that runs to its end evaluates
    to [None]. *)
Definition save_images (image_urls : list str)
    (image_save_format images_dir_path image_file_prefix : str)
    (min_resolution max_resolution : Z * Z) : outcome py_value :=
  if save_images_completes image_urls image_save_format images_dir_path
       image_file_prefix min_resolution max_resolution
  then Returns PyNone
  else Raises OtherError.

(** cli.py, [scrape_single_term], for the page the search loads: the
    dictionary returned.  Every exception raised in the body is caught
    and answered with the failure dictionary. *)
Definition scrape_single_term (term : str) (config : CliConfig)
    (p : Scraper.page) (dry_run : bool) : result :=
  let failure :=
    {| search_term := term;
       urls_found := 0;
       images_downloaded := 0;
       failed_downloads := 0;
       success := false;
       error := true |} in
  match snd (Search.find_image_urls name_lookup w p term
               (number_of_images config)) with
  | Raises _ => failure
  | Returns image_urls =>
      let result :=
        {| search_term := term;
           urls_found := length image_urls;
           images_downloaded := 0;
           failed_downloads := 0;
           success := true;
           error := false |} in
      if dry_run then result
      else
        match image_urls with
        | [] => result
        | _ :: _ =>
            let clean_term := SearchKey.clean_search_key term in
            let output_dir := path_str (photos_dir config) clean_term in
            match save_images image_urls (image_save_format config)
                    output_dir clean_term (min_resolution config)
                    (max_resolution config) with
            | Raises _ => failure
            | Returns value =>
                match unpack2 value with
                | Some (downloaded, failed) =>
                    {| search_term := term;
                       urls_found := length image_urls;
                       images_downloaded := downloaded;
                       failed_downloads := failed;
                       success := true;
                       error := false |}
                | None => failure
                end
            end
        end
  end.
End World.
End Cli.

Definition sample_cli_config : Cli.CliConfig :=
  {| Cli.number_of_images := 1;
     Cli.image_save_format := lit "jpg";
     Cli.photos_dir := lit "photos";
     Cli.min_resolution := (0, 0)%Z;
     Cli.max_resolution := (9999, 9999)%Z |}.

Definition sample_path_str (a b : str) : str := Download.path_join a b.

Definition always_completes (_ : list str) (_ _ _ : str) (_ _ : Z * Z)
    : bool := true.

(** * Properties *)

Unset Implicit Arguments.

(** ** Strings and containment *)

Lemma str_eqb_eq (a b : str) : str_eqb a b = true <-> a = b.
Proof.
  revert b; induction a as [|x a IH]; intros [|y b]; simpl;
    try (split; intro H; (reflexivity || discriminate)).
  rewrite andb_true_iff, N.eqb_eq, IH.
  split; [intros [-> ->]; reflexivity | intros H; inversion H; auto].
Qed.

Lemma starts_with_spec (p s : str) :
  starts_with p s = true <-> exists b, s = p ++ b.
Proof.
  revert s; induction p as [|x p IH]; intros s; simpl.
  - split; [intros _; exists s; reflexivity | reflexivity].
  - destruct s as [|y s].
    + split; [discriminate | intros [b H]; discriminate].
    + rewrite andb_true_iff, N.eqb_eq, IH. split.
      * intros [-> [b ->]]. exists b. reflexivity.
      * intros [b H]. inversion H. split; [reflexivity | exists b; reflexivity].
Qed.

Lemma contains_spec (p s : str) :
  contains p s = true <-> substring p s.
Proof.
  unfold substring. induction s as [|y s IH].
  - simpl. rewrite orb_false_r, starts_with_spec. split.
    + intros [b H]. exists [], b. exact H.
    + intros [a [b H]]. destruct a; [exists b; exact H | discriminate].
  - cbn [contains]. rewrite orb_true_iff, starts_with_spec, IH. split.
    + intros [[b H] | [a [b H]]].
      * exists [], b. exact H.
      * exists (y :: a), b. rewrite H. reflexivity.
    + intros [[|x a] [b H]].
      * left. exists b. exact H.
      * right. inversion H. exists a, b. reflexivity.
Qed.

Lemma contains_false_iff (p s : str) :
  contains p s = false <-> ~ substring p s.
Proof.
  rewrite <- contains_spec. destruct (contains p s); split; intro H;
    (reflexivity || discriminate || (exfalso; apply H; reflexivity) || auto).
Qed.

Lemma substring_app_l (p a b : str) : substring p a -> substring p (a ++ b).
Proof.
  intros [x [y ->]]. exists x, (y ++ b). now rewrite <- !app_assoc.
Qed.

Lemma substring_app_r (p a b : str) : substring p b -> substring p (a ++ b).
Proof.
  intros [x [y ->]]. exists (a ++ x), y. now rewrite <- !app_assoc.
Qed.

Lemma substring_cons (p : str) (c : N) (s : str) :
  substring p s -> substring p (c :: s).
Proof. apply (substring_app_r p [c] s). Qed.

Lemma substring_single (c : N) (s : str) : substring [c] s <-> In c s.
Proof.
  split.
  - intros [a [b ->]]. apply in_or_app. right. left. reflexivity.
  - intros H. apply in_split in H. destruct H as [a [b ->]].
    exists a, b. reflexivity.
Qed.

(** ** Resolution window *)

Module ResolutionFacts.
Import Resolution.

(** C8: the validator accepts exactly the resolutions inside the window,
    both ends included; (800, 600) passes the window (800, 600)-(1920, 1080)
    and (799, 600) does not. *)
Theorem validate_resolution_window :
  (forall w h min_w min_h max_w max_h : Z,
      validate_resolution w h (min_w, min_h) (max_w, max_h) = true <->
      (min_w <= w <= max_w /\ min_h <= h <= max_h)%Z) /\
  (forall min_w min_h max_w max_h : Z,
      validate_resolution min_w min_h (min_w, min_h) (max_w, max_h) =
        ((min_w <=? max_w) && (min_h <=? max_h))%Z /\
      validate_resolution max_w max_h (min_w, min_h) (max_w, max_h) =
        ((min_w <=? max_w) && (min_h <=? max_h))%Z) /\
  validate_resolution 800 600 (800, 600)%Z (1920, 1080)%Z = true /\
  validate_resolution 799 600 (800, 600)%Z (1920, 1080)%Z = false.
Proof.
  assert (E : forall w h a b c d : Z,
             validate_resolution w h (a, b) (c, d) = true <->
             (a <= w <= c /\ b <= h <= d)%Z).
  { intros. unfold validate_resolution. simpl.
    rewrite !andb_true_iff, !Z.leb_le. tauto. }
  split; [exact E|]. split; [|split; reflexivity].
  intros a b c d. unfold validate_resolution. cbn [fst snd].
  rewrite !Z.leb_refl, !andb_true_r, !andb_true_l. split; reflexivity.
Qed.

(** C10: the check of GoogleImageScraper.py and the helper of helpers.py
    return the same answer on every image size and window. *)
Theorem check_if_image_resolution_valid_equiv (w h : Z)
    (min_resolution max_resolution : Z * Z) :
  check_if_image_resolution_valid {| size := (w, h) |}
    min_resolution max_resolution =
  validate_resolution w h min_resolution max_resolution.
Proof.
  unfold check_if_image_resolution_valid, validate_resolution, tuple2_truthy.
  cbn [size fst snd]. rewrite !Z.geb_leb.
  destruct (fst min_resolution <=? w)%Z, (w <=? fst max_resolution)%Z,
    (snd min_resolution <=? h)%Z, (h <=? snd max_resolution)%Z; reflexivity.
Qed.

End ResolutionFacts.

(** ** First-occurrence deduplication *)

Section OrderedKeys.

Lemma mem_In (x : str) (l : list str) : mem x l = true <-> In x l.
Proof.
  unfold mem. rewrite existsb_exists. split.
  - intros [y [Hy E]]. apply str_eqb_eq in E. now subst.
  - intros H. exists x. split; [exact H | now apply str_eqb_eq].
Qed.

Lemma mem_ext (x : str) (a b : list str) :
  (forall y, In y a <-> In y b) -> mem x a = mem x b.
Proof.
  intros H. destruct (mem x a) eqn:Ea, (mem x b) eqn:Eb; try reflexivity.
  - apply mem_In, H, mem_In in Ea. congruence.
  - apply mem_In, H, mem_In in Eb. congruence.
Qed.

Lemma unseen_ext (xs a b : list str) :
  (forall y, In y a <-> In y b) -> unseen a xs = unseen b xs.
Proof.
  revert a b; induction xs as [|x xs IH]; intros a b H; simpl.
  - reflexivity.
  - rewrite (mem_ext x a b H). destruct (mem x b).
    + now apply IH.
    + f_equal. apply IH. intros y. simpl. rewrite H. tauto.
Qed.

Lemma fold_insert_unseen (xs acc : list str) :
  fold_left insert_key xs acc = acc ++ unseen acc xs.
Proof.
  revert acc; induction xs as [|x xs IH]; intros acc; simpl.
  - now rewrite app_nil_r.
  - unfold insert_key at 2. destruct (mem x acc).
    + apply IH.
    + rewrite IH, <- app_assoc. simpl. do 2 f_equal.
      apply unseen_ext. intros y. rewrite in_app_iff. simpl. tauto.
Qed.

Lemma ordered_keys_unseen (xs : list str) : ordered_keys xs = unseen [] xs.
Proof. unfold ordered_keys. now rewrite fold_insert_unseen. Qed.

Lemma differs_true (x y : str) : differs x y = true <-> y <> x.
Proof.
  unfold differs. rewrite negb_true_iff. split.
  - intros E H. apply str_eqb_eq in H. congruence.
  - intros H. destruct (str_eqb y x) eqn:E; [|reflexivity].
    apply str_eqb_eq in E. contradiction.
Qed.

Lemma filter_differs_idem (x : str) (l : list str) :
  filter (differs x) (filter (differs x) l) = filter (differs x) l.
Proof.
  induction l as [|y l IH]; simpl; [reflexivity|].
  destruct (differs x y) eqn:E; simpl; [rewrite E, IH|]; auto.
Qed.

Lemma unseen_cons_seen (x : str) (xs seen : list str) :
  unseen (x :: seen) xs = filter (differs x) (unseen seen xs).
Proof.
  revert seen; induction xs as [|y xs IH]; intros seen; [reflexivity|].
  cbn [unseen]. destruct (str_eqb y x) eqn:E.
  - apply str_eqb_eq in E. subst y.
    assert (M : mem x (x :: seen) = true) by (apply mem_In; now left).
    rewrite M, IH. destruct (mem x seen); [reflexivity|].
    cbn [filter]. unfold differs at 2.
    assert (R : str_eqb x x = true) by now apply str_eqb_eq.
    rewrite R. cbn [negb]. now rewrite filter_differs_idem.
  - assert (M : mem y (x :: seen) = mem y seen).
    { change (mem y (x :: seen)) with (str_eqb y x || mem y seen).
      rewrite E. reflexivity. }
    rewrite M. destruct (mem y seen); [apply IH|].
    cbn [filter]. unfold differs at 1. rewrite E. cbn [negb].
    f_equal. rewrite <- IH. apply unseen_ext. intros z. simpl. tauto.
Qed.

(** The recursive reading of the insertion loop. *)
Lemma ordered_keys_cons (x : str) (xs : list str) :
  ordered_keys (x :: xs) = x :: filter (differs x) (ordered_keys xs).
Proof.
  rewrite !ordered_keys_unseen. cbn [unseen mem existsb].
  now rewrite unseen_cons_seen.
Qed.

Lemma ordered_keys_nil : ordered_keys [] = [].
Proof. reflexivity. Qed.

Lemma ordered_keys_In (x : str) (xs : list str) :
  In x (ordered_keys xs) <-> In x xs.
Proof.
  induction xs as [|y xs IH]; [reflexivity|].
  rewrite ordered_keys_cons. simpl. rewrite filter_In, differs_true, IH.
  destruct (str_eq_dec y x); [subst|]; intuition congruence.
Qed.

Lemma ordered_keys_NoDup (xs : list str) : NoDup (ordered_keys xs).
Proof.
  induction xs as [|y xs IH]; [constructor|].
  rewrite ordered_keys_cons. constructor.
  - rewrite filter_In, differs_true. intros [_ H]. now apply H.
  - now apply NoDup_filter.
Qed.

Lemma filter_differs_notin (x : str) (l : list str) :
  ~ In x l -> filter (differs x) l = l.
Proof.
  induction l as [|y l IH]; intros H; simpl; [reflexivity|].
  assert (E : differs x y = true).
  { apply differs_true. intros ->. apply H. now left. }
  rewrite E, IH; [reflexivity|]. intros H'. apply H. now right.
Qed.

Lemma ordered_keys_fixed (xs : list str) : NoDup xs -> ordered_keys xs = xs.
Proof.
  induction 1 as [|x xs Hx Hnd IH]; [reflexivity|].
  now rewrite ordered_keys_cons, IH, filter_differs_notin.
Qed.

Lemma ordered_keys_idem (xs : list str) :
  ordered_keys (ordered_keys xs) = ordered_keys xs.
Proof. apply ordered_keys_fixed, ordered_keys_NoDup. Qed.

Lemma ordered_keys_app (p f : list str) :
  ordered_keys (p ++ f) = ordered_keys p ++ unseen (ordered_keys p) f.
Proof.
  unfold ordered_keys at 1. rewrite fold_left_app.
  fold (ordered_keys p). apply fold_insert_unseen.
Qed.

Lemma ordered_keys_length (xs : list str) :
  length (ordered_keys xs) = length (nodup str_eq_dec xs).
Proof.
  apply Permutation_length, NoDup_Permutation.
  - apply ordered_keys_NoDup.
  - apply NoDup_nodup.
  - intros x. now rewrite ordered_keys_In, nodup_In.
Qed.

Lemma first_index_head (x : str) (l : list str) : first_index x (x :: l) = O.
Proof.
  simpl. assert (R : str_eqb x x = true) by now apply str_eqb_eq.
  now rewrite R.
Qed.

Lemma first_index_tail (x y : str) (l : list str) :
  y <> x -> first_index y (x :: l) = S (first_index y l).
Proof.
  intros H. simpl. destruct (str_eqb y x) eqn:E; [|reflexivity].
  apply str_eqb_eq in E. contradiction.
Qed.

Lemma StronglySorted_filter {A} (R : A -> A -> Prop) (f : A -> bool) l :
  StronglySorted R l -> StronglySorted R (filter f l).
Proof.
  induction 1 as [|a l Hs IH Hf]; simpl; [constructor|].
  destruct (f a); [|exact IH]. constructor; [exact IH|].
  rewrite Forall_forall in *. intros b Hb. apply filter_In in Hb.
  now apply Hf.
Qed.

Lemma StronglySorted_weaken {A} (R R' : A -> A -> Prop) l :
  (forall a b, In a l -> In b l -> R a b -> R' a b) ->
  StronglySorted R l -> StronglySorted R' l.
Proof.
  intros H Hs. induction Hs as [|a l Hs IH Hf]; constructor.
  - apply IH. intros x y Hx Hy. apply H; now right.
  - rewrite Forall_forall in *. intros b Hb.
    apply H; [now left | now right | now apply Hf].
Qed.

(** The entries come in the order of their first occurrence. *)
Lemma ordered_keys_order (xs : list str) :
  first_occurrence_order xs (ordered_keys xs).
Proof.
  unfold first_occurrence_order.
  induction xs as [|x xs IH]; [constructor|].
  rewrite ordered_keys_cons. constructor.
  - apply StronglySorted_weaken
      with (R := fun a b => (first_index a xs < first_index b xs)%nat).
    + intros a b Ha Hb Hab.
      apply filter_In in Ha, Hb. destruct Ha as [_ Ha], Hb as [_ Hb].
      apply differs_true in Ha, Hb.
      rewrite !first_index_tail by assumption. lia.
    + now apply StronglySorted_filter.
  - apply Forall_forall. intros y Hy. apply filter_In in Hy.
    destruct Hy as [_ Hy]. apply differs_true in Hy.
    rewrite first_index_head, first_index_tail by assumption. lia.
Qed.

End OrderedKeys.

(** ** URL post-processor *)

Module PostProcessorFacts.
Import Fallback Scraper.

Section Facts.
Variable name_lookup : list N -> option N.

Local Abbreviation decode_url := (Codec.decode_url name_lookup).
Local Abbreviation decode_steps := (Codec.decode_steps name_lookup).
Local Abbreviation clean_loop := (clean_loop name_lookup).
Local Abbreviation finalize := (finalize name_lookup).
Local Abbreviation merge_and_finalize := (merge_and_finalize name_lookup).

Lemma py_take_nonneg {A} (n : Z) (l : list A) :
  (0 <= n)%Z -> py_take n l = firstn (Z.to_nat n) l.
Proof.
  intros H. unfold py_take. destruct (n <? 0)%Z eqn:E; [|reflexivity].
  apply Z.ltb_lt in E. lia.
Qed.

(** The loop appends, entry by entry, the decoded URL or the original. *)
Lemma clean_loop_map (l acc : list str) :
  clean_loop l acc = acc ++ map decode_url l.
Proof.
  revert acc; induction l as [|u l IH]; intros acc; simpl.
  - now rewrite app_nil_r.
  - unfold Codec.decode_url.
    destruct (decode_steps u); rewrite IH, <- app_assoc; reflexivity.
Qed.

Lemma finalize_map (n : Z) (l : list str) :
  finalize n l = map decode_url (py_take n l).
Proof. unfold Scraper.finalize. now rewrite clean_loop_map. Qed.

Lemma decode_url_failure (u : str) : decode_steps u = None -> decode_url u = u.
Proof. intros H. unfold Codec.decode_url. now rewrite H. Qed.

Lemma NoDup_firstn {A} (n : nat) (l : list A) : NoDup l -> NoDup (firstn n l).
Proof.
  intros H. rewrite <- (firstn_skipn n l) in H.
  now apply NoDup_app_remove_r in H.
Qed.

Lemma StronglySorted_firstn {A} (R : A -> A -> Prop) (n : nat) (l : list A) :
  StronglySorted R l -> StronglySorted R (firstn n l).
Proof.
  intros H; revert n; induction H as [|a l Hs IH Hf]; intros [|n]; simpl;
    try constructor.
  - apply IH.
  - rewrite Forall_forall in *. intros b Hb. apply Hf.
    rewrite <- (firstn_skipn n l). apply in_or_app. now left.
Qed.

(** What the post-processor keeps before it normalizes: the first [N]
    entries of the first occurrences of [p ++ f]. *)
Lemma selection (p f : list str) (N : Z) :
  (0 <= N)%Z -> NoDup p ->
  py_take N (if (Z.of_nat (length p) <? N)%Z then merge p f else p) =
  firstn (Z.to_nat N) (ordered_keys (p ++ f)).
Proof.
  intros HN Hp. rewrite py_take_nonneg by assumption.
  destruct (Z.of_nat (length p) <? N)%Z eqn:E; [reflexivity|].
  apply Z.ltb_ge in E.
  rewrite ordered_keys_app, (ordered_keys_fixed p Hp), firstn_app.
  replace (Z.to_nat N - length p)%nat with O by lia.
  simpl. now rewrite app_nil_r.
Qed.

(** C3, as the code has it: for a duplicate-free text-scan result [p],
    any click result [f] and a target count [N >= 0], the output is the
    entry-wise normalization of the first [N] first occurrences of [p ++ f];
    its length is [min N d] for [d] the number of distinct strings of
    [p ++ f]; the entries selected are pairwise different and in
    first-occurrence order. *)
Theorem merge_and_finalize_shape (p f : list str) (N : Z) :
  (0 <= N)%Z -> NoDup p ->
  let selected := firstn (Z.to_nat N) (ordered_keys (p ++ f)) in
  merge_and_finalize p f N = map decode_url selected /\
  length (merge_and_finalize p f N) =
    Nat.min (Z.to_nat N) (length (nodup str_eq_dec (p ++ f))) /\
  NoDup selected /\
  first_occurrence_order (p ++ f) selected /\
  (forall x, In x selected -> In x (p ++ f)).
Proof.
  intros HN Hp selected.
  assert (E : merge_and_finalize p f N = map decode_url selected).
  { unfold Scraper.merge_and_finalize. rewrite finalize_map.
    now rewrite selection. }
  split; [exact E|]. split; [|split; [|split]].
  - rewrite E, length_map. unfold selected.
    now rewrite length_firstn, ordered_keys_length.
  - apply NoDup_firstn, ordered_keys_NoDup.
  - apply StronglySorted_firstn, ordered_keys_order.
  - intros x Hx. apply ordered_keys_In. unfold selected in Hx.
    rewrite <- (firstn_skipn (Z.to_nat N) (ordered_keys (p ++ f))).
    apply in_or_app. now left.
Qed.

(** C7: when decoding one URL raises, the loop keeps the original string
    for that entry and goes on; the entries before and after come out as
    they do without it. *)
Theorem clean_loop_failure_is_local (l1 l2 : list str) (u : str) :
  decode_steps u = None ->
  clean_loop (l1 ++ u :: l2) [] = clean_loop l1 [] ++ u :: clean_loop l2 [] /\
  clean_loop (l1 ++ l2) [] = clean_loop l1 [] ++ clean_loop l2 [] /\
  map decode_url (l1 ++ u :: l2) = clean_loop (l1 ++ u :: l2) [] /\
  length (clean_loop (l1 ++ u :: l2) []) = length (l1 ++ u :: l2).
Proof.
  intros H. rewrite !clean_loop_map. simpl.
  rewrite !map_app. simpl. rewrite (decode_url_failure u H).
  repeat split; try reflexivity.
  rewrite !length_app. simpl. now rewrite !length_map.
Qed.

(** C5, as the code has it: deduplication and truncation are idempotent,
    and a second pass over a finalized sequence returns it unchanged when
    the sequence is duplicate-free and normalization leaves each of its
    entries as it is. *)
Theorem merge_and_finalize_twice (p f : list str) (N : Z) :
  (0 <= N)%Z ->
  let out := merge_and_finalize p f N in
  NoDup out ->
  (forall u, In u out -> decode_url u = u) ->
  merge_and_finalize out [] N = out /\
  ordered_keys (ordered_keys (p ++ f)) = ordered_keys (p ++ f) /\
  py_take N (py_take N (p ++ f)) = py_take N (p ++ f).
Proof.
  intros HN out Hnd Hfix. split; [|split].
  - unfold Scraper.merge_and_finalize at 1. rewrite finalize_map.
    assert (Hlen : (length out <= Z.to_nat N)%nat).
    { unfold out, Scraper.merge_and_finalize. rewrite finalize_map.
      rewrite length_map, py_take_nonneg, length_firstn by assumption. lia. }
    assert (Hsel : py_take N
              (if (Z.of_nat (length out) <? N)%Z then merge out [] else out)
            = out).
    { rewrite py_take_nonneg by assumption.
      destruct (Z.of_nat (length out) <? N)%Z.
      - unfold merge. rewrite app_nil_r, ordered_keys_fixed by assumption.
        now apply firstn_all2.
      - now apply firstn_all2. }
    rewrite Hsel. rewrite <- (map_id out) at 2.
    apply map_ext_in. exact Hfix.
  - apply ordered_keys_idem.
  - rewrite !py_take_nonneg by assumption.
    rewrite firstn_firstn. now rewrite Nat.min_id.
Qed.

End Facts.

(** C3 as stated fails.  Normalization runs after deduplication and can
    make two entries equal; and a primary sequence that is long enough is
    not deduplicated at all, so for one with a repeated entry (which the
    text scan never returns) the length is not the number of distinct
    strings either. *)
Lemma merge_and_finalize_duplicates :
  let p := [lit "http://a.b/%41.jpg"; lit "http://a.b/A.jpg"] in
  let q := [lit "http://a.b/c.jpg"; lit "http://a.b/c.jpg"] in
  (NoDup p /\
   merge_and_finalize no_names p [] 2 =
     [lit "http://a.b/A.jpg"; lit "http://a.b/A.jpg"] /\
   ~ NoDup (merge_and_finalize no_names p [] 2)) /\
  (length (merge_and_finalize no_names q [] 2) = 2%nat /\
   Nat.min 2 (length (nodup str_eq_dec (q ++ []))) = 1%nat).
Proof.
  cbv zeta. split; [split; [|split]|split].
  - constructor; [|constructor; [intros []|constructor]].
    intros [H|[]]. vm_compute in H. discriminate.
  - vm_compute. reflexivity.
  - intros H. vm_compute in H. inversion H as [|x l Hin _]; subst.
    apply Hin. now left.
  - vm_compute. reflexivity.
  - vm_compute. reflexivity.
Qed.

(** C5 as stated fails: a percent sign that was itself escaped is decoded
    again by the second pass. *)
Lemma merge_and_finalize_not_idempotent :
  let out := merge_and_finalize no_names [lit "http://a.b/x%2520y.jpg"] [] 1 in
  out = [lit "http://a.b/x%20y.jpg"] /\
  merge_and_finalize no_names out [] 1 = [lit "http://a.b/x y.jpg"] /\
  merge_and_finalize no_names out [] 1 <> out.
Proof.
  cbv zeta. split; [|split].
  - vm_compute. reflexivity.
  - vm_compute. reflexivity.
  - vm_compute. discriminate.
Qed.

Lemma merge_and_finalize_shape_witness :
  let p := [lit "http://a.b/c.jpg"] in
  let f := [lit "http://a.b/c.jpg"; lit "http://a.b/d.png"] in
  length (merge_and_finalize no_names p f 5) = 2%nat.
Proof.
  cbv zeta.
  refine (eq_trans (proj1 (proj2 (merge_and_finalize_shape no_names
            [lit "http://a.b/c.jpg"]
            [lit "http://a.b/c.jpg"; lit "http://a.b/d.png"] 5 _ _))) _).
  - lia.
  - constructor; [intros [] | constructor].
  - vm_compute. reflexivity.
Defined.

Lemma clean_loop_failure_is_local_witness :
  clean_loop no_names ([lit "a%20b"] ++ [92%N] :: [lit "c"]) [] =
  clean_loop no_names [lit "a%20b"] [] ++ [92%N] :: clean_loop no_names [lit "c"] [].
Proof.
  apply (proj1 (clean_loop_failure_is_local no_names
                  [lit "a%20b"] [lit "c"] [92%N] eq_refl)).
Defined.

Lemma merge_and_finalize_twice_witness :
  let out := merge_and_finalize no_names [lit "http://a.b/c.jpg"] [] 1 in
  merge_and_finalize no_names out [] 1 = out.
Proof.
  cbv zeta.
  refine (proj1 (merge_and_finalize_twice no_names
            [lit "http://a.b/c.jpg"] [] 1 _ _ _)).
  - lia.
  - vm_compute. constructor; [intros [] | constructor].
  - intros u Hu. vm_compute in Hu. destruct Hu as [<-|[]].
    vm_compute. reflexivity.
Defined.

End PostProcessorFacts.

(** ** Pattern filter *)

Module PatternFilterFacts.
Import PatternFilter.

Lemma existsb_contains (B : list str) (s : str) :
  existsb (fun pattern => contains pattern s) B = true <->
  exists pattern, In pattern B /\ substring pattern s.
Proof.
  rewrite existsb_exists. split; intros [q [Hq H]]; exists q;
    (split; [exact Hq | now apply contains_spec]).
Qed.

(** The nine [includes] tests of the script-tag scan are the containment
    test against the default blocklist. *)
Lemma script_keeps_blocklist (url : str) :
  script_keeps url =
  negb (existsb (fun pattern => contains pattern url) default_blocklist).
Proof.
  unfold script_keeps, default_blocklist. cbn [existsb].
  rewrite orb_false_r, !negb_orb, !andb_assoc. reflexivity.
Qed.

(** C1, as the code has it.  The helper's thumbnail test holds exactly when
    a blocklist pattern occurs in the lower-cased URL (the patterns
    themselves are not folded), so it never holds for an empty blocklist;
    the in-page script's filter rejects a URL exactly when one of the nine
    default patterns occurs in it, compared case-sensitively. *)
Theorem is_thumbnail_spec
    (unicode_lower : N -> list N) (final_sigma : str -> nat -> bool)
    (url : str) (B : list str) :
  (is_thumbnail unicode_lower final_sigma url B = true <->
   exists pattern, In pattern B /\
     substring pattern (py_lower unicode_lower final_sigma url)) /\
  is_thumbnail unicode_lower final_sigma url [] = false /\
  (script_keeps url = false <->
   exists pattern, In pattern default_blocklist /\ substring pattern url).
Proof.
  split; [|split].
  - apply existsb_contains.
  - reflexivity.
  - rewrite script_keeps_blocklist, negb_false_iff. apply existsb_contains.
Qed.

(** C1 as stated fails on the helper: the URL is lower-cased before the
    search, so a pattern can match where it does not occur
    case-sensitively, and an upper-case pattern that does occur is
    missed. *)
Lemma is_thumbnail_folds_case :
  is_thumbnail ascii_only_lower never_final
    (lit "http://a.b/LOGO.png") [lit "logo"] = true /\
  ~ (exists pattern, In pattern [lit "logo"] /\
       substring pattern (lit "http://a.b/LOGO.png")) /\
  is_thumbnail ascii_only_lower never_final
    (lit "http://a.b/LOGO.png") [lit "LOGO"] = false /\
  substring (lit "LOGO") (lit "http://a.b/LOGO.png").
Proof.
  split; [vm_compute; reflexivity|]. split; [|split].
  - intros [q [[<-|[]] H]]. apply contains_spec in H.
    vm_compute in H. discriminate.
  - vm_compute. reflexivity.
  - apply contains_spec. vm_compute. reflexivity.
Qed.

End PatternFilterFacts.

(** ** When the fallback runs *)

Module FallbackFacts.
Import Fallback Scraper.

Lemma LocateContainers_not_in_repeat (n : nat) (ev : list event) :
  In LocateContainers (repeat Scroll n ++ LocateContainers :: ev).
Proof. apply in_or_app. right. now left. Qed.

Lemma extract_urls_by_clicking_events (s n : Z) (cs : list container) :
  In LocateContainers (fst (extract_urls_by_clicking s n cs)).
Proof.
  unfold extract_urls_by_clicking.
  destruct (click_loop n _ []) as [ev out]. cbn [fst].
  apply LocateContainers_not_in_repeat.
Qed.

Lemma standalone_extract_urls_by_clicking_events
    (stdout_encodes : N -> bool) (s n : Z) (cs : list container) :
  In LocateContainers
    (fst (StandaloneFallback.extract_urls_by_clicking stdout_encodes s n cs)).
Proof.
  unfold StandaloneFallback.extract_urls_by_clicking.
  destruct (StandaloneFallback.click_loop stdout_encodes n _ [])
    as [ev out]. cbn [fst].
  apply LocateContainers_not_in_repeat.
Qed.

(** C9: the page is touched again after the text scan exactly when the
    scan returned fewer URLs than requested; otherwise the result is the
    scan's own list, truncated and normalized, whatever the containers
    are and whatever the standard output can print.  Both versions of the
    search function behave so. *)
Theorem fallback_runs_iff_short (name_lookup : list N -> option N)
    (stdout_encodes : N -> bool)
    (d : TextScan.document) (cs : list container) (n : Z) (scroll : Z) :
  let scan := map TextScan.js_to_py (TextScan.extract_urls_from_page_data d) in
  let p := {| doc := d; image_containers := cs |} in
  let r := find_image_urls_block name_lookup stdout_encodes p n in
  let r' := GoogleImageScraper_find_image_urls_block name_lookup
              {| number_of_images := n; scroll_attempts := scroll |} p in
  (In LocateContainers (fst r) <-> (Z.of_nat (length scan) < n)%Z) /\
  (In LocateContainers (fst r') <-> (Z.of_nat (length scan) < n)%Z) /\
  ((n <= Z.of_nat (length scan))%Z ->
   r = ([], map (Codec.decode_url name_lookup) (py_take n scan)) /\
   r' = ([], map (Codec.decode_url name_lookup) (py_take n scan))).
Proof.
  intros scan p r r'. subst r r' p.
  unfold find_image_urls_block, GoogleImageScraper_find_image_urls_block.
  cbn [doc image_containers number_of_images scroll_attempts].
  fold scan.
  destruct (Z.of_nat (length scan) <? n)%Z eqn:E.
  - apply Z.ltb_lt in E. split; [|split].
    + split; [intros _; exact E|intros _].
      pose proof (standalone_extract_urls_by_clicking_events stdout_encodes
                    (Z.max 3 (n / 10 + 1)) n cs) as H.
      destruct (StandaloneFallback.extract_urls_by_clicking _ _ n cs).
      exact H.
    + split; [intros _; exact E|intros _].
      pose proof (extract_urls_by_clicking_events scroll n cs) as H.
      destruct (extract_urls_by_clicking _ n cs). exact H.
    + intros H. lia.
  - apply Z.ltb_ge in E. split; [|split].
    + split; [intros []|intros H; lia].
    + split; [intros []|intros H; lia].
    + intros _. now rewrite PostProcessorFacts.finalize_map.
Qed.

Lemma fallback_runs_iff_short_witness :
  find_image_urls_block no_names utf8_stdout
    {| doc := one_url_document; image_containers := [] |} 1 =
  ([], [lit "https://cdn.example.org/photos/cat.jpg"]).
Proof.
  refine (eq_trans (proj1 (proj2 (proj2 (fallback_runs_iff_short
            no_names utf8_stdout one_url_document [] 1 3)) _)) _).
  - vm_compute. discriminate.
  - vm_compute. reflexivity.
Defined.

End FallbackFacts.

(** ** Normalization *)

Module CodecFacts.
Import Codec.

Lemma list_length_ind {A} (P : list A -> Prop) :
  (forall l, (forall l', (length l' < length l)%nat -> P l') -> P l) ->
  forall l, P l.
Proof.
  intros H l. remember (length l) as n eqn:E. revert l E.
  induction n as [n IH] using lt_wf_ind. intros l ->.
  apply H. intros l' Hl'. now apply (IH (length l')).
Qed.

Lemma prefix_before (p y a b : str) (c : N) :
  ~ In c p -> p ++ y = a ++ c :: b -> exists z, a = p ++ z.
Proof.
  revert a; induction p as [|q p IH]; intros a Hc E.
  - now exists a.
  - destruct a as [|a0 a]; simpl in E; inversion E; subst.
    + exfalso. apply Hc. now left.
    + destruct (IH a) as [z ->]; [|assumption|now exists z].
      intros H. apply Hc. now right.
Qed.

(** An occurrence of [p] in [a ++ c :: b] lies in [a] or in [b] when [c]
    is not a character of [p]. *)
Lemma substring_split_at (p a b : str) (c : N) :
  ~ In c p -> substring p (a ++ c :: b) -> substring p a \/ substring p b.
Proof.
  intros Hc. induction a as [|a0 a IH]; intros [x [y E]].
  - destruct x as [|x0 x]; simpl in E.
    + destruct p as [|q p]; [left; now exists [], []|].
      inversion E; subst. exfalso. apply Hc. now left.
    + inversion E; subst. right. now exists x, y.
  - destruct x as [|x0 x].
    + left. destruct (prefix_before p y (a0 :: a) b c Hc (eq_sym E)) as [z ->].
      now exists [], z.
    + inversion E; subst. destruct IH as [H|H].
      * now exists x, y.
      * left. now apply substring_cons.
      * now right.
Qed.

Lemma substring_head_or_tail (p : str) (c : N) (s : str) :
  substring p (c :: s) -> (exists b, c :: s = p ++ b) \/ substring p s.
Proof.
  intros [[|x a] [b E]].
  - left. now exists b.
  - right. inversion E. now exists a, b.
Qed.

(** *** The encoder *)

Lemma utf8_encode_app (a b : str) :
  utf8_encode (a ++ b) =
  match utf8_encode a, utf8_encode b with
  | Some x, Some y => Some (x ++ y)
  | _, _ => None
  end.
Proof.
  induction a as [|c a IH]; simpl.
  - now destruct (utf8_encode b).
  - rewrite IH. destruct (utf8_encode_char c), (utf8_encode a),
      (utf8_encode b); try reflexivity. now rewrite app_assoc.
Qed.

Lemma utf8_encode_ascii (s : str) :
  Forall (fun c => (c < 128)%N) s -> utf8_encode s = Some s.
Proof.
  induction 1 as [|c s Hc _ IH]; [reflexivity|]. simpl.
  unfold utf8_encode_char. apply N.ltb_lt in Hc. now rewrite Hc, IH.
Qed.

Lemma utf8_encode_char_bytes (c : N) (bs : list N) (b : N) :
  utf8_encode_char c = Some bs -> In b bs -> b = c \/ (128 <= b)%N.
Proof.
  unfold utf8_encode_char. intros E Hb.
  assert (F : bs = [c] \/ Forall (fun x => (128 <= x)%N) bs).
  { repeat match type of E with
           | context [if ?t then _ else _] => destruct t
           end; try discriminate E;
      apply (f_equal (fun o => match o with Some x => x | None => [] end))
        in E; cbv beta iota in E; subst bs;
      [now left
      | right;
        repeat (apply Forall_cons;
                [cbv beta;
                 match goal with
                 | |- (128 <= _ + ?x)%N => generalize x; intros; lia
                 end|]);
        apply Forall_nil ..]. }
  destruct F as [->|F].
  - destruct Hb as [<-|[]]. now left.
  - right. rewrite Forall_forall in F. now apply F.
Qed.

Lemma utf8_encode_keeps_out (c : N) (a bs : str) :
  (c < 128)%N -> utf8_encode a = Some bs -> ~ In c a -> ~ In c bs.
Proof.
  intros Hc. revert bs; induction a as [|x a IH]; intros bs E Hn; simpl in E.
  - inversion E. intros [].
  - destruct (utf8_encode_char x) as [xs|] eqn:Ex; [|discriminate].
    destruct (utf8_encode a) as [r|]; [|discriminate].
    inversion E; subst. intros H. apply in_app_or in H. destruct H as [H|H].
    + destruct (utf8_encode_char_bytes x xs c Ex H) as [->|Hge]; [|lia].
      apply Hn. now left.
    + revert H. apply IH; [reflexivity|]. intros H. apply Hn. now right.
Qed.

(** *** The escape decoder *)

Section Escapes.
Variable name_lookup : list N -> option N.

Local Abbreviation escape_run := (escape_run name_lookup).
Local Abbreviation step := (step name_lookup).

(** Outside an escape, bytes other than the backslash are copied. *)
Lemma escape_run_plain_prefix (a s : list N) :
  ~ In 92%N a ->
  escape_run Plain (a ++ s) =
  match escape_run Plain s with
  | Some r => Some (a ++ r)
  | None => None
  end.
Proof.
  induction a as [|c a IH]; intros H; simpl.
  - now destruct (escape_run Plain s).
  - unfold plain_step. destruct (c =? 92)%N eqn:E.
    + apply N.eqb_eq in E. subst. exfalso. apply H. now left.
    + rewrite IH by (intros H'; apply H; now right).
      now destruct (escape_run Plain s).
Qed.

Lemma escape_run_no_backslash (a : list N) :
  ~ In 92%N a -> escape_run Plain a = Some a.
Proof.
  intros H. rewrite <- (app_nil_r a) at 1.
  rewrite escape_run_plain_prefix by assumption. simpl.
  now rewrite app_nil_r.
Qed.

Hypothesis names_have_no_percent :
  forall name c, name_lookup name = Some c -> ~ In 37%N name.

Lemma name_with_percent_fails (s acc : list N) :
  In 37%N acc -> escape_run (Name acc) s = None.
Proof.
  revert acc; induction s as [|c s IH]; intros acc H; [reflexivity|].
  simpl. destruct (c =? 125)%N.
  - destruct acc as [|a acc]; [reflexivity|].
    destruct (name_lookup (a :: acc)) as [ch|] eqn:E; [|reflexivity].
    exfalso. exact (names_have_no_percent _ _ E H).
  - rewrite IH; [reflexivity|]. apply in_or_app. now left.
Qed.

Lemma escape_run_percent20_head (st : esc_state) (t : list N) (r : str) :
  escape_run st (percent20 ++ t) = Some r -> substring percent20 r.
Proof.
  destruct st as [| |more ch|more ch| |acc]; cbn.
  - destruct (escape_run Plain t) as [r'|]; [|discriminate].
    intros E; inversion E. now exists [], r'.
  - destruct (escape_run Plain t) as [r'|]; [|discriminate].
    intros E; inversion E. now exists [92%N], r'.
  - destruct (escape_run Plain t) as [r'|]; [|discriminate].
    intros E; inversion E. now exists [ch], r'.
  - discriminate.
  - discriminate.
  - rewrite name_with_percent_fails; [discriminate|].
    rewrite !in_app_iff. simpl. tauto.
Qed.

(** A successful decoding keeps every occurrence of [%20]. *)
Lemma escape_run_keeps_percent20 (s : list N) (st : esc_state) (r : str) :
  escape_run st s = Some r -> substring percent20 s -> substring percent20 r.
Proof.
  revert st r; induction s as [|c s IH]; intros st r E H.
  - destruct H as [[|? ?] [b H]]; discriminate.
  - apply substring_head_or_tail in H. destruct H as [[b H]|H].
    + rewrite H in E. now apply escape_run_percent20_head in E.
    + simpl in E. destruct (step st c) as [[out st']|]; [|discriminate].
      destruct (escape_run st' s) as [r'|] eqn:E'; [|discriminate].
      inversion E; subst. apply substring_app_r. now apply (IH st').
Qed.

End Escapes.

(** *** The UTF-8 decoder *)

Lemma is_cont_high (b : N) : is_cont b = true -> (128 <= b)%N.
Proof.
  unfold is_cont. rewrite andb_true_iff, N.leb_le. tauto.
Qed.

Ltac skip_high H := destruct H as [H|H]; [exfalso; subst; lia|].

Ltac resume IH H :=
  right; apply IH; [cbn [length]; lia | exact H].

(** An ASCII byte is never swallowed by the decoder. *)
Lemma utf8_decode_replace_keeps_ascii (c : N) (s : list N) :
  (c < 128)%N -> In c s -> In c (utf8_decode_replace s).
Proof.
  intros Hc. induction s as [s IH] using list_length_ind.
  destruct s as [|b t]; [intros []|]. intros Hin.
  cbn [utf8_decode_replace].
  destruct (b <? 128)%N eqn:E1.
  { destruct Hin as [->|Hin]; [now left|]. resume IH Hin. }
  apply N.ltb_ge in E1. skip_high Hin.
  destruct (b <? 194)%N; [resume IH Hin|].
  destruct (b <? 224)%N.
  { destruct t as [|b2 t2]; [destruct Hin|].
    destruct (is_cont b2) eqn:C2; [|resume IH Hin].
    apply is_cont_high in C2. skip_high Hin. resume IH Hin. }
  destruct (b <? 240)%N.
  { destruct t as [|b2 t2]; [destruct Hin|].
    destruct (is_cont b2) eqn:C2; cbn [negb orb]; [|resume IH Hin].
    destruct (_ || _); [resume IH Hin|].
    apply is_cont_high in C2. pose proof Hin as Hin2. skip_high Hin2.
    destruct t2 as [|b3 t3]; [destruct Hin2|].
    destruct (is_cont b3) eqn:C3; [|resume IH Hin2].
    apply is_cont_high in C3. skip_high Hin2. resume IH Hin2. }
  destruct (b <? 245)%N; [|resume IH Hin].
  destruct t as [|b2 t2]; [destruct Hin|].
  destruct (is_cont b2) eqn:C2; cbn [negb orb]; [|resume IH Hin].
  destruct (_ || _); [resume IH Hin|].
  apply is_cont_high in C2. pose proof Hin as Hin2. skip_high Hin2.
  destruct t2 as [|b3 t3]; [destruct Hin2|].
  destruct (is_cont b3) eqn:C3; cbn [negb]; [|resume IH Hin2].
  apply is_cont_high in C3. pose proof Hin2 as Hin3. skip_high Hin3.
  destruct t3 as [|b4 t4]; [destruct Hin3|].
  destruct (is_cont b4) eqn:C4; [|resume IH Hin3].
  apply is_cont_high in C4. skip_high Hin3. resume IH Hin3.
Qed.

Lemma utf8_decode_replace_ascii (s : list N) :
  Forall (fun c => (c < 128)%N) s -> utf8_decode_replace s = s.
Proof.
  induction 1 as [|c s Hc _ IH]; [reflexivity|].
  cbn [utf8_decode_replace]. apply N.ltb_lt in Hc. now rewrite Hc, IH.
Qed.

(** *** Percent-decoding *)

Lemma unquote_to_bytes_percent20 (s : list N) :
  substring percent20 s -> In 32%N (unquote_to_bytes s).
Proof.
  induction s as [s IH] using list_length_ind. intros H.
  destruct s as [|c t]; [destruct H as [[|? ?] [? H]]; discriminate|].
  apply substring_head_or_tail in H. destruct H as [[b H]|H].
  - inversion H; subst. left. reflexivity.
  - cbn [unquote_to_bytes]. destruct (c =? 37)%N.
    + destruct t as [|h1 [|h2 t2]];
        try (right; apply IH; [cbn [length]; lia | exact H]).
      destruct (is_hex h1 && is_hex h2) eqn:E;
        [|right; apply IH; [cbn [length]; lia | exact H]].
      apply andb_true_iff in E. destruct E as [E1 E2].
      right. apply IH; [cbn [length]; lia|].
      apply substring_head_or_tail in H. destruct H as [[b H]|H].
      { inversion H; subst. discriminate E1. }
      apply substring_head_or_tail in H. destruct H as [[b H]|H].
      { inversion H; subst. discriminate E2. }
      exact H.
    + right. apply IH; [cbn [length]; lia | exact H].
Qed.

(** A character that is neither a percent sign nor a hexadecimal digit is
    never consumed. *)
Lemma unquote_to_bytes_keeps (c : N) (s : list N) :
  is_hex c = false -> c <> 37%N -> In c s -> In c (unquote_to_bytes s).
Proof.
  intros Hh Hp. induction s as [s IH] using list_length_ind. intros H.
  destruct s as [|x t]; [destruct H|].
  cbn [unquote_to_bytes]. destruct (x =? 37)%N eqn:Ex.
  - apply N.eqb_eq in Ex. subst x.
    destruct H as [H|H]; [congruence|].
    destruct t as [|h1 [|h2 t2]];
      try (right; apply IH; [cbn [length]; lia | exact H]).
    destruct (is_hex h1 && is_hex h2) eqn:E;
      [|right; apply IH; [cbn [length]; lia | exact H]].
    apply andb_true_iff in E. destruct E as [E1 E2].
    right. apply IH; [cbn [length]; lia|].
    destruct H as [H|[H|H]]; [congruence|congruence|exact H].
  - destruct H as [H|H]; [now left|].
    right. apply IH; [cbn [length]; lia | exact H].
Qed.

Lemma no_percent_escape_tail (c : N) (s : str) :
  no_percent_escape (c :: s) -> no_percent_escape s.
Proof.
  intros H a h1 h2 b E. apply (H (c :: a) h1 h2 b). now rewrite E.
Qed.

Lemma unquote_to_bytes_id (s : list N) :
  no_percent_escape s -> unquote_to_bytes s = s.
Proof.
  induction s as [|c t IH]; intros H; [reflexivity|].
  cbn [unquote_to_bytes].
  rewrite (IH (no_percent_escape_tail c t H)).
  destruct (c =? 37)%N eqn:Ec; [|reflexivity].
  apply N.eqb_eq in Ec. subst c.
  destruct t as [|h1 [|h2 t2]]; try reflexivity.
  now rewrite (H [] h1 h2 t2 eq_refl).
Qed.

Lemma unquote_run_percent20 (run : list N) :
  substring percent20 run -> In 32%N (unquote_run run).
Proof.
  intros H. apply utf8_decode_replace_keeps_ascii; [reflexivity|].
  now apply unquote_to_bytes_percent20.
Qed.

Lemma unquote_parts_percent20 (s run : str) :
  substring percent20 (run ++ s) -> In 32%N (unquote_parts run s).
Proof.
  revert run; induction s as [|c t IH]; intros run H; cbn [unquote_parts].
  - rewrite app_nil_r in H. now apply unquote_run_percent20.
  - destruct (c <? 128)%N eqn:E.
    + apply IH. now rewrite <- app_assoc.
    + apply N.ltb_ge in E. apply in_or_app.
      apply substring_split_at in H.
      * destruct H as [H|H]; [left; now apply unquote_run_percent20|].
        right. right. now apply IH.
      * unfold percent20. simpl. intros [H'|[H'|[H'|[]]]]; subst; lia.
Qed.

Lemma unquote_percent20 (s : str) :
  substring percent20 s -> In 32%N (unquote s).
Proof.
  intros H. unfold unquote.
  assert (P : existsb (N.eqb 37) s = true).
  { apply existsb_exists. exists 37%N. split; [|reflexivity].
    destruct H as [a [b ->]]. apply in_or_app. right. now left. }
  rewrite P. now apply unquote_parts_percent20.
Qed.

Lemma unquote_run_keeps (c : N) (run : list N) :
  (c < 128)%N -> is_hex c = false -> c <> 37%N ->
  In c run -> In c (unquote_run run).
Proof.
  intros Hc Hh Hp H. apply utf8_decode_replace_keeps_ascii; [exact Hc|].
  now apply unquote_to_bytes_keeps.
Qed.

Lemma unquote_parts_keeps (c : N) (s run : str) :
  (c < 128)%N -> is_hex c = false -> c <> 37%N ->
  In c (run ++ s) -> In c (unquote_parts run s).
Proof.
  intros Hc Hh Hp. revert run; induction s as [|x t IH]; intros run H;
    cbn [unquote_parts].
  - rewrite app_nil_r in H. now apply unquote_run_keeps.
  - destruct (x <? 128)%N eqn:E.
    + apply IH. now rewrite <- app_assoc.
    + apply N.ltb_ge in E. apply in_or_app. apply in_app_or in H.
      destruct H as [H|[H|H]].
      * left. now apply unquote_run_keeps.
      * subst. lia.
      * right. right. now apply IH.
Qed.

Lemma unquote_keeps (c : N) (s : str) :
  (c < 128)%N -> is_hex c = false -> c <> 37%N ->
  In c s -> In c (unquote s).
Proof.
  intros Hc Hh Hp H. unfold unquote. destruct (existsb _ s); [|exact H].
  now apply unquote_parts_keeps.
Qed.

Lemma unquote_parts_ascii (s run : str) :
  Forall (fun c => (c < 128)%N) s ->
  unquote_parts run s = unquote_run (run ++ s).
Proof.
  intros H; revert run; induction H as [|c s Hc _ IH]; intros run;
    cbn [unquote_parts].
  - now rewrite app_nil_r.
  - apply N.ltb_lt in Hc. rewrite Hc, IH. now rewrite <- app_assoc.
Qed.

Lemma unquote_plain (s : str) :
  Forall (fun c => (c < 128)%N) s -> no_percent_escape s -> unquote s = s.
Proof.
  intros Ha Hn. unfold unquote. destruct (existsb _ s); [|reflexivity].
  rewrite unquote_parts_ascii by assumption. cbn [app].
  unfold unquote_run. rewrite unquote_to_bytes_id by assumption.
  now apply utf8_decode_replace_ascii.
Qed.

(** *** [decode_url] *)

Lemma utf8_encode_around (p a b bytes : str) :
  Forall (fun c => (c < 128)%N) p ->
  utf8_encode (a ++ p ++ b) = Some bytes ->
  exists a' b', utf8_encode a = Some a' /\ utf8_encode b = Some b' /\
                bytes = a' ++ p ++ b'.
Proof.
  intros Hp E. rewrite !utf8_encode_app, (utf8_encode_ascii p Hp) in E.
  destruct (utf8_encode a) as [a'|]; [|discriminate].
  destruct (utf8_encode b) as [b'|]; [|discriminate].
  exists a', b'. inversion E. auto.
Qed.

Lemma decode_steps_inv (name_lookup : list N -> option N) (url r : str) :
  decode_steps name_lookup url = Some r ->
  exists bytes decoded,
    utf8_encode url = Some bytes /\
    unicode_escape_decode name_lookup bytes = Some decoded /\
    r = unquote decoded.
Proof.
  unfold decode_steps. intros E.
  destruct (utf8_encode url) as [bytes|]; [|discriminate].
  destruct (unicode_escape_decode name_lookup bytes) as [decoded|] eqn:D;
    [|discriminate].
  exists bytes, decoded. inversion E. auto.
Qed.

Lemma decode_url_success (name_lookup : list N -> option N) (url r : str) :
  decode_steps name_lookup url = Some r -> decode_url name_lookup url = r.
Proof. intros E. unfold decode_url. now rewrite E. Qed.

(** C6, as the code has it.  When no step of the normalization raises, a
    URL containing [%20] decodes to one containing a space (no Unicode
    character name contains a percent sign), and a URL in which the escape
    for the equals sign follows a part without backslash decodes to one
    containing the equals sign.  An ASCII URL with no backslash and no
    percent sign followed by two hexadecimal digits is returned unchanged.
    When a step raises, the URL is returned as it was. *)
Theorem decode_url_escapes (name_lookup : list N -> option N) :
  (forall url r,
      (forall name c, name_lookup name = Some c -> ~ In 37%N name) ->
      decode_steps name_lookup url = Some r ->
      substring percent20 url ->
      decode_url name_lookup url = r /\ In 32%N r) /\
  (forall a b r,
      ~ In 92%N a ->
      decode_steps name_lookup (a ++ equals_escape ++ b) = Some r ->
      decode_url name_lookup (a ++ equals_escape ++ b) = r /\ In 61%N r) /\
  (forall url,
      Forall (fun c => (c < 128)%N) url -> ~ In 92%N url ->
      no_percent_escape url ->
      decode_url name_lookup url = url) /\
  (forall url,
      decode_steps name_lookup url = None -> decode_url name_lookup url = url).
Proof.
  split; [|split; [|split]].
  - intros url r Hnames E [a [b ->]].
    split; [now apply decode_url_success|].
    apply decode_steps_inv in E.
    destruct E as [bytes [decoded [Eb [Ed ->]]]].
    apply utf8_encode_around in Eb;
      [|unfold percent20; repeat constructor].
    destruct Eb as [a' [b' [_ [_ ->]]]].
    apply unquote_percent20.
    apply (escape_run_keeps_percent20 name_lookup Hnames _ Plain _ Ed).
    now exists a', b'.
  - intros a b r Ha E.
    split; [now apply decode_url_success|].
    apply decode_steps_inv in E.
    destruct E as [bytes [decoded [Eb [Ed ->]]]].
    pose proof Eb as Eb'.
    apply utf8_encode_around in Eb'; [|vm_compute; repeat constructor].
    destruct Eb' as [a' [b' [Ea [_ ->]]]].
    assert (Ha' : ~ In 92%N a').
    { apply (utf8_encode_keeps_out 92 a a'); [reflexivity|exact Ea|exact Ha]. }
    unfold unicode_escape_decode in Ed.
    rewrite escape_run_plain_prefix in Ed by exact Ha'.
    cbn in Ed.
    destruct (escape_run name_lookup Plain b') as [r'|]; [|discriminate].
    inversion Ed; subst.
    apply unquote_keeps; [reflexivity|reflexivity|discriminate|].
    apply in_or_app. right. now left.
  - intros url Ha Hb Hn. unfold decode_url, decode_steps.
    rewrite (utf8_encode_ascii url Ha).
    unfold unicode_escape_decode.
    rewrite (escape_run_no_backslash name_lookup url Hb).
    now apply unquote_plain.
  - intros url E. unfold decode_url. now rewrite E.
Qed.

(** C6 as stated fails in two ways.  A URL with [%20] and a malformed
    escape (here a backslash at the end) comes back as it was, without a
    space; a URL with no escape at all but a character outside ASCII comes
    back changed (its UTF-8 bytes are read back one by one). *)
Lemma decode_url_not_as_stated :
  let u1 := lit "http://a.b/x%20y.jpg?q=\" in
  let u2 := lit "http://a.b/caf" ++ [233%N] ++ lit ".jpg" in
  (substring percent20 u1 /\ decode_url no_names u1 = u1 /\
   ~ In 32%N (decode_url no_names u1)) /\
  (~ In 92%N u2 /\ ~ In 37%N u2 /\
   decode_url no_names u2 =
     lit "http://a.b/caf" ++ [195%N; 169%N] ++ lit ".jpg" /\
   decode_url no_names u2 <> u2).
Proof.
  cbv zeta. split; [split; [|split]|split; [|split; [|split]]].
  - apply contains_spec. vm_compute. reflexivity.
  - vm_compute. reflexivity.
  - vm_compute. intuition discriminate.
  - vm_compute. intuition discriminate.
  - vm_compute. intuition discriminate.
  - vm_compute. reflexivity.
  - vm_compute. discriminate.
Qed.

Lemma decode_url_escapes_witness :
  (decode_url no_names (lit "http://a.b/x%20y.jpg") =
     lit "http://a.b/x y.jpg" /\
   In 32%N (lit "http://a.b/x y.jpg")) /\
  (decode_url no_names (lit "http://a.b/i.jpg?w" ++ equals_escape ++ lit "9") =
     lit "http://a.b/i.jpg?w=9" /\
   In 61%N (lit "http://a.b/i.jpg?w=9")) /\
  decode_url no_names (lit "http://a.b/c.jpg") = lit "http://a.b/c.jpg".
Proof.
  split; [|split].
  - apply (proj1 (decode_url_escapes no_names)).
    + intros name c H. discriminate H.
    + vm_compute. reflexivity.
    + apply contains_spec. vm_compute. reflexivity.
  - apply (proj1 (proj2 (decode_url_escapes no_names))
             (lit "http://a.b/i.jpg?w") (lit "9")).
    + vm_compute. intuition discriminate.
    + vm_compute. reflexivity.
  - apply (proj1 (proj2 (proj2 (decode_url_escapes no_names)))).
    + vm_compute. repeat constructor.
    + vm_compute. intuition discriminate.
    + intros a h1 h2 b E. exfalso.
      assert (C : In 37%N (lit "http://a.b/c.jpg")).
      { rewrite E. apply in_or_app. right. now left. }
      vm_compute in C. intuition discriminate.
Defined.

End CodecFacts.

(** ** The patterns of the extraction script *)

Module RegexFacts.
Import Regex.

(** The matcher only accepts what the pattern denotes. *)
Lemma rmatch_sound (r : regex) :
  forall (s : str) (k : str -> option str) (e : str),
    rmatch r s k = Some e ->
    exists u t, s = u ++ t /\ matches r u /\ k t = Some e.
Proof.
  induction r as [|c|p|a IHa b IHb|a IHa b IHb|a IHa|a IHa];
    intros s k e H; cbn [rmatch] in H.
  - exists [], s. repeat split; [constructor | exact H].
  - destruct s as [|x t]; [discriminate|].
    destruct (chr_matches c x) eqn:E; [|discriminate].
    exists [x], t. repeat split; [now constructor | exact H].
  - destruct s as [|x t]; [discriminate|].
    destruct (p x) eqn:E; [|discriminate].
    exists [x], t. repeat split; [now constructor | exact H].
  - apply IHa in H. destruct H as [u [t [-> [Hu H]]]].
    apply IHb in H. destruct H as [v [t' [-> [Hv H]]]].
    exists (u ++ v), t'. rewrite app_assoc.
    repeat split; [now constructor | exact H].
  - destruct (rmatch a s k) as [e'|] eqn:E.
    + inversion H; subst. apply IHa in E.
      destruct E as [u [t [-> [Hu E]]]].
      exists u, t. repeat split; [now apply MAltL | exact E].
    + apply IHb in H. destruct H as [u [t [-> [Hu H]]]].
      exists u, t. repeat split; [now apply MAltR | exact H].
  - destruct (rmatch a s k) as [e'|] eqn:E.
    + inversion H; subst. apply IHa in E.
      destruct E as [u [t [-> [Hu E]]]].
      exists u, t. repeat split; [now apply MOptSome | exact E].
    + exists [], s. repeat split; [apply MOptNone | exact H].
  - revert H. generalize (length s) as n. intros n; revert s.
    induction n as [|n IHn]; intros s H.
    + exists [], s. repeat split; [apply MStarNil | exact H].
    + match type of H with
      | match ?m with _ => _ end = _ => destruct m as [e'|] eqn:E
      end.
      * inversion H; subst. apply IHa in E.
        destruct E as [u [t [-> [Hu E]]]].
        destruct (length t <? length (u ++ t))%nat; [|discriminate].
        apply IHn in E. destruct E as [v [t' [-> [Hv E]]]].
        exists (u ++ v), t'. rewrite app_assoc.
        repeat split; [now apply MStarCons | exact E].
      * exists [], s. repeat split; [apply MStarNil | exact H].
Qed.

Lemma exec_at_sound (r : regex) (s m : str) :
  exec_at r s = Some m -> matches r m /\ exists t, s = m ++ t.
Proof.
  unfold exec_at. destruct (rmatch r s _) as [rest|] eqn:E; [|discriminate].
  intros H; inversion H; subst; clear H.
  apply rmatch_sound in E. destruct E as [u [t [-> [Hu E]]]].
  inversion E; subst.
  replace (length (u ++ rest) - length rest)%nat with (length u + 0)%nat
    by (rewrite length_app; lia).
  rewrite firstn_app_2. cbn [firstn]. rewrite app_nil_r.
  split; [exact Hu | now exists rest].
Qed.

Lemma match_all_sound (r : regex) (s : str) (skip : nat) (m : str) :
  In m (match_all r s skip) -> matches r m.
Proof.
  revert skip; induction s as [|c s IH]; intros skip; cbn [match_all].
  - destruct skip; [|intros []].
    destruct (exec_at r []) eqn:E; [|intros []].
    intros [<-|[]]. now apply exec_at_sound in E.
  - destruct skip as [|j]; [|apply IH].
    destruct (exec_at r (c :: s)) eqn:E; [|apply IH].
    intros [<-|H]; [now apply exec_at_sound in E | now apply IH in H].
Qed.

Lemma match_first_sound (r : regex) (s m : str) :
  match_first r s = Some m -> matches r m.
Proof.
  induction s as [|c s IH]; cbn [match_first].
  - destruct (exec_at r []) eqn:E; [|discriminate].
    intros H; inversion H; subst. now apply exec_at_sound in E.
  - destruct (exec_at r (c :: s)) eqn:E; [|exact IH].
    intros H; inversion H; subst. now apply exec_at_sound in E.
Qed.

(** *** What the three patterns denote *)

Import PatternFilter.

Ltac inv H := inversion H; subst; clear H.

Lemma chr_matches_lower (c x : N) :
  not_upper c -> chr_matches c x = true -> ascii_lower x = c.
Proof.
  unfold not_upper, chr_matches, ascii_upper, ascii_lower.
  intros Hc H. apply andb_true_iff in H. destruct H as [_ H].
  apply N.eqb_eq in H. revert H.
  destruct (N.leb_spec 97 x), (N.leb_spec x 122), (N.leb_spec 97 c),
    (N.leb_spec c 122), (N.leb_spec 65 x), (N.leb_spec x 90);
    cbn [andb]; lia.
Qed.

Lemma ascii_lower_exact (c x : N) :
  not_lower c -> ascii_lower x = c -> x = c.
Proof.
  unfold not_lower, ascii_lower. intros Hc.
  destruct ((65 <=? x)%N && (x <=? 90)%N) eqn:E; [|auto].
  apply andb_true_iff in E. destruct E as [E1 E2].
  apply N.leb_le in E1, E2. lia.
Qed.

(** A literal word matches its own letters in either case. *)
Lemma letters_lower (l : list N) (u : str) :
  Forall not_upper l ->
  matches (fold_right (fun c r => Seq (Chr c) r) Eps l) u ->
  map ascii_lower u = l.
Proof.
  intros Hl; revert u; induction Hl as [|c l Hc _ IH]; intros u H;
    cbn [fold_right] in H.
  - now inv H.
  - inv H. match goal with H : matches (Chr _) _ |- _ => inv H end.
    cbn [app map]. f_equal; [now apply chr_matches_lower | now apply IH].
Qed.

Lemma map_lower_exact (l u : list N) :
  Forall not_lower l -> map ascii_lower u = l -> u = l.
Proof.
  intros Hl; revert u; induction Hl as [|c l Hc _ IH]; intros [|x u] H;
    try discriminate; [reflexivity|].
  inv H. f_equal; [now apply ascii_lower_exact | now apply IH].
Qed.

Ltac letters := vm_compute; repeat constructor; lia.

Lemma word_lower (w : string) (u : str) :
  Forall not_upper (lit w) -> matches (word w) u -> map ascii_lower u = lit w.
Proof. apply letters_lower. Qed.

Lemma scheme_shape (u : str) :
  matches scheme u ->
  exists sch, u = sch ++ lit "://" /\
              In (map ascii_lower sch) [lit "http"; lit "https"].
Proof.
  unfold scheme. intros H. inv H.
  match goal with H : matches (Seq _ _) _ |- _ => inv H end.
  match goal with H : matches (word "http") _ |- _ =>
    apply word_lower in H; [|unfold not_upper; letters] end.
  match goal with H : matches (word "://") _ |- _ =>
    apply word_lower in H; [|unfold not_upper; letters];
    apply map_lower_exact in H; [|unfold not_lower; letters]; subst end.
  match goal with H : matches (Opt _) _ |- _ => inv H end.
  - match goal with H : matches (Chr _) _ |- _ => inv H end.
    match goal with H : chr_matches _ _ = true |- _ =>
      apply chr_matches_lower in H; [|unfold not_upper; lia] end.
    exists (u0 ++ [x]). split; [now rewrite <- app_assoc|].
    right; left. rewrite map_app. cbn [map]. 
    match goal with H : map ascii_lower _ = _ |- _ => rewrite H end.
    match goal with H : ascii_lower _ = _ |- _ => rewrite H end.
    reflexivity.
  - exists u0. split; [reflexivity|]. left.
    match goal with H : map ascii_lower _ = _ |- _ => now rewrite H end.
Qed.

Lemma extension_shape (u : str) :
  matches extension u ->
  In (map ascii_lower u)
     [lit "jpg"; lit "jpeg"; lit "png"; lit "webp"; lit "gif"].
Proof.
  unfold extension. intros H.
  repeat match goal with
         | H : matches (Alt _ _) _ |- _ => inv H
         end;
    match goal with H : matches (word _) _ |- _ =>
      apply word_lower in H; [rewrite H|unfold not_upper; letters] end;
    cbn [In]; tauto.
Qed.

Lemma star_class (C : N -> bool) (r : regex) (u : str) :
  matches r u -> r = Star (Cls C) -> Forall (fun c => C c = true) u.
Proof.
  induction 1; intros E; try discriminate.
  - constructor.
  - inv E. match goal with H : matches (Cls _) _ |- _ => inv H end.
    cbn [app]. constructor; auto.
Qed.

Lemma plus_class (C : N -> bool) (u : str) :
  matches (Plus (Cls C)) u -> u <> [] /\ Forall (fun c => C c = true) u.
Proof.
  unfold Plus. intros H. inv H.
  match goal with H : matches (Cls _) _ |- _ => inv H end.
  match goal with H : matches (Star _) _ |- _ =>
    apply (star_class C) in H; [|reflexivity] end.
  split; [discriminate | now constructor].
Qed.

Lemma query_shape (C : N -> bool) (u : str) :
  matches (Opt (Seq (Cls query_start) (Star (Cls C)))) u ->
  u = [] \/
  exists q0 q, u = q0 :: q /\ (q0 = 63%N \/ q0 = 38%N) /\
               Forall (fun c => C c = true) q.
Proof.
  intros H. inv H; [|now left]. right.
  match goal with H : matches (Seq _ _) _ |- _ => inv H end.
  match goal with H : matches (Cls _) _ |- _ => inv H end.
  match goal with H : matches (Star _) _ |- _ =>
    apply (star_class C) in H; [|reflexivity] end.
  exists x, v. split; [reflexivity|]. split; [|assumption].
  match goal with H : query_start _ = true |- _ =>
    unfold query_start in H; apply orb_true_iff in H;
    rewrite !N.eqb_eq in H; exact H end.
Qed.

Lemma image_url_with_query_shape (C : N -> bool) (u : str) :
  matches (image_url_with_query C) u -> image_url_shape C u.
Proof.
  unfold image_url_with_query. intros H.
  inv H. match goal with H : matches scheme _ |- _ =>
    apply scheme_shape in H; destruct H as [sch [-> Hs]] end.
  match goal with H : matches (Seq (Plus _) _) _ |- _ => inv H end.
  match goal with H : matches (Plus _) _ |- _ =>
    apply plus_class in H; destruct H as [Hne Hb] end.
  match goal with H : matches (Seq (Chr _) _) _ |- _ => inv H end.
  match goal with H : matches (Chr _) _ |- _ => inv H end.
  match goal with H : chr_matches _ _ = true |- _ =>
    apply chr_matches_lower in H; [|unfold not_upper; lia];
    apply ascii_lower_exact in H; [|unfold not_lower; lia]; subst end.
  match goal with H : matches (Seq extension _) _ |- _ => inv H end.
  match goal with H : matches extension _ |- _ =>
    apply extension_shape in H end.
  match goal with H : matches (Opt _) _ |- _ => apply query_shape in H end.
  match goal with
  | Hb : Forall _ ?body, He : In (map ascii_lower ?ext) _,
    Hq : ?query = [] \/ _ |- _ =>
      exists sch, body, ext, query
  end.
  rewrite <- !app_assoc. repeat split; assumption.
Qed.

Lemma re_meta_shape (u : str) :
  matches re_meta u -> image_url_shape url_char_meta u.
Proof.
  unfold re_meta. intros H.
  inv H. match goal with H : matches scheme _ |- _ =>
    apply scheme_shape in H; destruct H as [sch [-> Hs]] end.
  match goal with H : matches (Seq (Plus _) _) _ |- _ => inv H end.
  match goal with H : matches (Plus _) _ |- _ =>
    apply plus_class in H; destruct H as [Hne Hb] end.
  match goal with H : matches (Seq (Chr _) _) _ |- _ => inv H end.
  match goal with H : matches (Chr _) _ |- _ => inv H end.
  match goal with H : chr_matches _ _ = true |- _ =>
    apply chr_matches_lower in H; [|unfold not_upper; lia];
    apply ascii_lower_exact in H; [|unfold not_lower; lia]; subst end.
  match goal with H : matches extension _ |- _ =>
    apply extension_shape in H end.
  match goal with
  | Hb : Forall _ ?body, He : In (map ascii_lower ?ext) _ |- _ =>
      exists sch, body, ext, []
  end.
  rewrite <- !app_assoc, app_nil_r. repeat split; try assumption. now left.
Qed.

Lemma image_url_shape_weaken (C C' : N -> bool) (u : str) :
  (forall c, C c = true -> C' c = true) ->
  image_url_shape C u -> image_url_shape C' u.
Proof.
  intros HC [sch [body [ext [query [E [Hs [Hne [Hb [He Hq]]]]]]]]].
  exists sch, body, ext, query. repeat split; try assumption.
  - revert Hb. apply Forall_impl. exact HC.
  - destruct Hq as [->|[q0 [q [-> [H0 Hq]]]]]; [now left|right].
    exists q0, q. repeat split; try assumption.
    revert Hq. apply Forall_impl. exact HC.
Qed.

Lemma url_char_script_meta (c : N) :
  url_char_script c = true -> url_char_meta c = true.
Proof.
  unfold url_char_script, url_char_meta.
  rewrite !negb_true_iff, !orb_false_iff. tauto.
Qed.

Lemma url_char_document_meta (c : N) :
  url_char_document c = true -> url_char_meta c = true.
Proof.
  unfold url_char_document, url_char_meta.
  rewrite !negb_true_iff, !orb_false_iff. tauto.
Qed.

End RegexFacts.

(** ** Text-scan extractor *)

Module TextScanFacts.
Import PatternFilter Regex TextScan.

(** *** The sort *)

Lemma sort_insert_perm (x : str) (l : list str) :
  Permutation (x :: l) (sort_insert x l).
Proof.
  induction l as [|y l IH]; cbn [sort_insert]; [reflexivity|].
  destruct (compare_length x y <=? 0)%Z; [reflexivity|].
  rewrite perm_swap. now apply perm_skip.
Qed.

Lemma js_sort_perm (l : list str) : Permutation l (js_sort l).
Proof.
  induction l as [|x l IH]; [reflexivity|]. cbn [js_sort fold_right].
  rewrite <- sort_insert_perm. now apply perm_skip.
Qed.

Lemma sort_insert_sorted (x : str) (l : list str) :
  StronglySorted longer_first l -> StronglySorted longer_first (sort_insert x l).
Proof.
  induction 1 as [|y l Hs IH Hf]; cbn [sort_insert].
  - repeat constructor.
  - unfold compare_length.
    destruct (Z.of_nat (length y) - Z.of_nat (length x) <=? 0)%Z eqn:E.
    + apply Z.leb_le in E. constructor; [now constructor|].
      constructor; [unfold longer_first; lia|].
      revert Hf. apply Forall_impl. unfold longer_first. intros; lia.
    + apply Z.leb_gt in E. constructor; [exact IH|].
      rewrite <- sort_insert_perm. constructor; [|exact Hf].
      unfold longer_first. lia.
Qed.

Lemma js_sort_sorted (l : list str) : StronglySorted longer_first (js_sort l).
Proof.
  induction l as [|x l IH]; [constructor|].
  cbn [js_sort fold_right]. now apply sort_insert_sorted.
Qed.

(** Entries of one length keep their relative order. *)
Lemma sort_insert_stable (n : nat) (x : str) (l : list str) :
  filter (has_length n) (sort_insert x l) = filter (has_length n) (x :: l).
Proof.
  induction l as [|y l IH]; cbn [sort_insert]; [reflexivity|].
  unfold compare_length.
  destruct (Z.of_nat (length y) - Z.of_nat (length x) <=? 0)%Z eqn:E;
    [reflexivity|].
  apply Z.leb_gt in E. cbn [filter] in *. rewrite IH.
  unfold has_length.
  destruct (length x =? n)%nat eqn:Ex, (length y =? n)%nat eqn:Ey;
    try reflexivity.
  apply Nat.eqb_eq in Ex, Ey. lia.
Qed.

Lemma js_sort_stable (n : nat) (l : list str) :
  filter (has_length n) (js_sort l) = filter (has_length n) l.
Proof.
  induction l as [|x l IH]; [reflexivity|].
  cbn [js_sort fold_right]. rewrite sort_insert_stable.
  cbn [filter]. fold (js_sort l). now rewrite IH.
Qed.

(** *** What each method pushes *)

Lemma scan_script_spec (script : script_elem) (u : str) :
  In u (scan_script script) ->
  matches re_script u /\ script_keeps u = true.
Proof.
  unfold scan_script. destruct (_ && _); [|intros []].
  rewrite filter_In. intros [H K]. split; [|exact K].
  now apply RegexFacts.match_all_sound in H.
Qed.

Lemma scan_meta_spec (meta : option str) (u : str) :
  In u (scan_meta meta) -> matches re_meta u /\ meta_keeps u = true.
Proof.
  unfold scan_meta. destruct (_ && _); [|intros []].
  destruct (match_first re_meta _) as [m|] eqn:E; [|intros []].
  destruct (meta_keeps m) eqn:K; [|intros []].
  intros [<-|[]]. split; [|exact K].
  now apply RegexFacts.match_first_sound in E.
Qed.

Lemma scan_document_spec (allText u : str) :
  In u (scan_document allText) ->
  matches re_document u /\ document_keeps u = true.
Proof.
  unfold scan_document. rewrite filter_In. intros [H K]. split; [|exact K].
  now apply RegexFacts.match_all_sound in H.
Qed.

Lemma script_keeps_tbn (u : str) :
  script_keeps u = true -> ~ substring tbn u.
Proof.
  unfold script_keeps. rewrite !andb_true_iff, !negb_true_iff.
  intros H. apply contains_false_iff. tauto.
Qed.

Lemma meta_keeps_tbn (u : str) : meta_keeps u = true -> ~ substring tbn u.
Proof.
  unfold meta_keeps. rewrite negb_true_iff. apply contains_false_iff.
Qed.

Lemma document_keeps_tbn (u : str) :
  document_keeps u = true -> ~ substring tbn u.
Proof.
  unfold document_keeps. rewrite !andb_true_iff, !negb_true_iff.
  intros H. apply contains_false_iff. tauto.
Qed.

Lemma fullResUrls_spec (d : document) (u : str) :
  In u (fullResUrls d) ->
  image_url_shape url_char_meta u /\ ~ substring tbn u.
Proof.
  unfold fullResUrls. rewrite !in_app_iff, !in_flat_map.
  intros [[s [_ H]]|[[m [_ H]]|H]].
  - apply scan_script_spec in H. destruct H as [H K]. split.
    + apply RegexFacts.image_url_shape_weaken with (C := url_char_script);
        [exact RegexFacts.url_char_script_meta|].
      now apply RegexFacts.image_url_with_query_shape.
    + now apply script_keeps_tbn.
  - apply scan_meta_spec in H. destruct H as [H K]. split.
    + now apply RegexFacts.re_meta_shape.
    + now apply meta_keeps_tbn.
  - apply scan_document_spec in H. destruct H as [H K]. split.
    + apply RegexFacts.image_url_shape_weaken with (C := url_char_document);
        [exact RegexFacts.url_char_document_meta|].
      now apply RegexFacts.image_url_with_query_shape.
    + now apply document_keeps_tbn.
Qed.

Lemma extract_In (d : document) (u : str) :
  In u (extract_urls_from_page_data d) <-> In u (fullResUrls d).
Proof.
  unfold extract_urls_from_page_data. split; intros H.
  - apply ordered_keys_In.
    exact (Permutation_in _ (Permutation_sym (js_sort_perm _)) H).
  - apply (Permutation_in _ (js_sort_perm _)). now apply ordered_keys_In.
Qed.

(** C4, as the code has it.  Every URL the script returns has the shape of
    the image-extension pattern and does not contain [encrypted-tbn], the
    one pattern all three methods reject; the matches of the script tags
    contain none of the nine default patterns, those of the whole document
    none of [encrypted-tbn], [logo], [favicon] and have more than 50
    characters.  The returned sequence is duplicate-free, sorted by length
    in descending order, and entries of equal length keep the order of
    their first occurrence among the matches. *)
Theorem extract_urls_from_page_data_spec (d : document) :
  let out := extract_urls_from_page_data d in
  (forall u, In u out ->
     image_url_shape url_char_meta u /\ ~ substring tbn u) /\
  (forall script u, In script (scripts d) -> In u (scan_script script) ->
     In u out /\
     forall pattern, In pattern default_blocklist -> ~ substring pattern u) /\
  (forall u, In u (scan_document (documentHTML d)) ->
     In u out /\ (50 < length u)%nat /\
     ~ substring (lit "logo") u /\ ~ substring (lit "favicon") u) /\
  NoDup out /\
  StronglySorted longer_first out /\
  (forall n, filter (has_length n) out =
             filter (has_length n) (ordered_keys (fullResUrls d))) /\
  first_occurrence_order (fullResUrls d) (ordered_keys (fullResUrls d)).
Proof.
  intros out. split; [|split; [|split; [|split; [|split; [|split]]]]].
  - intros u H. apply (fullResUrls_spec d). now apply extract_In.
  - intros script u Hs H. split.
    + apply extract_In. unfold fullResUrls. apply in_or_app. left.
      apply in_flat_map. now exists script.
    + intros pattern Hp Hsub. apply scan_script_spec in H.
      destruct H as [_ K].
      rewrite PatternFilterFacts.script_keeps_blocklist in K.
      apply negb_true_iff in K.
      assert (T : existsb (fun q => contains q u) default_blocklist = true).
      { apply PatternFilterFacts.existsb_contains. now exists pattern. }
      congruence.
  - intros u H. split.
    { apply extract_In. unfold fullResUrls. rewrite !in_app_iff.
      now right; right. }
    apply scan_document_spec in H. destruct H as [_ K].
    unfold document_keeps in K.
    rewrite !andb_true_iff, !negb_true_iff in K.
    destruct K as [[[_ K1] K2] K3]. split; [now apply Nat.ltb_lt|].
    split; now apply contains_false_iff.
  - unfold out, extract_urls_from_page_data.
    apply (Permutation_NoDup (js_sort_perm _)), ordered_keys_NoDup.
  - apply js_sort_sorted.
  - intros n. apply js_sort_stable.
  - apply ordered_keys_order.
Qed.

(** C4 as stated fails: the meta-tag scan only rejects [encrypted-tbn], so
    a URL with another blocklisted pattern is returned. *)
Lemma extract_returns_blocked_url :
  extract_urls_from_page_data logo_meta_document = [lit "http://a.b/logo.jpg"] /\
  In (lit "logo") default_blocklist /\
  substring (lit "logo") (lit "http://a.b/logo.jpg").
Proof.
  split; [vm_compute; reflexivity|]. split.
  - right; left. reflexivity.
  - apply contains_spec. vm_compute. reflexivity.
Qed.

Lemma extract_urls_from_page_data_spec_witness :
  image_url_shape url_char_meta (lit "https://cdn.example.org/photos/cat.jpg") /\
  ~ substring tbn (lit "https://cdn.example.org/photos/cat.jpg").
Proof.
  apply (proj1 (extract_urls_from_page_data_spec one_url_document)).
  vm_compute. left. reflexivity.
Defined.

End TextScanFacts.

(** ** The final list *)

Module PipelineFacts.
Import Fallback Scraper TextScan.

(** *** From the script's strings to Python's *)

Lemma surrogate_pair_high (hi lo : N) :
  (128 <= 65536 + (hi - 55296) * 1024 + (lo - 56320))%N.
Proof.
  generalize ((hi - 55296) * 1024)%N, (lo - 56320)%N. intros; lia.
Qed.

Lemma js_to_py_cons2 (hi lo : N) (t : str) :
  js_to_py (hi :: lo :: t) =
  if is_high_surrogate hi && is_low_surrogate lo
  then (65536 + (hi - 55296) * 1024 + (lo - 56320))%N :: js_to_py t
  else hi :: js_to_py (lo :: t).
Proof. reflexivity. Qed.

Ltac uncons E :=
  let E1 := fresh "Eh" in
  pose proof (f_equal (hd 0%N) E) as E1;
  apply (f_equal (@tl N)) in E; cbn [hd tl app] in E1, E.

Lemma js_to_py_prefix (p : str) :
  Forall (fun c => (c < 128)%N) p ->
  forall s b, js_to_py s = p ++ b -> exists b', s = p ++ b'.
Proof.
  induction 1 as [|c p Hc _ IH]; intros s b E.
  - now exists s.
  - destruct s as [|hi [|lo t']].
    + discriminate.
    + cbn [js_to_py] in E. uncons E. subst hi.
      destruct p; [|discriminate]. now exists [].
    + rewrite js_to_py_cons2 in E.
      destruct (is_high_surrogate hi && is_low_surrogate lo); uncons E.
      * exfalso. pose proof (surrogate_pair_high hi lo) as Hh.
        rewrite Eh in Hh. lia.
      * subst hi. apply IH in E. destruct E as [b' ->]. now exists b'.
Qed.

(** An ASCII pattern that occurs after the conversion occurred before. *)
Lemma js_to_py_substring (p s : str) :
  Forall (fun c => (c < 128)%N) p ->
  substring p (js_to_py s) -> substring p s.
Proof.
  intros Hp. induction s as [s IH] using CodecFacts.list_length_ind.
  intros [a [b E]]. destruct a as [|a0 a].
  - apply (js_to_py_prefix p Hp) in E. destruct E as [b' ->].
    now exists [], b'.
  - destruct s as [|hi [|lo t']].
    + discriminate.
    + cbn [js_to_py] in E. uncons E. destruct a; [|discriminate].
      destruct p; [|discriminate]. now exists [], [hi].
    + rewrite js_to_py_cons2 in E.
      destruct (is_high_surrogate hi && is_low_surrogate lo); uncons E.
      * apply substring_cons, substring_cons.
        apply IH; [cbn [length]; lia|]. now exists a, b.
      * apply substring_cons.
        apply IH; [cbn [length]; lia|]. now exists a, b.
Qed.

Lemma tbn_ascii : Forall (fun c => (c < 128)%N) tbn.
Proof. vm_compute. repeat constructor. Qed.

(** *** What the click fallback collects *)

Lemma accepts_spec (img_src : option str) (u : str) :
  accepts img_src = Some u ->
  ~ substring tbn u /\ substring (lit "http") u /\ (50 < length u)%nat.
Proof.
  unfold accepts. destruct img_src as [v|]; [|discriminate].
  destruct (_ && _) eqn:E; [|discriminate]. intros H; inversion H; subst.
  rewrite !andb_true_iff, negb_true_iff in E.
  destruct E as [[[_ E1] E2] E3]. split; [|split].
  - now apply contains_false_iff.
  - now apply contains_spec.
  - now apply Nat.ltb_lt.
Qed.

Lemma try_selectors_spec (c : container) (sels : list selector) (u : str) :
  snd (try_selectors c sels) = Some u -> ~ substring tbn u.
Proof.
  induction sels as [|s sels IH]; cbn [try_selectors]; [discriminate|].
  destruct (found c s) as [|src data_src]; [exact IH|].
  destruct (src_or_data_src src data_src) as [img_src|]; [|exact IH].
  destruct (accepts img_src) as [v|] eqn:E; [|exact IH].
  cbn [snd]. intros H; inversion H; subst. now apply accepts_spec in E.
Qed.

Lemma click_loop_spec (n : Z) (cs : list container) (acc : list str) :
  Forall (fun u => ~ substring tbn u) acc ->
  Forall (fun u => ~ substring tbn u) (snd (click_loop n cs acc)).
Proof.
  revert acc; induction cs as [|c cs IH]; intros acc Hacc;
    cbn [click_loop]; [exact Hacc|].
  destruct (Z.of_nat (length acc) >=? n)%Z; [exact Hacc|].
  destruct (click_ok c).
  - destruct (try_selectors c full_img_selectors) as [ev got] eqn:E.
    assert (Hacc' : Forall (fun u => ~ substring tbn u)
                      match got with Some u => acc ++ [u] | None => acc end).
    { destruct got as [u|]; [|exact Hacc].
      apply Forall_app. split; [exact Hacc|]. constructor; [|constructor].
      apply (try_selectors_spec c full_img_selectors). now rewrite E. }
    specialize (IH _ Hacc').
    destruct (click_loop n cs _) as [ev' out]. exact IH.
  - specialize (IH _ Hacc).
    destruct (click_loop n cs acc) as [ev' out]. exact IH.
Qed.

Lemma extract_urls_by_clicking_spec (s n : Z) (cs : list container) :
  Forall (fun u => ~ substring tbn u) (snd (extract_urls_by_clicking s n cs)).
Proof.
  unfold extract_urls_by_clicking.
  pose proof (click_loop_spec n
                (py_take (Z.min (Z.of_nat (length cs)) (n * 2)) cs) []
                (Forall_nil _)) as H.
  destruct (click_loop n _ []) as [ev out]. exact H.
Qed.

Lemma py_take_In {A} (n : Z) (l : list A) (x : A) :
  In x (py_take n l) -> In x l.
Proof.
  unfold py_take. destruct (n <? 0)%Z; intros H;
    match type of H with
    | In _ (firstn ?k _) => rewrite <- (firstn_skipn k l)
    end; apply in_or_app; now left.
Qed.

Lemma text_scan_py_spec (d : document) (u : str) :
  In u (map js_to_py (extract_urls_from_page_data d)) -> ~ substring tbn u.
Proof.
  rewrite in_map_iff. intros [v [<- H]] Hs.
  apply (js_to_py_substring tbn v tbn_ascii) in Hs.
  apply TextScanFacts.extract_In, TextScanFacts.fullResUrls_spec in H.
  now destruct H.
Qed.

Lemma standalone_try_selectors_spec (stdout_encodes : N -> bool)
    (c : container) (sels : list selector) (acc : list str) :
  Forall (fun u => ~ substring tbn u) acc ->
  Forall (fun u => ~ substring tbn u)
    (snd (StandaloneFallback.try_selectors stdout_encodes c sels acc)).
Proof.
  revert acc; induction sels as [|s sels IH]; intros acc Hacc;
    cbn [StandaloneFallback.try_selectors]; [exact Hacc|].
  destruct (found c s) as [|src data_src]; [now apply IH|].
  destruct (src_or_data_src src data_src) as [img_src|]; [|now apply IH].
  destruct (accepts img_src) as [u|] eqn:E; [|now apply IH].
  apply accepts_spec in E. destruct E as [E _].
  assert (Hacc' : Forall (fun u => ~ substring tbn u) (acc ++ [u])).
  { apply Forall_app. split; [exact Hacc|]. constructor; [exact E|constructor]. }
  destruct (Stdout.print_ok stdout_encodes (firstn 80 u)).
  - exact Hacc'.
  - cbn [snd]. now apply IH.
Qed.

Lemma standalone_click_loop_spec (stdout_encodes : N -> bool) (n : Z)
    (cs : list container) (acc : list str) :
  Forall (fun u => ~ substring tbn u) acc ->
  Forall (fun u => ~ substring tbn u)
    (snd (StandaloneFallback.click_loop stdout_encodes n cs acc)).
Proof.
  revert acc; induction cs as [|c cs IH]; intros acc Hacc;
    cbn [StandaloneFallback.click_loop]; [exact Hacc|].
  destruct (Z.of_nat (length acc) >=? n)%Z; [exact Hacc|].
  destruct (click_ok c).
  - pose proof (standalone_try_selectors_spec stdout_encodes c
                  full_img_selectors acc Hacc) as H.
    destruct (StandaloneFallback.try_selectors stdout_encodes c
                full_img_selectors acc) as [ev acc'].
    cbn [snd] in H. specialize (IH acc' H).
    destruct (StandaloneFallback.click_loop stdout_encodes n cs acc')
      as [ev' out]. exact IH.
  - specialize (IH acc Hacc).
    destruct (StandaloneFallback.click_loop stdout_encodes n cs acc)
      as [ev' out]. exact IH.
Qed.

Lemma standalone_extract_urls_by_clicking_spec (stdout_encodes : N -> bool)
    (s n : Z) (cs : list container) :
  Forall (fun u => ~ substring tbn u)
    (snd (StandaloneFallback.extract_urls_by_clicking stdout_encodes s n cs)).
Proof.
  unfold StandaloneFallback.extract_urls_by_clicking.
  pose proof (standalone_click_loop_spec stdout_encodes n
                (py_take (Z.min (Z.of_nat (length cs)) (n * 2)) cs) []
                (Forall_nil _)) as H.
  destruct (StandaloneFallback.click_loop stdout_encodes n _ [])
    as [ev out]. exact H.
Qed.

(** An entry of the list that is cut and cleaned comes from the text scan
    or, when the fallback ran, from the clicks. *)
Lemma selected_from (name_lookup : list N -> option N) (n : Z)
    (scan clicked : list str) (v : str) :
  (forall u, In u scan -> ~ substring tbn u) ->
  (forall u, In u clicked -> ~ substring tbn u) ->
  In v (map (Codec.decode_url name_lookup)
          (py_take n (if (Z.of_nat (length scan) <? n)%Z
                      then ordered_keys (scan ++ clicked) else scan))) ->
  exists u, v = Codec.decode_url name_lookup u /\ ~ substring tbn u /\
            (In u scan \/ (Z.of_nat (length scan) < n)%Z /\ In u clicked).
Proof.
  intros Hs Hc. rewrite in_map_iff. intros [u [<- H]].
  apply py_take_In in H. exists u. split; [reflexivity|].
  destruct (Z.of_nat (length scan) <? n)%Z eqn:E.
  - apply Z.ltb_lt in E. apply ordered_keys_In, in_app_or in H.
    destruct H as [H|H].
    + split; [now apply Hs | now left].
    + split; [now apply Hc | right; now split].
  - split; [now apply Hs | now left].
Qed.

(** C2, as the code has it: every URL of the final list, in both versions
    of the search function, is the normalization (or, when that fails, the
    unchanged copy) of a URL that an extractor returned: an entry of the
    text-scan list or, when the fallback ran, a source collected by the
    clicks.  Such a URL passed its extractor's filter and so does not
    contain [encrypted-tbn], the one pattern every extraction path
    rejects. *)
Theorem final_urls_origin (name_lookup : list N -> option N)
    (stdout_encodes : N -> bool) (p : page) (n scroll : Z) (v : str) :
  let scan := map js_to_py (extract_urls_from_page_data (doc p)) in
  (In v (snd (find_image_urls_block name_lookup stdout_encodes p n)) ->
   exists u, v = Codec.decode_url name_lookup u /\ ~ substring tbn u /\
     (In u scan \/
      (Z.of_nat (length scan) < n)%Z /\
      In u (snd (StandaloneFallback.extract_urls_by_clicking stdout_encodes
                   (Z.max 3 (n / 10 + 1)) n (image_containers p))))) /\
  (In v (snd (GoogleImageScraper_find_image_urls_block name_lookup
                {| number_of_images := n; scroll_attempts := scroll |} p)) ->
   exists u, v = Codec.decode_url name_lookup u /\ ~ substring tbn u /\
     (In u scan \/
      (Z.of_nat (length scan) < n)%Z /\
      In u (snd (extract_urls_by_clicking scroll n (image_containers p))))).
Proof.
  intros scan.
  assert (Hscan : forall u, In u scan -> ~ substring tbn u).
  { intros u. apply text_scan_py_spec. }
  split; intros H.
  - apply (selected_from name_lookup n scan _ v Hscan).
    + intros u Hu.
      pose proof (standalone_extract_urls_by_clicking_spec stdout_encodes
                    (Z.max 3 (n / 10 + 1)) n (image_containers p)) as Hc.
      rewrite Forall_forall in Hc. now apply Hc.
    + revert H. unfold find_image_urls_block. fold scan.
      destruct (Z.of_nat (length scan) <? n)%Z.
      * destruct (StandaloneFallback.extract_urls_by_clicking _ _ n
                    (image_containers p)) as [ev clicked]. cbn [snd].
        now rewrite PostProcessorFacts.finalize_map.
      * cbn [snd]. now rewrite PostProcessorFacts.finalize_map.
  - apply (selected_from name_lookup n scan _ v Hscan).
    + intros u Hu.
      pose proof (extract_urls_by_clicking_spec scroll n
                    (image_containers p)) as Hc.
      rewrite Forall_forall in Hc. now apply Hc.
    + revert H. unfold GoogleImageScraper_find_image_urls_block.
      cbn [number_of_images scroll_attempts]. fold scan.
      destruct (Z.of_nat (length scan) <? n)%Z.
      * destruct (extract_urls_by_clicking scroll n (image_containers p))
          as [ev clicked]. cbn [snd]. auto.
      * cbn [snd]. auto.
Qed.

(** C2 as stated fails.  Normalization runs after the filters, so a
    pattern the filters look for can appear in the final URL; and the
    meta-tag scan lets a URL with [logo] through as it is. *)
Lemma final_list_has_blocked_pattern :
  (snd (find_image_urls_block no_names utf8_stdout
          {| doc := escaped_logo_document; image_containers := [] |} 1) =
     [lit "https://cdn.example.org/img/logo.jpg"] /\
   substring (lit "logo") (lit "https://cdn.example.org/img/logo.jpg")) /\
  (snd (find_image_urls_block no_names utf8_stdout
          {| doc := logo_meta_document; image_containers := [] |} 1) =
     [lit "http://a.b/logo.jpg"] /\
   substring (lit "logo") (lit "http://a.b/logo.jpg")) /\
  In (lit "logo") PatternFilter.default_blocklist.
Proof.
  split; [|split].
  - split; [vm_compute; reflexivity|].
    apply contains_spec. vm_compute. reflexivity.
  - split; [vm_compute; reflexivity|].
    apply contains_spec. vm_compute. reflexivity.
  - right; left. reflexivity.
Qed.

Lemma final_urls_origin_witness :
  exists u, lit "https://cdn.example.org/img/logo.jpg" =
              Codec.decode_url no_names u /\ ~ substring tbn u /\
    (In u (map js_to_py (extract_urls_from_page_data escaped_logo_document)) \/
     (Z.of_nat (length (map js_to_py
                          (extract_urls_from_page_data
                             escaped_logo_document))) < 1)%Z /\
     In u (snd (StandaloneFallback.extract_urls_by_clicking utf8_stdout
                  (Z.max 3 (1 / 10 + 1)) 1 []))).
Proof.
  apply (proj1 (final_urls_origin no_names utf8_stdout
           {| doc := escaped_logo_document; image_containers := [] |} 1 3
           (lit "https://cdn.example.org/img/logo.jpg"))).
  vm_compute. left. reflexivity.
Defined.

End PipelineFacts.

(** ** Search keys *)

Module SearchKeyFacts.
Import SearchKey.

Lemma lstrip_Forall (P : N -> Prop) (s : str) :
  Forall P s -> Forall P (lstrip s).
Proof.
  induction 1 as [|c s Hc Hs IH]; cbn [lstrip]; [constructor|].
  destruct (py_isspace c); [exact IH | now constructor].
Qed.

Lemma strip_Forall (P : N -> Prop) (s : str) :
  Forall P s -> Forall P (strip s).
Proof.
  intros H. unfold strip, rstrip.
  apply Forall_rev, lstrip_Forall, Forall_rev, lstrip_Forall, H.
Qed.

Lemma lstrip_keeps (x : N) (s : str) :
  py_isspace x = false -> In x s -> In x (lstrip s).
Proof.
  intros Hx. induction s as [|c s IH]; [intros []|].
  cbn [lstrip]. destruct (py_isspace c) eqn:E; [|auto].
  intros [->|H]; [congruence | now apply IH].
Qed.

Lemma strip_keeps (x : N) (s : str) :
  py_isspace x = false -> In x s -> In x (strip s).
Proof.
  intros Hx H. unfold strip, rstrip.
  apply in_rev. rewrite rev_involutive.
  apply lstrip_keeps; [exact Hx|]. apply in_rev. rewrite rev_involutive.
  now apply lstrip_keeps.
Qed.

Lemma lstrip_spaces (s : str) :
  Forall (fun c => py_isspace c = true) s -> lstrip s = [].
Proof.
  induction 1 as [|c s Hc _ IH]; [reflexivity|].
  cbn [lstrip]. now rewrite Hc.
Qed.

Lemma lstrip_fixed (s : str) :
  Forall (fun c => py_isspace c = false) s -> lstrip s = s.
Proof.
  destruct 1 as [|c s Hc _]; [reflexivity|]. cbn [lstrip]. now rewrite Hc.
Qed.

Lemma strip_fixed (s : str) :
  Forall (fun c => py_isspace c = false) s -> strip s = s.
Proof.
  intros H. unfold strip, rstrip.
  rewrite (lstrip_fixed s H), lstrip_fixed by now apply Forall_rev.
  apply rev_involutive.
Qed.

(** After the substitution, a white-space character can only be the
    space. *)
Lemma collapse_spaces_chars (b : bool) (s : str) :
  Forall (fun c => invalid_filename_char c = false) s ->
  Forall (fun c => invalid_filename_char c = false /\
                   (py_isspace c = true -> c = 32%N))
         (collapse_spaces b s).
Proof.
  intros H; revert b; induction H as [|c s Hc _ IH]; intros b;
    cbn [collapse_spaces]; [constructor|].
  destruct (py_isspace c) eqn:E.
  - destruct b; [apply IH|]. constructor; [|apply IH]. now split.
  - constructor; [|apply IH]. split; [exact Hc | congruence].
Qed.

Lemma collapse_spaces_keeps (x : N) (b : bool) (s : str) :
  py_isspace x = false -> In x s -> In x (collapse_spaces b s).
Proof.
  intros Hx. revert b; induction s as [|c s IH]; intros b; [intros []|].
  cbn [collapse_spaces]. intros [->|H].
  - rewrite Hx. now left.
  - destruct (py_isspace c); [destruct b|]; [|right|right]; now apply IH.
Qed.

Lemma collapse_spaces_fixed (s : str) :
  Forall (fun c => py_isspace c = false) s -> collapse_spaces false s = s.
Proof.
  induction 1 as [|c s Hc _ IH]; [reflexivity|].
  cbn [collapse_spaces]. now rewrite Hc, IH.
Qed.

Lemma collapse_spaces_all_space (b : bool) (s : str) :
  Forall (fun c => py_isspace c = true) s ->
  Forall (fun c => py_isspace c = true) (collapse_spaces b s).
Proof.
  intros H; revert b; induction H as [|c s Hc _ IH]; intros b;
    cbn [collapse_spaces]; [constructor|].
  rewrite Hc. destruct b; [apply IH|]. constructor; [reflexivity|apply IH].
Qed.

Lemma collapse_spaces_length (b : bool) (s : str) :
  (length (collapse_spaces b s) <= length s)%nat.
Proof.
  revert b; induction s as [|c s IH]; intros b; cbn [collapse_spaces length];
    [lia|].
  destruct (py_isspace c); [destruct b|]; cbn [length];
    pose proof (IH true); pose proof (IH false); lia.
Qed.

Lemma lstrip_length (s : str) : (length (lstrip s) <= length s)%nat.
Proof.
  induction s as [|c s IH]; cbn [lstrip length]; [lia|].
  destruct (py_isspace c); cbn [length]; lia.
Qed.

Lemma strip_length (s : str) : (length (strip s) <= length s)%nat.
Proof.
  unfold strip, rstrip. rewrite length_rev.
  pose proof (lstrip_length (rev (lstrip s))) as H1.
  rewrite length_rev in H1. pose proof (lstrip_length s). lia.
Qed.

Lemma replace_invalid_valid (s : str) :
  Forall (fun c => invalid_filename_char c = false) (replace_invalid s).
Proof.
  unfold replace_invalid. apply Forall_forall. intros x H.
  apply in_map_iff in H. destruct H as [c [<- _]].
  destruct (invalid_filename_char c) eqn:E; [reflexivity | exact E].
Qed.

Lemma replace_invalid_space (c : N) :
  py_isspace c = true -> invalid_filename_char c = false.
Proof.
  unfold py_isspace, invalid_filename_char. intros H.
  repeat match goal with
         | |- context [(c =? ?k)%N] =>
             let E := fresh "E" in
             destruct (c =? k)%N eqn:E;
             [apply N.eqb_eq in E; subst c; vm_compute in H; discriminate H|]
         end.
  reflexivity.
Qed.

(** X1: a cleaned search key contains none of the nine characters that are
    invalid in file names and no white space at all, and cleaning it again
    changes nothing. *)
Theorem clean_search_key_safe (search_key : str) :
  Forall plain (clean_search_key search_key) /\
  clean_search_key (clean_search_key search_key) = clean_search_key search_key.
Proof.
  assert (H : Forall plain (clean_search_key search_key)).
  { unfold clean_search_key, spaces_to_underscores.
    apply Forall_forall. intros x Hx. apply in_map_iff in Hx.
    destruct Hx as [c [<- Hc]].
    pose proof (strip_Forall _ _
                  (collapse_spaces_chars false _
                     (replace_invalid_valid search_key))) as F.
    rewrite Forall_forall in F. destruct (F c Hc) as [Hv Hs].
    destruct (c =? 32)%N eqn:E; [split; reflexivity|].
    split; [exact Hv|]. destruct (py_isspace c); [|reflexivity].
    apply N.eqb_neq in E. now specialize (Hs eq_refl). }
  split; [exact H|].
  set (k := clean_search_key search_key) in *.
  assert (Hv : Forall (fun c => invalid_filename_char c = false) k)
    by (revert H; apply Forall_impl; intros c [Hc _]; exact Hc).
  assert (Hs : Forall (fun c => py_isspace c = false) k)
    by (revert H; apply Forall_impl; intros c [_ Hc]; exact Hc).
  unfold clean_search_key.
  assert (R : replace_invalid k = k).
  { unfold replace_invalid. rewrite <- (map_id k) at 2.
    apply map_ext_in. intros c Hc. rewrite Forall_forall in Hv.
    now rewrite (Hv c Hc). }
  rewrite R, collapse_spaces_fixed, strip_fixed by assumption.
  unfold spaces_to_underscores. rewrite <- (map_id k) at 2.
  apply map_ext_in. intros c Hc. rewrite Forall_forall in Hs.
  destruct (c =? 32)%N eqn:E; [|reflexivity].
  apply N.eqb_eq in E. subst c. specialize (Hs _ Hc). discriminate Hs.
Qed.

(** X2: a cleaned key is never longer than the key, and it is empty exactly
    when the key consists of white space only (the empty key included). *)
Theorem clean_search_key_empty (search_key : str) :
  (length (clean_search_key search_key) <= length search_key)%nat /\
  (clean_search_key search_key = [] <->
   Forall (fun c => py_isspace c = true) search_key).
Proof.
  split.
  - unfold clean_search_key, spaces_to_underscores, replace_invalid.
    rewrite length_map.
    pose proof (strip_length (collapse_spaces false
                  (map (fun c => if invalid_filename_char c then 95%N else c)
                       search_key))) as H1.
    pose proof (collapse_spaces_length false
                  (map (fun c => if invalid_filename_char c then 95%N else c)
                       search_key)) as H2.
    rewrite length_map in H2. lia.
  - split.
    + intros E. apply Forall_forall. intros c Hc.
      destruct (py_isspace c) eqn:Es; [reflexivity|]. exfalso.
      set (c' := if invalid_filename_char c then 95%N else c).
      assert (Hs' : py_isspace c' = false).
      { unfold c'. destruct (invalid_filename_char c); [reflexivity|exact Es]. }
      assert (Hin : In (if (c' =? 32)%N then 95%N else c')
                       (clean_search_key search_key)).
      { unfold clean_search_key, spaces_to_underscores.
        apply (in_map (fun c => if (c =? 32)%N then 95%N else c)).
        apply strip_keeps; [exact Hs'|].
        apply collapse_spaces_keeps; [exact Hs'|].
        unfold replace_invalid. apply in_map_iff. now exists c. }
      rewrite E in Hin. destruct Hin.
    + intros H. unfold clean_search_key.
      assert (R : replace_invalid search_key = search_key).
      { unfold replace_invalid. rewrite <- (map_id search_key) at 2.
        apply map_ext_in. intros c Hc. rewrite Forall_forall in H.
        now rewrite (replace_invalid_space c (H c Hc)). }
      rewrite R. unfold strip.
      rewrite lstrip_spaces by now apply collapse_spaces_all_space.
      reflexivity.
Qed.

End SearchKeyFacts.

(** ** More on the pattern filter helper *)

Module ThumbnailFilterFacts.
Import PatternFilter.

Section Tables.
Variable unicode_lower : N -> list N.
Variable final_sigma : str -> nat -> bool.

Local Abbreviation lower := (py_lower unicode_lower final_sigma).
Local Abbreviation keep := (filter_thumbnail_urls unicode_lower final_sigma).

Lemma keep_In (urls B : list str) (u : str) :
  In u (keep urls B) <->
  In u urls /\ (50 < length u)%nat /\
  forall pattern, In pattern B -> ~ substring pattern (lower u).
Proof.
  unfold filter_thumbnail_urls. rewrite filter_In, andb_true_iff.
  rewrite negb_true_iff, Nat.ltb_lt. unfold is_thumbnail. split.
  - intros [Hu [Hn Hl]]. repeat split; try assumption.
    intros q Hq Hs.
    assert (T : existsb (fun pattern => contains pattern (lower u)) B = true).
    { apply PatternFilterFacts.existsb_contains. now exists q. }
    congruence.
  - intros [Hu [Hl Hn]]. repeat split; try assumption.
    destruct (existsb _ B) eqn:E; [|reflexivity]. exfalso.
    apply PatternFilterFacts.existsb_contains in E.
    destruct E as [q [Hq Hs]]. exact (Hn q Hq Hs).
Qed.

Lemma filter_idem {A} (f : A -> bool) (l : list A) :
  filter f (filter f l) = filter f l.
Proof.
  induction l as [|x l IH]; [reflexivity|]. cbn [filter].
  destruct (f x) eqn:E; [cbn [filter]; rewrite E, IH|]; auto.
Qed.

(** X3: [filter_thumbnail_urls] keeps exactly the URLs that are longer than
    50 characters and whose lower-cased form contains no pattern, so a URL
    of 50 characters or fewer is dropped even when the pattern list is
    empty; the URLs kept stay in their order, filtering twice gives the
    same list, and adding patterns never keeps more. *)
Theorem filter_thumbnail_urls_spec (urls B B' : list str) :
  (forall u, In u (keep urls B) <->
     In u urls /\ (50 < length u)%nat /\
     forall pattern, In pattern B -> ~ substring pattern (lower u)) /\
  keep urls [] = filter (fun u => (50 <? length u)%nat) urls /\
  keep (keep urls B) B = keep urls B /\
  (forall urls2, keep (urls ++ urls2) B = keep urls B ++ keep urls2 B) /\
  (forall u, In u (keep urls (B ++ B')) -> In u (keep urls B)).
Proof.
  split; [intros u; apply keep_In|]. split; [reflexivity|].
  split; [apply filter_idem|]. split.
  - intros urls2. apply filter_app.
  - intros u H. apply keep_In in H. apply keep_In.
    destruct H as [Hu [Hl Hn]]. repeat split; try assumption.
    intros q Hq. apply Hn. apply in_or_app. now left.
Qed.

End Tables.
End ThumbnailFilterFacts.

(** ** More on the text scan *)

Module TextScanMore.
Import PatternFilter Regex TextScan.

Lemma exec_at_substring (r : regex) (s m : str) :
  exec_at r s = Some m -> substring m s.
Proof.
  intros H. apply RegexFacts.exec_at_sound in H.
  destruct H as [_ [t ->]]. now exists [], t.
Qed.

Lemma match_all_substring (r : regex) (s : str) (skip : nat) (m : str) :
  In m (match_all r s skip) -> substring m s.
Proof.
  revert skip; induction s as [|c s IH]; intros skip; cbn [match_all].
  - destruct skip; [|intros []].
    destruct (exec_at r []) eqn:E; [|intros []].
    intros [<-|[]]. now apply exec_at_substring in E.
  - destruct skip as [|j].
    + destruct (exec_at r (c :: s)) eqn:E.
      * intros [<-|H]; [now apply exec_at_substring in E|].
        apply substring_cons. now apply IH in H.
      * intros H. apply substring_cons. now apply IH in H.
    + intros H. apply substring_cons. now apply IH in H.
Qed.

Lemma match_first_substring (r : regex) (s m : str) :
  match_first r s = Some m -> substring m s.
Proof.
  induction s as [|c s IH]; cbn [match_first].
  - destruct (exec_at r []) eqn:E; [|discriminate].
    intros H; inversion H; subst. now apply exec_at_substring in E.
  - destruct (exec_at r (c :: s)) eqn:E.
    + intros H; inversion H; subst. now apply exec_at_substring in E.
    + intros H. apply substring_cons. now apply IH.
Qed.

(** X4: the text scan never makes a URL up: every URL it returns occurs
    verbatim in the text of a script element, in the content attribute of
    a meta tag or in the document markup; a document whose texts are all
    empty yields the empty list. *)
Theorem extracted_urls_occur (d : document) (u : str) :
  (In u (extract_urls_from_page_data d) ->
   (exists script, In script (scripts d) /\
      (substring u (textContent script) \/ substring u (innerHTML script))) \/
   (exists content, In (Some content) (metaTags d) /\ substring u content) \/
   substring u (documentHTML d)) /\
  (Forall (fun s => textContent s = [] /\ innerHTML s = []) (scripts d) ->
   Forall (fun m => m = None \/ m = Some []) (metaTags d) ->
   documentHTML d = [] ->
   extract_urls_from_page_data d = []).
Proof.
  assert (P : In u (extract_urls_from_page_data d) ->
   (exists script, In script (scripts d) /\
      (substring u (textContent script) \/ substring u (innerHTML script))) \/
   (exists content, In (Some content) (metaTags d) /\ substring u content) \/
   substring u (documentHTML d)).
  { intros H. apply TextScanFacts.extract_In in H. unfold fullResUrls in H.
    rewrite !in_app_iff, !in_flat_map in H.
    destruct H as [[s [Hs H]]|[[m [Hm H]]|H]].
    - left. exists s. split; [exact Hs|]. unfold scan_script in H.
      destruct (_ && _); [|destruct H].
      apply filter_In in H. destruct H as [H _].
      apply match_all_substring in H. unfold js_or in H.
      destruct (textContent s); [now right | now left].
    - right; left.
      destruct m as [[|c0 c]|]; [destruct H| |destruct H].
      unfold scan_meta in H.
      destruct (_ && _); [|destruct H].
      destruct (match_first re_meta _) as [v|] eqn:E; [|destruct H].
      destruct (meta_keeps v); [|destruct H]. destruct H as [<-|[]].
      apply match_first_substring in E.
      exists (c0 :: c). split; [exact Hm | exact E].
    - right; right. unfold scan_document in H.
      apply filter_In in H. destruct H as [H _].
      now apply match_all_substring in H. }
  split; [exact P|].
  intros Hs Hm Hd. unfold extract_urls_from_page_data.
  assert (E : fullResUrls d = []); [|now rewrite E].
  unfold fullResUrls. rewrite Hd.
  assert (E1 : flat_map scan_script (scripts d) = []).
  { clear P. revert Hs. generalize (scripts d). intros l Hs.
    induction Hs as [|s l [Ht Hi] _ IH]; [reflexivity|].
    cbn [flat_map]. rewrite IH. unfold scan_script. rewrite Ht, Hi.
    reflexivity. }
  assert (E2 : flat_map scan_meta (metaTags d) = []).
  { clear P. revert Hm. generalize (metaTags d). intros l Hm.
    induction Hm as [|m l Hm0 _ IH]; [reflexivity|].
    cbn [flat_map]. rewrite IH. destruct Hm0 as [->| ->]; reflexivity. }
  rewrite E1, E2. reflexivity.
Qed.

Lemma letter_is_url_char (x : N) :
  ((65 <= x <= 90) \/ (97 <= x <= 122))%N -> url_char_meta x = true.
Proof.
  intros H. unfold url_char_meta, js_whitespace.
  repeat match goal with
         | |- context [(x =? ?k)%N] =>
             destruct (N.eqb_spec x k); [exfalso; lia|]
         | |- context [(?a <=? ?b)%N] =>
             destruct (N.leb_spec a b)
         end; cbn; try reflexivity; exfalso; lia.
Qed.

Lemma lower_letters (l w : list N) :
  Forall (fun c => (97 <= c <= 122)%N) l ->
  map ascii_lower w = l ->
  Forall (fun x => url_char_meta x = true) w.
Proof.
  intros Hl; revert w; induction Hl as [|c l Hc _ IH]; intros [|x w] E;
    try discriminate; constructor.
  - apply letter_is_url_char. apply (f_equal (hd 0%N)) in E.
    cbn [map hd] in E. unfold ascii_lower in E.
    destruct (N.leb_spec 65 x), (N.leb_spec x 90); cbn [andb] in E; lia.
  - apply IH. apply (f_equal (@tl N)) in E. exact E.
Qed.

Ltac small_letters :=
  match goal with
  | |- Forall ?P ?l =>
      let l' := eval vm_compute in l in
      change (Forall P l'); repeat constructor; lia
  end.

Lemma shape_chars (u : str) :
  image_url_shape url_char_meta u ->
  Forall (fun x => url_char_meta x = true) u /\ (12 <= length u)%nat.
Proof.
  intros [sch [body [ext [query [-> [Hs [Hne [Hb [He Hq]]]]]]]]].
  assert (W : forall l w, Forall (fun c => (97 <= c <= 122)%N) l ->
             l = map ascii_lower w ->
             Forall (fun x => url_char_meta x = true) w /\
             length w = length l).
  { intros l w Hl E. split; [now apply (lower_letters l)|].
    rewrite E. now rewrite length_map. }
  assert (Fs : Forall (fun x => url_char_meta x = true) sch /\
               (4 <= length sch)%nat).
  { cbn [In] in Hs. destruct Hs as [Hs|[Hs|[]]];
      (apply W in Hs; [|small_letters]); destruct Hs as [F L];
      (split; [exact F|rewrite L; vm_compute; lia]). }
  assert (Fe : Forall (fun x => url_char_meta x = true) ext /\
               (3 <= length ext)%nat).
  { cbn [In] in He. destruct He as [He|[He|[He|[He|[He|[]]]]]];
      (apply W in He; [|small_letters]); destruct He as [F L];
      (split; [exact F|rewrite L; vm_compute; lia]). }
  assert (Fq : Forall (fun x => url_char_meta x = true) query).
  { destruct Hq as [->|[q0 [q [-> [H0 Hq]]]]]; [constructor|].
    constructor; [|exact Hq]. destruct H0 as [->| ->]; reflexivity. }
  assert (Lb : (1 <= length body)%nat)
    by (destruct body; [congruence|cbn [length]; lia]).
  split.
  - repeat (apply Forall_app; split); try tauto.
    + vm_compute. repeat constructor.
    + repeat constructor.
  - rewrite !length_app. cbn [length lit]. destruct Fs, Fe.
    change (length (lit "://")) with 3%nat. lia.
Qed.

(** X5: a URL returned by the text scan has at least 12 characters and
    contains no white space and no quote character. *)
Theorem extracted_urls_chars (d : document) (u : str) :
  In u (extract_urls_from_page_data d) ->
  (12 <= length u)%nat /\
  Forall (fun x => js_whitespace x = false /\ x <> 34%N /\ x <> 39%N) u.
Proof.
  intros H. apply TextScanFacts.extract_In, TextScanFacts.fullResUrls_spec in H.
  destruct H as [H _]. apply shape_chars in H. destruct H as [F L].
  split; [exact L|]. revert F. apply Forall_impl. intros x Hx.
  unfold url_char_meta in Hx.
  rewrite negb_true_iff, !orb_false_iff, !N.eqb_neq in Hx. tauto.
Qed.

Lemma extracted_urls_occur_witness :
  substring (lit "https://cdn.example.org/photos/cat.jpg")
    (textContent
       {| textContent :=
            [91; 34]%N ++ lit "https://cdn.example.org/photos/cat.jpg"
              ++ [34; 93]%N;
          innerHTML := [] |}) /\
  extract_urls_from_page_data
    {| scripts := [{| textContent := []; innerHTML := [] |}];
       metaTags := [None; Some []];
       documentHTML := [] |} = [].
Proof.
  split.
  - destruct (proj1 (extracted_urls_occur one_url_document
                       (lit "https://cdn.example.org/photos/cat.jpg")))
      as [[s [[<-|[]] [H|H]]]|[[c [[] _]]|H]].
    + vm_compute. left. reflexivity.
    + exact H.
    + exfalso. destruct H as [[|? ?] [? H]]; discriminate H.
    + exfalso. destruct H as [[|? ?] [? H]]; discriminate H.
  - apply (proj2 (extracted_urls_occur _ [])); cbn.
    + constructor; [split; reflexivity|constructor].
    + constructor; [now left|]. constructor; [now right|constructor].
    + reflexivity.
Defined.

Lemma extracted_urls_chars_witness :
  (12 <= length (lit "https://cdn.example.org/photos/cat.jpg"))%nat.
Proof.
  apply (extracted_urls_chars one_url_document).
  vm_compute. left. reflexivity.
Defined.

End TextScanMore.

(** ** More on the click fallback *)

Module ClickFacts.
Import Fallback.

Lemma count_events_app (f : event -> bool) (a b : list event) :
  count_events f (a ++ b) = (count_events f a + count_events f b)%nat.
Proof. unfold count_events. now rewrite filter_app, length_app. Qed.

Lemma count_events_repeat_scroll (k : nat) :
  count_events is_scroll (repeat Scroll k) = k /\
  count_events is_click (repeat Scroll k) = 0%nat.
Proof.
  unfold count_events. induction k as [|k [IH1 IH2]]; [now split|].
  cbn [repeat filter is_scroll is_click length]. now rewrite IH1, IH2.
Qed.

Lemma try_selectors_events (c : container) (sels : list selector) :
  count_events is_click (fst (try_selectors c sels)) = 0%nat /\
  count_events is_scroll (fst (try_selectors c sels)) = 0%nat.
Proof.
  induction sels as [|s sels IH]; cbn [try_selectors]; [now split|].
  destruct (found c s) as [|src data_src]; [exact IH|].
  destruct (src_or_data_src src data_src) as [img_src|]; [|exact IH].
  destruct (accepts img_src); [now split | exact IH].
Qed.

Lemma try_selectors_accepted (c : container) (sels : list selector)
    (u : str) :
  snd (try_selectors c sels) = Some u -> click_accepted u.
Proof.
  induction sels as [|s sels IH]; cbn [try_selectors]; [discriminate|].
  destruct (found c s) as [|src data_src]; [exact IH|].
  destruct (src_or_data_src src data_src) as [img_src|]; [|exact IH].
  destruct (accepts img_src) as [v|] eqn:E; [|exact IH].
  cbn [snd]. intros H; inversion H; subst.
  apply PipelineFacts.accepts_spec in E. unfold click_accepted. tauto.
Qed.

Lemma container_yield_accepted (c : container) :
  Forall click_accepted (container_yield c) /\
  (length (container_yield c) <= 1)%nat.
Proof.
  unfold container_yield. destruct (click_ok c); [|split; [constructor|auto]].
  destruct (snd (try_selectors c full_img_selectors)) as [u|] eqn:E.
  - split; [|auto]. constructor; [|constructor].
    now apply (try_selectors_accepted c full_img_selectors).
  - split; [constructor|auto].
Qed.

(** The loop stops at the target; until then it appends what each
    container yields. *)
Lemma click_loop_yields (n : Z) (cs : list container) (acc : list str) :
  snd (click_loop n cs acc) =
  if (Z.of_nat (length acc) >=? n)%Z then acc
  else acc ++ firstn (Z.to_nat n - length acc) (flat_map container_yield cs).
Proof.
  revert acc; induction cs as [|c cs IH]; intros acc; cbn [click_loop].
  - cbn [flat_map]. rewrite firstn_nil, app_nil_r.
    now destruct (Z.of_nat (length acc) >=? n)%Z.
  - destruct (Z.of_nat (length acc) >=? n)%Z eqn:E; [reflexivity|].
    assert (L : (Z.of_nat (length acc) < n)%Z)
      by (rewrite Z.geb_leb in E; now apply Z.leb_gt in E).
    cbn [flat_map]. unfold container_yield at 1.
    destruct (click_ok c).
    + destruct (try_selectors c full_img_selectors) as [ev got].
      cbn [snd]. destruct got as [u|].
      * specialize (IH (acc ++ [u])).
        destruct (click_loop n cs (acc ++ [u])) as [ev' out].
        cbn [snd] in *. rewrite IH, length_app. cbn [length app].
        destruct (Z.to_nat n - length acc)%nat as [|k] eqn:K; [lia|].
        cbn [firstn].
        destruct (Z.of_nat (length acc + 1) >=? n)%Z eqn:E2;
          rewrite Z.geb_leb in E2;
          [apply Z.leb_le in E2 | apply Z.leb_gt in E2].
        -- replace k with 0%nat by lia. reflexivity.
        -- rewrite <- app_assoc. cbn [app].
           replace (Z.to_nat n - (length acc + 1))%nat with k by lia.
           reflexivity.
      * specialize (IH acc).
        destruct (click_loop n cs acc) as [ev' out].
        cbn [snd] in *. rewrite IH, E. reflexivity.
    + specialize (IH acc).
      destruct (click_loop n cs acc) as [ev' out].
      cbn [snd] in *. rewrite IH, E. reflexivity.
Qed.

Lemma py_take_min {A} (n : Z) (l : list A) :
  (0 <= n)%Z ->
  py_take (Z.min (Z.of_nat (length l)) n) l = firstn (Z.to_nat n) l.
Proof.
  intros H. rewrite PostProcessorFacts.py_take_nonneg by lia.
  destruct (Z.le_ge_cases (Z.of_nat (length l)) n) as [L|L].
  - rewrite Z.min_l by lia. rewrite Nat2Z.id.
    rewrite firstn_all. symmetry. apply firstn_all2. lia.
  - now rewrite Z.min_r by lia.
Qed.

Lemma extract_urls_by_clicking_snd (s n : Z) (cs : list container) :
  snd (extract_urls_by_clicking s n cs) =
  snd (click_loop n
         (py_take (Z.min (Z.of_nat (length cs)) (n * 2)) cs) []).
Proof.
  unfold extract_urls_by_clicking.
  now destruct (click_loop n _ []) as [ev out].
Qed.

Lemma extract_urls_by_clicking_fst (s n : Z) (cs : list container) :
  fst (extract_urls_by_clicking s n cs) =
  repeat Scroll (Z.to_nat s) ++ LocateContainers ::
  fst (click_loop n
         (py_take (Z.min (Z.of_nat (length cs)) (n * 2)) cs) []).
Proof.
  unfold extract_urls_by_clicking.
  now destruct (click_loop n _ []) as [ev out].
Qed.

(** X6: the click fallback returns the first [number_of_images] sources
    that the first [2 * number_of_images] containers yield, in container
    order, where a container yields the source found after its click went
    through and nothing when the click raised; containers beyond the
    first [2 * number_of_images] are never used. *)
Theorem extract_urls_by_clicking_yields (s n : Z) (cs : list container) :
  (0 <= n)%Z ->
  snd (extract_urls_by_clicking s n cs) =
  firstn (Z.to_nat n)
    (flat_map container_yield (firstn (Z.to_nat (2 * n)) cs)).
Proof.
  intros H. rewrite extract_urls_by_clicking_snd, click_loop_yields.
  rewrite py_take_min by lia. cbn [length].
  replace (n * 2)%Z with (2 * n)%Z by lia.
  destruct (Z.of_nat 0 >=? n)%Z eqn:E.
  - rewrite Z.geb_leb in E. apply Z.leb_le in E.
    replace (Z.to_nat n) with 0%nat by lia. reflexivity.
  - cbn [app]. now rewrite Nat.sub_0_r.
Qed.

Lemma Forall_firstn {A} (P : A -> Prop) (k : nat) (l : list A) :
  Forall P l -> Forall P (firstn k l).
Proof.
  intros H. rewrite <- (firstn_skipn k l) in H.
  now apply Forall_app in H.
Qed.

Lemma flat_map_yield_accepted (cs : list container) :
  Forall click_accepted (flat_map container_yield cs) /\
  (length (flat_map container_yield cs) <= length cs)%nat.
Proof.
  induction cs as [|c cs [IH1 IH2]]; [split; [constructor|auto]|].
  cbn [flat_map length]. destruct (container_yield_accepted c) as [F L].
  split; [now apply Forall_app|]. rewrite length_app. lia.
Qed.

(** X7: every source the click fallback collects contains http, does not
    contain encrypted-tbn and is longer than 50 characters; at most
    [number_of_images] sources are collected, whatever the sign of
    [number_of_images], and never more than there are containers. *)
Theorem extract_urls_by_clicking_accepted (s n : Z) (cs : list container) :
  Forall click_accepted (snd (extract_urls_by_clicking s n cs)) /\
  (Z.of_nat (length (snd (extract_urls_by_clicking s n cs))) <= Z.max 0 n)%Z /\
  (length (snd (extract_urls_by_clicking s n cs)) <= length cs)%nat.
Proof.
  rewrite extract_urls_by_clicking_snd, click_loop_yields. cbn [length].
  destruct (Z.of_nat 0 >=? n)%Z eqn:E.
  - split; [constructor|]. cbn [length]. split; lia.
  - cbn [app]. rewrite Nat.sub_0_r.
    set (l := py_take _ cs).
    destruct (flat_map_yield_accepted l) as [F L].
    assert (Ll : (length l <= length cs)%nat).
    { subst l. unfold py_take. destruct (_ <? 0)%Z;
        rewrite length_firstn; lia. }
    split; [now apply Forall_firstn|].
    rewrite length_firstn. split; lia.
Qed.

Lemma click_loop_events (n : Z) (cs : list container) (acc : list str) :
  (count_events is_click (fst (click_loop n cs acc)) <= length cs)%nat /\
  count_events is_scroll (fst (click_loop n cs acc)) = 0%nat /\
  (length (snd (click_loop n cs acc)) <=
   length acc + count_events is_click (fst (click_loop n cs acc)))%nat /\
  ((Z.of_nat (length acc) >=? n)%Z = true ->
   fst (click_loop n cs acc) = []).
Proof.
  revert acc; induction cs as [|c cs IH]; intros acc; cbn [click_loop].
  - cbn. repeat split; auto; lia.
  - destruct (Z.of_nat (length acc) >=? n)%Z eqn:E.
    + cbn. repeat split; auto; lia.
    + destruct (click_ok c).
      * pose proof (try_selectors_events c full_img_selectors) as [T1 T2].
        destruct (try_selectors c full_img_selectors) as [ev got].
        cbn [fst] in T1, T2.
        set (acc' := match got with Some u => acc ++ [u] | None => acc end).
        assert (La : (length acc' <= length acc + 1)%nat).
        { subst acc'. destruct got; [rewrite length_app; cbn|]; lia. }
        destruct (IH acc') as [I1 [I2 [I3 _]]].
        destruct (click_loop n cs acc') as [ev' out]. cbn [fst snd] in *.
        change (Click c :: ev ++ PressEscape :: ev')
          with ([Click c] ++ ev ++ [PressEscape] ++ ev').
        rewrite !count_events_app, T1, T2.
        change (count_events is_click [Click c]) with 1%nat.
        change (count_events is_click [PressEscape]) with 0%nat.
        change (count_events is_scroll [Click c]) with 0%nat.
        change (count_events is_scroll [PressEscape]) with 0%nat.
        cbn [length]. split; [lia|]. split; [lia|]. split; [lia|discriminate].
      * destruct (IH acc) as [I1 [I2 [I3 _]]].
        destruct (click_loop n cs acc) as [ev' out]. cbn [fst snd] in *.
        change (Click c :: ev') with ([Click c] ++ ev').
        rewrite !count_events_app.
        change (count_events is_click [Click c]) with 1%nat.
        change (count_events is_scroll [Click c]) with 0%nat.
        cbn [length]. split; [lia|]. split; [lia|]. split; [lia|discriminate].
Qed.

(** X8: the click fallback scrolls exactly [scroll_attempts] times (not at
    all for a negative value), clicks at most
    [min(len(image_containers), 2 * number_of_images)] containers and none
    at all when [number_of_images] is not positive, and every source it
    collects has cost at least one click. *)
Theorem extract_urls_by_clicking_effort (s n : Z) (cs : list container) :
  count_events is_scroll (fst (extract_urls_by_clicking s n cs)) =
    Z.to_nat s /\
  (count_events is_click (fst (extract_urls_by_clicking s n cs)) <=
   length cs)%nat /\
  (Z.of_nat (count_events is_click (fst (extract_urls_by_clicking s n cs))) <=
   Z.max 0 (2 * n))%Z /\
  (length (snd (extract_urls_by_clicking s n cs)) <=
   count_events is_click (fst (extract_urls_by_clicking s n cs)))%nat.
Proof.
  rewrite extract_urls_by_clicking_snd, extract_urls_by_clicking_fst.
  set (l := py_take _ cs).
  destruct (click_loop_events n l []) as [E1 [E2 [E3 E4]]].
  change (LocateContainers :: fst (click_loop n l []))
    with ([LocateContainers] ++ fst (click_loop n l [])).
  rewrite !count_events_app.
  destruct (count_events_repeat_scroll (Z.to_nat s)) as [-> ->].
  change (count_events is_click [LocateContainers]) with 0%nat.
  change (count_events is_scroll [LocateContainers]) with 0%nat.
  rewrite E2. cbn [length] in E3.
  assert (Ll : (length l <= length cs)%nat).
  { subst l. unfold py_take. destruct (_ <? 0)%Z;
      rewrite length_firstn; lia. }
  split; [lia|]. split; [lia|]. split; [|lia].
  destruct (Z.le_gt_cases n 0) as [L|L].
  - rewrite E4 by (cbn [length]; rewrite Z.geb_leb; apply Z.leb_le; lia).
    cbn. lia.
  - assert (Lt : (Z.of_nat (length l) <= 2 * n)%Z).
    { subst l. rewrite py_take_min by lia. rewrite length_firstn. lia. }
    lia.
Qed.

Lemma extract_urls_by_clicking_yields_witness :
  snd (extract_urls_by_clicking 3 1
         [dead_container; yielding_container; yielding_container]) =
  [sample_src].
Proof.
  rewrite (extract_urls_by_clicking_yields 3 1
             [dead_container; yielding_container; yielding_container])
    by lia.
  reflexivity.
Defined.

End ClickFacts.

(** ** The search URL *)

Module SearchUrlFacts.
Import Codec SearchUrl.

Ltac Zify.zify_post_hook ::= Z.to_euclidean_division_equations.

Lemma decode1 (b : N) (t : list N) :
  (b < 128)%N -> utf8_decode_replace (b :: t) = b :: utf8_decode_replace t.
Proof.
  intros H. cbn [utf8_decode_replace]. apply N.ltb_lt in H. now rewrite H.
Qed.

Ltac decide_tests :=
  repeat match goal with
         | |- context [(?a <? ?b)%N] => destruct (N.ltb_spec a b); try lia
         | |- context [(?a <=? ?b)%N] => destruct (N.leb_spec a b); try lia
         | |- context [(?a =? ?b)%N] => destruct (N.eqb_spec a b); try lia
         end.

Lemma decode2 (b1 b2 : N) (t : list N) :
  (194 <= b1 < 224)%N -> (128 <= b2 <= 191)%N ->
  utf8_decode_replace (b1 :: b2 :: t) =
  ((b1 - 192) * 64 + (b2 - 128))%N :: utf8_decode_replace t.
Proof.
  intros H1 H2. cbn [utf8_decode_replace]. unfold is_cont.
  decide_tests. reflexivity.
Qed.

Lemma decode3 (b1 b2 b3 : N) (t : list N) :
  (224 <= b1 < 240)%N -> (128 <= b2 <= 191)%N -> (128 <= b3 <= 191)%N ->
  (b1 = 224 -> 160 <= b2)%N -> (b1 = 237 -> b2 < 160)%N ->
  utf8_decode_replace (b1 :: b2 :: b3 :: t) =
  ((b1 - 224) * 4096 + (b2 - 128) * 64 + (b3 - 128))%N
    :: utf8_decode_replace t.
Proof.
  intros H1 H2 H3 H4 H5. cbn [utf8_decode_replace]. unfold is_cont.
  decide_tests; reflexivity.
Qed.

Lemma decode4 (b1 b2 b3 b4 : N) (t : list N) :
  (240 <= b1 < 245)%N -> (128 <= b2 <= 191)%N -> (128 <= b3 <= 191)%N ->
  (128 <= b4 <= 191)%N ->
  (b1 = 240 -> 144 <= b2)%N -> (b1 = 244 -> b2 < 144)%N ->
  utf8_decode_replace (b1 :: b2 :: b3 :: b4 :: t) =
  ((b1 - 240) * 262144 + (b2 - 128) * 4096 + (b3 - 128) * 64 + (b4 - 128))%N
    :: utf8_decode_replace t.
Proof.
  intros H1 H2 H3 H4 H5 H6. cbn [utf8_decode_replace]. unfold is_cont.
  decide_tests; reflexivity.
Qed.

Lemma utf8_round_char (c : N) (bs t : list N) :
  utf8_encode_char c = Some bs ->
  utf8_decode_replace (bs ++ t) = c :: utf8_decode_replace t.
Proof.
  unfold utf8_encode_char.
  destruct (N.ltb_spec c 128).
  { intros E; inversion E; subst. now apply decode1. }
  destruct (N.ltb_spec c 2048).
  { intros E. apply (f_equal (fun o => match o with Some l => l | None => [] end)) in E.
    subst bs. cbn [app]. rewrite decode2 by lia. f_equal. lia. }
  destruct (N.leb_spec 55296 c), (N.leb_spec c 57343); cbn [andb];
    try discriminate.
  all: destruct (N.ltb_spec c 65536).
  all: try (intros E;
    apply (f_equal (fun o => match o with Some l => l | None => [] end)) in E;
    subst bs; cbn [app]; rewrite decode3 by lia; f_equal; lia).
  all: destruct (N.ltb_spec c 1114112); try discriminate.
  all: intros E;
    apply (f_equal (fun o => match o with Some l => l | None => [] end)) in E;
    subst bs; cbn [app]; rewrite decode4 by lia; f_equal; lia.
Qed.


Lemma utf8_round (s : str) (bs : list N) :
  utf8_encode s = Some bs -> utf8_decode_replace bs = s.
Proof.
  revert bs; induction s as [|c s IH]; intros bs; cbn [utf8_encode].
  - intros E; inversion E. reflexivity.
  - destruct (utf8_encode_char c) as [b|] eqn:Ec; [|discriminate].
    destruct (utf8_encode s) as [r|]; [|discriminate].
    intros E; inversion E; subst.
    rewrite (utf8_round_char c b r Ec). now rewrite (IH r).
Qed.

Lemma utf8_encode_char_some (c : N) :
  (exists b, utf8_encode_char c = Some b) <-> encodable c.
Proof.
  unfold utf8_encode_char, encodable.
  destruct (N.ltb_spec c 128); [split; [lia|eauto]|].
  destruct (N.ltb_spec c 2048); [split; [lia|eauto]|].
  destruct (N.leb_spec 55296 c), (N.leb_spec c 57343); cbn [andb].
  1: split; [intros [b E]; discriminate | lia].
  all: destruct (N.ltb_spec c 65536); [split; [lia|eauto]|].
  all: destruct (N.ltb_spec c 1114112); [split; [lia|eauto]|].
  all: split; [intros [b E]; discriminate | lia].
Qed.

Lemma utf8_encode_some (s : str) :
  (exists bs, utf8_encode s = Some bs) <-> Forall encodable s.
Proof.
  induction s as [|c s IH]; cbn [utf8_encode].
  - split; [constructor | eauto].
  - split.
    + intros [bs E].
      destruct (utf8_encode_char c) as [b|] eqn:Ec; [|discriminate].
      destruct (utf8_encode s) as [r|]; [|discriminate].
      constructor.
      * apply utf8_encode_char_some. eauto.
      * apply IH. eauto.
    + intros H. inversion H as [|? ? Hc Hs]; subst.
      apply utf8_encode_char_some in Hc. destruct Hc as [b ->].
      apply IH in Hs. destruct Hs as [r ->]. eauto.
Qed.

Lemma utf8_encode_char_range (c : N) (bs : list N) :
  utf8_encode_char c = Some bs -> Forall (fun b => (b < 256)%N) bs.
Proof.
  unfold utf8_encode_char.
  destruct (N.ltb_spec c 128).
  { intros E; inversion E; subst. repeat constructor. lia. }
  destruct (N.ltb_spec c 2048).
  { intros E.
    apply (f_equal (fun o => match o with Some l => l | None => [] end)) in E.
    subst bs. repeat constructor; lia. }
  destruct (N.leb_spec 55296 c), (N.leb_spec c 57343); cbn [andb];
    try discriminate.
  all: destruct (N.ltb_spec c 65536).
  all: try (intros E;
    apply (f_equal (fun o => match o with Some l => l | None => [] end)) in E;
    subst bs; repeat constructor; lia).
  all: destruct (N.ltb_spec c 1114112); try discriminate.
  all: intros E;
    apply (f_equal (fun o => match o with Some l => l | None => [] end)) in E;
    subst bs; repeat constructor; lia.
Qed.

Lemma utf8_encode_range (s : str) (bs : list N) :
  utf8_encode s = Some bs -> Forall (fun b => (b < 256)%N) bs.
Proof.
  revert bs; induction s as [|c s IH]; intros bs; cbn [utf8_encode].
  - intros E; inversion E. constructor.
  - destruct (utf8_encode_char c) as [b|] eqn:Ec; [|discriminate].
    destruct (utf8_encode s) as [r|]; [|discriminate].
    intros E; inversion E; subst. apply Forall_app. split.
    + now apply (utf8_encode_char_range c).
    + now apply IH.
Qed.

Lemma hex_digit_spec (d : N) :
  (d < 16)%N ->
  is_hex (hex_digit d) = true /\ hex_val (hex_digit d) = d /\
  always_safe (hex_digit d) = true.
Proof.
  intros H. unfold is_hex, hex_val, hex_digit, always_safe.
  destruct (N.ltb_spec d 10).
  - decide_tests; cbn [andb orb]; repeat split; try reflexivity; lia.
  - decide_tests; cbn [andb orb]; repeat split; try reflexivity; lia.
Qed.

Lemma is_safe_ascii (b : N) :
  is_safe b = true -> (b < 128)%N /\ b <> 37%N /\ b <> 92%N.
Proof.
  unfold is_safe, always_safe. intros H.
  rewrite !orb_true_iff, !andb_true_iff, !N.leb_le, !N.eqb_eq in H. lia.
Qed.

Lemma always_safe_ascii (b : N) :
  always_safe b = true -> (b < 128)%N /\ b <> 37%N /\ b <> 92%N.
Proof. intros H. apply is_safe_ascii. unfold is_safe. now rewrite H. Qed.

Lemma quoter_chars (b : N) :
  (b < 256)%N ->
  Forall (fun c => query_char c = true) (quoter b).
Proof.
  intros H. unfold quoter. destruct (is_safe b) eqn:E.
  - constructor; [|constructor]. unfold query_char.
    unfold is_safe in E. now rewrite E.
  - destruct (hex_digit_spec (b / 16)) as [_ [_ S1]]; [lia|].
    destruct (hex_digit_spec (b mod 16)) as [_ [_ S2]]; [lia|].
    constructor; [reflexivity|]. constructor.
    { unfold query_char. now rewrite S1. }
    constructor; [|constructor]. unfold query_char. now rewrite S2.
Qed.

Lemma unquote_to_bytes_quoter (b : N) (t : list N) :
  (b < 256)%N ->
  unquote_to_bytes (quoter b ++ t) = b :: unquote_to_bytes t.
Proof.
  intros H. unfold quoter. destruct (is_safe b) eqn:E.
  - apply is_safe_ascii in E. cbn [app unquote_to_bytes].
    destruct (N.eqb_spec b 37); [lia|reflexivity].
  - destruct (hex_digit_spec (b / 16)) as [H1 [V1 _]]; [lia|].
    destruct (hex_digit_spec (b mod 16)) as [H2 [V2 _]]; [lia|].
    cbn [app unquote_to_bytes]. rewrite N.eqb_refl, H1, H2, V1, V2.
    cbn [andb]. f_equal. lia.
Qed.

Lemma unquote_to_bytes_quote (bs : list N) :
  Forall (fun b => (b < 256)%N) bs ->
  unquote_to_bytes (flat_map quoter bs) = bs.
Proof.
  induction 1 as [|b bs Hb _ IH]; [reflexivity|].
  cbn [flat_map]. rewrite unquote_to_bytes_quoter by exact Hb.
  now rewrite IH.
Qed.

Lemma query_char_ascii (c : N) :
  query_char c = true -> (c < 128)%N /\ c <> 92%N.
Proof.
  unfold query_char. rewrite !orb_true_iff, !N.eqb_eq.
  intros [[H|H]|H]; [apply always_safe_ascii in H|..]; lia.
Qed.

Lemma unquote_no_percent (k : list N) :
  existsb (N.eqb 37) k = false -> unquote_to_bytes k = k.
Proof.
  induction k as [|c k IH]; [reflexivity|]. cbn [existsb].
  rewrite orb_false_iff. intros [E1 E2]. cbn [unquote_to_bytes].
  rewrite N.eqb_sym in E1. rewrite E1. now rewrite IH.
Qed.

Lemma unquote_ascii (k : str) :
  Forall (fun c => (c < 128)%N) k ->
  unquote k = utf8_decode_replace (unquote_to_bytes k).
Proof.
  intros H. unfold unquote. destruct (existsb (N.eqb 37) k) eqn:E.
  - now rewrite CodecFacts.unquote_parts_ascii.
  - rewrite unquote_no_percent by exact E.
    now rewrite CodecFacts.utf8_decode_replace_ascii.
Qed.

Lemma quote_inv (s k : str) :
  quote s = Some k ->
  exists bs, utf8_encode s = Some bs /\ k = flat_map quoter bs.
Proof.
  unfold quote. destruct s as [|c s].
  - intros E; inversion E. now exists [].
  - destruct (utf8_encode (c :: s)) as [bs|]; [|discriminate].
    intros E; inversion E. now exists bs.
Qed.

Lemma quote_chars (s k : str) :
  quote s = Some k -> Forall (fun c => query_char c = true) k.
Proof.
  intros E. apply quote_inv in E. destruct E as [bs [E ->]].
  apply utf8_encode_range in E.
  induction E as [|b bs Hb _ IH]; [constructor|].
  cbn [flat_map]. apply Forall_app. split; [now apply quoter_chars|exact IH].
Qed.

Lemma quote_unquote (s k : str) : quote s = Some k -> unquote k = s.
Proof.
  intros E. pose proof (quote_chars s k E) as C.
  apply quote_inv in E. destruct E as [bs [E ->]].
  rewrite unquote_ascii.
  - rewrite unquote_to_bytes_quote by now apply (utf8_encode_range s).
    now apply utf8_round.
  - revert C. apply Forall_impl. intros c Hc.
    now apply query_char_ascii in Hc.
Qed.

Lemma quote_decode_url (name_lookup : list N -> option N) (s k : str) :
  quote s = Some k -> decode_url name_lookup k = s.
Proof.
  intros E. pose proof (quote_chars s k E) as C.
  unfold decode_url, decode_steps.
  rewrite CodecFacts.utf8_encode_ascii.
  - unfold unicode_escape_decode.
    rewrite CodecFacts.escape_run_no_backslash.
    + now rewrite (quote_unquote s k E).
    + intros Hin. rewrite Forall_forall in C. apply C in Hin.
      apply query_char_ascii in Hin. lia.
  - revert C. apply Forall_impl. intros c Hc.
    now apply query_char_ascii in Hc.
Qed.

Lemma quote_none (s : str) : quote s = None <-> ~ Forall encodable s.
Proof.
  rewrite <- utf8_encode_some. unfold quote. destruct s as [|c s].
  - split; [discriminate|]. intros H. exfalso. apply H. now exists [].
  - destruct (utf8_encode (c :: s)) as [bs|].
    + split; [discriminate|]. intros H. exfalso. apply H. now exists bs.
    + split; [|reflexivity]. intros _ [bs E]. discriminate.
Qed.

Lemma quote_safe (s : str) :
  Forall (fun c => is_safe c = true) s -> quote s = Some s.
Proof.
  intros H. unfold quote. destruct s as [|c s]; [reflexivity|].
  rewrite CodecFacts.utf8_encode_ascii.
  - f_equal. induction H as [|b l Hb _ IH]; [reflexivity|].
    cbn [flat_map]. unfold quoter at 1. rewrite Hb. cbn [app]. now rewrite IH.
  - revert H. apply Forall_impl. intros b Hb. now apply is_safe_ascii in Hb.
Qed.


(** X11: [urllib.parse.quote] as the search URL uses it produces only
    ASCII letters, digits, the characters underscore, dot, hyphen, tilde
    and slash, and the percent sign (so no space, ampersand, equals sign,
    hash or backslash reaches the query); a key made of safe characters
    is passed through unchanged. *)
Theorem quote_alphabet (s : str) :
  (forall k, quote s = Some k ->
     Forall (fun c => query_char c = true) k /\
     ~ In 32%N k /\ ~ In 38%N k /\ ~ In 61%N k /\ ~ In 35%N k /\
     ~ In 92%N k) /\
  (Forall (fun c => is_safe c = true) s -> quote s = Some s).
Proof.
  split; [|apply quote_safe].
  intros k E. pose proof (quote_chars s k E) as C. split; [exact C|].
  rewrite Forall_forall in C.
  repeat split; intros Hin; apply C in Hin; discriminate Hin.
Qed.

(** X12: the search URL is the fixed prefix, the quoted key and the fixed
    suffix; percent-decoding the quoted key, with [unquote] or with the
    repository's [decode_url], gives the search key back, so two different
    keys never share a search URL; building the URL raises exactly when
    the key holds a code point that UTF-8 cannot encode (a lone
    surrogate). *)
Theorem google_images_url_key (name_lookup : list N -> option N) (s : str) :
  (forall url, google_images_url s = Some url ->
     exists k, url = search_prefix ++ k ++ search_suffix /\
               unquote k = s /\ decode_url name_lookup k = s) /\
  (forall s' url, google_images_url s = Some url ->
     google_images_url s' = Some url -> s = s') /\
  (google_images_url s = None <-> ~ Forall encodable s).
Proof.
  assert (K : forall t url, google_images_url t = Some url ->
     exists k, quote t = Some k /\ url = search_prefix ++ k ++ search_suffix).
  { intros t url. unfold google_images_url.
    destruct (quote t) as [k|]; [|discriminate].
    intros E; inversion E. now exists k. }
  split; [|split].
  - intros url E. apply K in E. destruct E as [k [E ->]]. exists k.
    split; [reflexivity|]. split.
    + now apply quote_unquote.
    + now apply quote_decode_url.
  - intros s' url E E'. apply K in E, E'.
    destruct E as [k [E U]], E' as [k' [E' U']]. rewrite U in U'.
    apply app_inv_head, app_inv_tail in U'. subst k'.
    apply quote_unquote in E, E'. congruence.
  - rewrite <- quote_none. unfold google_images_url.
    destruct (quote s); split; intros; congruence.
Qed.

Lemma quote_alphabet_witness :
  Forall (fun c => query_char c = true)
    (lit "red%20roses%20%26%20caf%C3%A9").
Proof.
  apply (proj1 (quote_alphabet sample_key)
           (lit "red%20roses%20%26%20caf%C3%A9") eq_refl).
Defined.

Lemma google_images_url_key_witness :
  exists k,
    search_prefix ++ lit "red%20roses%20%26%20caf%C3%A9" ++ search_suffix =
    search_prefix ++ k ++ search_suffix /\
    unquote k = sample_key /\ decode_url no_names k = sample_key.
Proof.
  apply (proj1 (google_images_url_key no_names sample_key)
           (search_prefix ++ lit "red%20roses%20%26%20caf%C3%A9"
              ++ search_suffix) eq_refl).
Defined.

End SearchUrlFacts.

(** ** Downloading *)

Module DownloadFacts.
Import Resolution Download.

Lemma lit_inj (a b : String.string) : lit a = lit b -> a = b.
Proof.
  unfold lit. intros H.
  rewrite <- (string_of_list_ascii_of_string a).
  rewrite <- (string_of_list_ascii_of_string b). f_equal.
  revert H. generalize (list_ascii_of_string a) (list_ascii_of_string b).
  induction l as [|x l IH]; intros [|y m] H; try discriminate; [reflexivity|].
  cbn [map] in H. f_equal.
  - apply (f_equal (hd 0%N)) in H. cbn [hd] in H.
    rewrite <- (ascii_N_embedding x), <- (ascii_N_embedding y). now rewrite H.
  - apply IH. apply (f_equal (@tl N)) in H. exact H.
Qed.

Lemma py_str_nat_inj (i j : nat) : py_str_nat i = py_str_nat j -> i = j.
Proof.
  unfold py_str_nat. intros H. apply lit_inj in H.
  apply (f_equal DecimalString.NilEmpty.uint_of_string) in H.
  rewrite !DecimalString.NilEmpty.usu in H. inversion H as [E].
  now apply DecimalNat.Unsigned.to_uint_inj.
Qed.

Lemma path_join_shape (a key : str) :
  exists X, forall t, path_join a (key ++ 45%N :: t) = X ++ 45%N :: t.
Proof.
  unfold path_join. destruct key as [|c key].
  - cbn [app starts_with]. change (45 =? 47)%N with false. cbn [andb].
    destruct a as [|a0 a]; [now exists []|].
    destruct (ends_with_sep (a0 :: a)).
    + now exists (a0 :: a).
    + exists ((a0 :: a) ++ [47%N]). intros t. now rewrite <- app_assoc.
  - cbn [app starts_with]. rewrite andb_true_r.
    destruct (47 =? c)%N.
    + exists (c :: key). reflexivity.
    + destruct a as [|a0 a]; [now exists (c :: key)|].
      destruct (ends_with_sep (a0 :: a)).
      * exists ((a0 :: a) ++ c :: key). intros t. now rewrite <- app_assoc.
      * exists ((a0 :: a) ++ 47%N :: c :: key). intros t.
        rewrite <- app_assoc. reflexivity.
Qed.

Lemma NoDup_map_inj {A B} (f : A -> B) (l : list A) :
  (forall x y, f x = f y -> x = y) -> NoDup l -> NoDup (map f l).
Proof.
  intros Hf. induction 1 as [|x l Hx _ IH]; [constructor|].
  cbn [map]. constructor; [|exact IH].
  rewrite in_map_iff. intros [y [E Hy]]. apply Hf in E. now subst.
Qed.

Section Network.
Variable net : nat -> str -> fetched.

Lemma save_loop_spec (config : SaveConfig) (images_dir search_key : str)
    (image_urls : list str) :
  forall index t,
    let r := save_loop net config images_dir search_key index image_urls t in
    let idx := stored_indices net config index image_urls in
    downloaded_count r = (downloaded_count t + length idx)%nat /\
    (downloaded_count r + failed_count r =
     downloaded_count t + failed_count t + length image_urls)%nat /\
    written r =
      written t ++
      map (fun i => _save_image_path config images_dir
                      (search_key ++ 45%N :: py_str_nat i)) idx.
Proof.
  induction image_urls as [|u rest IH]; intros index t.
  - cbn. rewrite app_nil_r. repeat split; lia.
  - cbn [save_loop stored_indices]. unfold stored.
    destruct (net index u) as [| |image saves].
    + destruct (IH (S index) (failed t)) as [I1 [I2 I3]].
      cbn [app length] in *. cbn [failed downloaded_count failed_count written] in *.
      repeat split; [lia|lia|exact I3].
    + destruct (IH (S index) (failed t)) as [I1 [I2 I3]].
      cbn [app length] in *. cbn [failed downloaded_count failed_count written] in *.
      repeat split; [lia|lia|exact I3].
    + destruct (_validate_image_resolution image _ _); cbn [negb andb].
      * destruct saves.
        -- destruct (IH (S index)
                       (downloaded
                          (_save_image_path config images_dir
                             (search_key ++ 45%N :: py_str_nat index)) t))
             as [I1 [I2 I3]].
           cbn [app length map] in *.
           cbn [downloaded downloaded_count failed_count written] in *.
           repeat split; [lia|lia|]. rewrite I3, <- app_assoc. reflexivity.
        -- destruct (IH (S index) (failed t)) as [I1 [I2 I3]].
           cbn [app length] in *.
           cbn [failed downloaded_count failed_count written] in *.
           repeat split; [lia|lia|exact I3].
      * destruct (IH (S index) (failed t)) as [I1 [I2 I3]].
        cbn [app length] in *. cbn [failed downloaded_count failed_count written] in *.
        repeat split; [lia|lia|exact I3].
Qed.

Lemma stored_indices_sorted (config : SaveConfig) (image_urls : list str) :
  forall index,
    Forall (fun i => (index <= i)%nat)
      (stored_indices net config index image_urls) /\
    NoDup (stored_indices net config index image_urls) /\
    (length (stored_indices net config index image_urls) <=
     length image_urls)%nat.
Proof.
  induction image_urls as [|u rest IH]; intros index.
  - cbn. repeat split; [constructor|constructor|lia].
  - cbn [stored_indices length]. destruct (IH (S index)) as [F [N L]].
    assert (F' : Forall (fun i => (index <= i)%nat)
                   (stored_indices net config (S index) rest)).
    { revert F. apply Forall_impl. intros; lia. }
    destruct (stored config (net index u)); cbn [app length].
    + split; [constructor; [lia|exact F']|]. split; [|lia].
      constructor; [|exact N]. intros Hin.
      rewrite Forall_forall in F. apply F in Hin. lia.
    + split; [exact F'|]. split; [exact N|lia].
Qed.

(** X13: [save_images] counts every URL exactly once: the number of
    images saved and the number of failures add up to the number of URLs;
    the number returned is the number of files written, one for each
    request that was answered by an image of accepted resolution that
    could be saved. *)
Theorem save_images_counts (config : SaveConfig) (image_urls : list str)
    (search_key : str) :
  let r := save_images net config image_urls search_key in
  (downloaded_count r + failed_count r = length image_urls)%nat /\
  downloaded_count r = length (written r) /\
  downloaded_count r = length (stored_indices net config 0 image_urls) /\
  (downloaded_count r <= length image_urls)%nat.
Proof.
  unfold save_images.
  destruct (save_loop_spec config
              (path_join (photos_dir config) search_key) search_key
              image_urls 0
              {| downloaded_count := 0; failed_count := 0; written := [] |})
    as [I1 [I2 I3]].
  cbn [downloaded_count failed_count written app] in *. cbn zeta.
  rewrite I3, length_map. repeat split; lia.
Qed.

(** X14: within one call of [save_images] no file is written twice: the
    paths are pairwise different, because each carries the index of its
    URL, and they are written in the order of the URLs. *)
Theorem save_images_paths (config : SaveConfig) (image_urls : list str)
    (search_key : str) :
  let images_dir := path_join (photos_dir config) search_key in
  written (save_images net config image_urls search_key) =
    map (fun i => _save_image_path config images_dir
                    (search_key ++ 45%N :: py_str_nat i))
      (stored_indices net config 0 image_urls) /\
  NoDup (written (save_images net config image_urls search_key)).
Proof.
  cbn zeta. unfold save_images.
  destruct (save_loop_spec config
              (path_join (photos_dir config) search_key) search_key
              image_urls 0
              {| downloaded_count := 0; failed_count := 0; written := [] |})
    as [_ [_ I3]].
  cbn [written app] in I3. cbn zeta in I3. rewrite I3.
  split; [reflexivity|].
  apply NoDup_map_inj.
  - intros i j E. unfold _save_image_path in E.
    destruct (path_join_shape (path_join (photos_dir config) search_key)
                search_key) as [X HX].
    rewrite <- !app_assoc in E. cbn [app] in E. rewrite !HX in E.
    apply app_inv_head in E.
    apply (f_equal (@tl N)) in E. cbn [tl] in E.
    apply app_inv_tail in E. now apply py_str_nat_inj.
  - apply (stored_indices_sorted config image_urls 0).
Qed.

End Network.

End DownloadFacts.

(** ** The standalone loop and the command-line front end *)

Module StandaloneFacts.
Import Resolution Standalone.

Lemma uint_digits (d : Decimal.uint) :
  ~ In 46%N (lit (DecimalString.NilEmpty.string_of_uint d)).
Proof.
  induction d; cbn; intros H; try (destruct H as [H|H]; [discriminate H|]);
    auto.
Qed.

Lemma py_str_nat_no_dot (n : nat) : ~ In 46%N (Download.py_str_nat n).
Proof. apply uint_digits. Qed.

Lemma split_at_dot (a a' b b' : str) :
  ~ In 46%N a -> ~ In 46%N a' ->
  a ++ 46%N :: b = a' ++ 46%N :: b' -> a = a'.
Proof.
  revert a'; induction a as [|x a IH]; intros [|y a'] Ha Ha' E.
  - reflexivity.
  - exfalso. apply Ha'. left. apply (f_equal (hd 0%N)) in E. now cbn in E.
  - exfalso. apply Ha. left. apply (f_equal (hd 0%N)) in E. now cbn in E.
  - cbn [app] in E. f_equal.
    + apply (f_equal (hd 0%N)) in E. exact E.
    + apply (IH a').
      * intros H. apply Ha. now right.
      * intros H. apply Ha'. now right.
      * apply (f_equal (@tl N)) in E. exact E.
Qed.

Section World.
Variable unicode_lower : N -> list N.
Variable final_sigma : str -> nat -> bool.
Variable net : nat -> str -> fetched.

Local Abbreviation loop := (save_loop unicode_lower final_sigma net).

(** A path written for the request [i]. *)
Local Abbreviation names dir prefix i p :=
  (exists ext, p = Download.path_join dir
                     (prefix ++ 45%N :: Download.py_str_nat i ++ 46%N :: ext)).

Lemma save_image_names (format : option str) (saves : bool)
    (dir prefix fmt : str) (i : nat) (p : str) :
  save_image unicode_lower final_sigma format saves dir
    (prefix ++ 45%N :: Download.py_str_nat i) fmt = Some p ->
  names dir prefix i p.
Proof.
  unfold save_image. destruct format as [f|]; [|discriminate].
  destruct saves; [|discriminate]. intros E; inversion E.
  eexists. rewrite <- app_assoc. cbn [app]. reflexivity.
Qed.

Lemma save_loop_written (fmt dir prefix : str) (lo hi : Z * Z)
    (image_urls : list str) :
  forall index written,
  exists new,
    loop fmt dir prefix lo hi index image_urls written = written ++ new /\
    (length new <= length image_urls)%nat /\
    NoDup new /\
    Forall (fun p => exists i,
              (index <= i < index + length image_urls)%nat /\
              names dir prefix i p) new.
Proof.
  induction image_urls as [|u rest IH]; intros index written.
  - exists []. cbn. rewrite app_nil_r.
    repeat split; [lia|constructor|constructor].
  - cbn [save_loop length].
    assert (Skip : exists new,
      loop fmt dir prefix lo hi (S index) rest written = written ++ new /\
      (length new <= S (length rest))%nat /\ NoDup new /\
      Forall (fun p => exists i,
                (index <= i < index + S (length rest))%nat /\
                names dir prefix i p) new).
    { destruct (IH (S index) written) as [new [E [L [ND F]]]].
      exists new. repeat split; [exact E|lia|exact ND|].
      revert F. apply Forall_impl. intros p [i [Hi Hp]].
      exists i. split; [lia|exact Hp]. }
    destruct (net index u) as [| |image format saves]; try exact Skip.
    destruct (check_if_image_resolution_valid image lo hi); cbn [negb];
      [|exact Skip].
    destruct (save_image _ _ format saves dir _ fmt) as [p|] eqn:Ep;
      [|exact Skip].
    apply save_image_names in Ep.
    destruct (IH (S index) (written ++ [p])) as [new [E [L [ND F]]]].
    exists (p :: new). rewrite E, <- app_assoc. cbn [app length].
    split; [reflexivity|]. split; [lia|]. split.
    + constructor; [|exact ND]. intros Hin.
      rewrite Forall_forall in F. apply F in Hin.
      destruct Hin as [j [Hj [ext' Hp']]]. destruct Ep as [ext Hp].
      rewrite Hp in Hp'.
      destruct (DownloadFacts.path_join_shape dir prefix) as [X HX].
      rewrite !HX in Hp'. apply app_inv_head in Hp'.
      apply (f_equal (@tl N)) in Hp'. cbn [tl] in Hp'.
      apply split_at_dot in Hp'; try apply py_str_nat_no_dot.
      apply DownloadFacts.py_str_nat_inj in Hp'. lia.
    + constructor.
      * exists index. split; [lia|exact Ep].
      * revert F. apply Forall_impl. intros q [i [Hi Hq]].
        exists i. split; [lia|exact Hq].
Qed.

(** X16: the standalone [save_images] writes at most one file per URL and
    never writes the same path twice in one call, whatever formats the
    downloaded images have: every path carries the index of its URL
    between the prefix and the extension. *)
Theorem save_images_standalone_paths (image_urls : list str)
    (fmt dir prefix : str) (lo hi : Z * Z) :
  NoDup (save_images unicode_lower final_sigma net image_urls fmt dir prefix
           lo hi) /\
  (length (save_images unicode_lower final_sigma net image_urls fmt dir
             prefix lo hi) <= length image_urls)%nat /\
  Forall (fun p => exists i ext,
            (i < length image_urls)%nat /\
            p = Download.path_join dir
                  (prefix ++ 45%N :: Download.py_str_nat i ++ 46%N :: ext))
    (save_images unicode_lower final_sigma net image_urls fmt dir prefix
       lo hi).
Proof.
  unfold save_images.
  destruct (save_loop_written fmt dir prefix lo hi image_urls 0 [])
    as [new [E [L [ND F]]]].
  rewrite E. cbn [app]. split; [exact ND|]. split; [exact L|].
  revert F. apply Forall_impl. intros p [i [Hi [ext Hp]]].
  exists i, ext. split; [lia|exact Hp].
Qed.

End World.
End StandaloneFacts.


(** ** The search functions as a whole *)

Module FindFacts.
Import Os Fallback Scraper.

Lemma standalone_try_selectors_quiet (stdout_encodes : N -> bool)
    (c : container) (sels : list selector) (acc : list str) :
  (forall s src data_src img_src u,
     found c s = Visible src data_src ->
     src_or_data_src src data_src = Some img_src ->
     accepts img_src = Some u ->
     Stdout.print_ok stdout_encodes (firstn 80 u) = true) ->
  StandaloneFallback.try_selectors stdout_encodes c sels acc =
  (fst (try_selectors c sels),
   match snd (try_selectors c sels) with
   | Some u => acc ++ [u]
   | None => acc
   end).
Proof.
  intros H. induction sels as [|s sels IH];
    cbn [StandaloneFallback.try_selectors try_selectors]; [reflexivity|].
  destruct (found c s) as [|src data_src] eqn:F.
  - rewrite IH. reflexivity.
  - destruct (src_or_data_src src data_src) as [img_src|] eqn:S.
    + destruct (accepts img_src) as [u|] eqn:A.
      * rewrite (H s src data_src img_src u F S A). reflexivity.
      * rewrite IH. reflexivity.
    + rewrite IH. reflexivity.
Qed.

Lemma standalone_click_loop_quiet (stdout_encodes : N -> bool) (n : Z)
    (cs : list container) :
  printable_sources stdout_encodes cs ->
  forall acc,
    StandaloneFallback.click_loop stdout_encodes n cs acc =
    click_loop n cs acc.
Proof.
  induction cs as [|c cs IH]; intros H acc;
    cbn [StandaloneFallback.click_loop click_loop]; [reflexivity|].
  assert (Hc : printable_sources stdout_encodes cs).
  { intros c' s src d i u Hin. apply (H c'). now right. }
  destruct (Z.of_nat (length acc) >=? n)%Z; [reflexivity|].
  destruct (click_ok c).
  - rewrite standalone_try_selectors_quiet.
    + destruct (try_selectors c full_img_selectors) as [ev got].
      cbn [fst snd]. now rewrite IH.
    + intros s src d i u. apply (H c). now left.
  - now rewrite IH.
Qed.

Lemma standalone_extract_urls_by_clicking_quiet (stdout_encodes : N -> bool)
    (s n : Z) (cs : list container) :
  printable_sources stdout_encodes cs ->
  StandaloneFallback.extract_urls_by_clicking stdout_encodes s n cs =
  extract_urls_by_clicking s n cs.
Proof.
  intros H.
  unfold StandaloneFallback.extract_urls_by_clicking, extract_urls_by_clicking.
  rewrite standalone_click_loop_quiet; [reflexivity|].
  intros c s' src d i u Hin. apply (H c).
  now apply PipelineFacts.py_take_In in Hin.
Qed.

Section WithNames.
Variable name_lookup : list N -> option N.

Local Abbreviation decode := (Codec.decode_url name_lookup).
Local Abbreviation scan p :=
  (map TextScan.js_to_py (TextScan.extract_urls_from_page_data (doc p))).

Lemma find_image_urls_block_quiet (stdout_encodes : N -> bool)
    (config : ScrapingConfig) (p : page) :
  scroll_attempts config = Z.max 3 (number_of_images config / 10 + 1) ->
  printable_sources stdout_encodes (image_containers p) ->
  find_image_urls_block name_lookup stdout_encodes p
    (number_of_images config) =
  GoogleImageScraper_find_image_urls_block name_lookup config p.
Proof.
  intros E H.
  unfold find_image_urls_block, GoogleImageScraper_find_image_urls_block.
  rewrite E, standalone_extract_urls_by_clicking_quiet by exact H.
  destruct (Z.of_nat (length (scan p)) <? number_of_images config)%Z.
  - destruct (extract_urls_by_clicking _ _ (image_containers p))
      as [ev clicked].
    now rewrite PostProcessorFacts.finalize_map.
  - now rewrite PostProcessorFacts.finalize_map.
Qed.

(** The value of [cleaned_image_urls] in both versions: a cut of a list,
    decoded entry by entry. *)
Lemma find_image_urls_block_snd (stdout_encodes : N -> bool) (p : page)
    (n : Z) :
  exists full,
    snd (find_image_urls_block name_lookup stdout_encodes p n) =
    map decode (py_take n full).
Proof.
  unfold find_image_urls_block.
  destruct (Z.of_nat (length (scan p)) <? n)%Z.
  - destruct (StandaloneFallback.extract_urls_by_clicking _ _ n
                (image_containers p)) as [ev clicked].
    cbn [snd]. rewrite PostProcessorFacts.finalize_map. eauto.
  - cbn [snd]. rewrite PostProcessorFacts.finalize_map. eauto.
Qed.

Lemma class_block_snd (config : ScrapingConfig) (p : page) :
  exists full,
    snd (GoogleImageScraper_find_image_urls_block name_lookup config p) =
    map decode (py_take (number_of_images config) full).
Proof.
  unfold GoogleImageScraper_find_image_urls_block.
  destruct (Z.of_nat (length (scan p)) <? number_of_images config)%Z.
  - destruct (extract_urls_by_clicking _ _ (image_containers p))
      as [ev clicked].
    cbn [snd]. eauto.
  - cbn [snd]. eauto.
Qed.

Lemma cut_length (n : Z) (full : list str) :
  (0 <= n)%Z -> (length (map decode (py_take n full)) <= Z.to_nat n)%nat.
Proof.
  intros H. rewrite length_map, PostProcessorFacts.py_take_nonneg by exact H.
  rewrite length_firstn. lia.
Qed.

Lemma find_image_urls_block_enough (stdout_encodes : N -> bool) (p : page)
    (n : Z) :
  (n <= Z.of_nat (length (scan p)))%Z ->
  find_image_urls_block name_lookup stdout_encodes p n =
  ([], map decode (py_take n (scan p))).
Proof.
  intros H. unfold find_image_urls_block.
  destruct (Z.ltb_spec (Z.of_nat (length (scan p))) n) as [L|L]; [lia|].
  now rewrite PostProcessorFacts.finalize_map.
Qed.

Section World.
Variable w : world.

Local Abbreviation block p n :=
  (find_image_urls_block name_lookup (stdout_encodes w) p n).

Lemma google_images_url_none (key : str) :
  SearchUrl.google_images_url key = None <-> ~ Forall encodable key.
Proof.
  rewrite <- SearchUrlFacts.quote_none. unfold SearchUrl.google_images_url.
  destruct (SearchUrl.quote key); split; intros; congruence.
Qed.

Lemma google_images_url_some (key : str) :
  (exists url, SearchUrl.google_images_url key = Some url) <->
  Forall encodable key.
Proof.
  rewrite <- SearchUrlFacts.utf8_encode_some.
  unfold SearchUrl.google_images_url, SearchUrl.quote.
  destruct key as [|c key].
  - split; intros _; [now exists [] | eauto].
  - destruct (Codec.utf8_encode (c :: key)) as [bs|].
    + split; intros _; eauto.
    + split; intros [x E]; discriminate.
Qed.

(** How a call of the standalone function ends. *)
Lemma find_image_urls_outcome (p : page) (key : str) (n : Z) :
  Search.find_image_urls name_lookup w p key n =
  if negb (Stdout.print_ok (stdout_encodes w) key)
  then ([], Raises UnicodeEncodeError)
  else
    match SearchUrl.google_images_url key with
    | None => ([], Raises UnicodeEncodeError)
    | Some _ =>
        (fst (block p n),
         match
           match snd (block p n) with
           | [] => Returns None
           | _ :: _ =>
               Search.save_urls_to_json name_lookup w (snd (block p n)) key
                 (lit "google_search")
           end
         with
         | Raises e => Raises e
         | Returns _ =>
             if printable_samples (stdout_encodes w) (snd (block p n))
             then Returns (snd (block p n))
             else Raises UnicodeEncodeError
         end)
    end.
Proof.
  unfold Search.find_image_urls, printable_samples.
  destruct (negb _); [reflexivity|].
  destruct (SearchUrl.google_images_url key); [|reflexivity].
  destruct (block p n) as [ev cleaned]. cbn [fst snd].
  destruct (match cleaned with [] => _ | _ :: _ => _ end); [|reflexivity].
  destruct (forallb _ _); reflexivity.
Qed.

(** X9: whenever the standalone [find_image_urls] returns, it returns
    the list the work on the page left in [cleaned_image_urls].  For a
    non-negative [number_of_images] that list has at most that many
    URLs, and exactly that many, with no page interaction after the text
    scan, when the scan alone found enough; for a negative value the page
    is not touched either and the slice drops the last entries of the
    scan list.  The call returns exactly when the search key can be
    printed and encoded, writing the JSON file does not raise (nothing
    is written for an empty list) and the first three URLs can be
    printed; otherwise it raises. *)
Theorem find_image_urls_count (p : page) (key : str) (n : Z) :
  let cleaned := snd (block p n) in
  let r := Search.find_image_urls name_lookup w p key n in
  (forall l, snd r = Returns l -> l = cleaned) /\
  ((0 <= n)%Z -> (length cleaned <= Z.to_nat n)%nat) /\
  ((0 <= n <= Z.of_nat (length (scan p)))%Z ->
   fst r = [] /\
   cleaned = map decode (firstn (Z.to_nat n) (scan p)) /\
   length cleaned = Z.to_nat n) /\
  ((n < 0)%Z ->
   fst r = [] /\
   cleaned =
     map decode (firstn (length (scan p) - Z.to_nat (- n)) (scan p))) /\
  ((exists l, snd r = Returns l) <->
   Stdout.print_ok (stdout_encodes w) key = true /\
   Forall encodable key /\
   (cleaned = [] \/
    exists path,
      Search.save_urls_to_json name_lookup w cleaned key
        (lit "google_search") = Returns path) /\
   printable_samples (stdout_encodes w) cleaned = true).
Proof.
  cbn zeta. rewrite find_image_urls_outcome.
  assert (Fst : (n <= Z.of_nat (length (scan p)))%Z ->
                fst (if negb (Stdout.print_ok (stdout_encodes w) key)
                     then ([], Raises UnicodeEncodeError)
                     else
                       match SearchUrl.google_images_url key with
                       | None => ([], Raises UnicodeEncodeError)
                       | Some _ =>
                           (fst (block p n),
                            match
                              match snd (block p n) with
                              | [] => Returns None
                              | _ :: _ =>
                                  Search.save_urls_to_json name_lookup w
                                    (snd (block p n)) key
                                    (lit "google_search")
                              end
                            with
                            | Raises e => Raises e
                            | Returns _ =>
                                if printable_samples (stdout_encodes w)
                                     (snd (block p n))
                                then Returns (snd (block p n))
                                else Raises UnicodeEncodeError
                            end)
                       end) = @nil event).
  { intros H. destruct (negb _); [reflexivity|].
    destruct (SearchUrl.google_images_url key); [|reflexivity].
    cbn [fst]. now rewrite find_image_urls_block_enough by exact H. }
  split; [|split; [|split; [|split]]].
  - intros l. destruct (negb _); [discriminate|].
    destruct (SearchUrl.google_images_url key); [|discriminate].
    cbn [snd].
    destruct (match snd (block p n) with [] => _ | _ :: _ => _ end);
      [|discriminate].
    destruct (printable_samples _ _); [|discriminate].
    intros E; inversion E; reflexivity.
  - intros H. destruct (find_image_urls_block_snd (stdout_encodes w) p n)
      as [full ->]. now apply cut_length.
  - intros H. split; [apply Fst; lia|].
    rewrite find_image_urls_block_enough by lia. cbn [snd].
    rewrite PostProcessorFacts.py_take_nonneg by lia.
    split; [reflexivity|]. rewrite length_map, length_firstn. lia.
  - intros H. split; [apply Fst; lia|].
    rewrite find_image_urls_block_enough by lia. cbn [snd].
    unfold py_take. destruct (Z.ltb_spec n 0) as [K|K]; [reflexivity|lia].
  - destruct (Stdout.print_ok (stdout_encodes w) key); cbn [negb].
    + destruct (SearchUrl.google_images_url key) as [url|] eqn:U.
      * assert (Enc : Forall encodable key)
          by (apply google_images_url_some; eauto).
        cbn [snd]. destruct (snd (block p n)) as [|u cl] eqn:B.
        -- destruct (printable_samples _ _).
           ++ split; [intros _|intros _; eauto].
              repeat split; auto.
           ++ split; [intros [l E]; discriminate|].
              intros [_ [_ [_ E]]]. discriminate.
        -- destruct (Search.save_urls_to_json _ _ _ _ _) as [path|e].
           ++ destruct (printable_samples _ _).
              ** split; [intros _|intros _; eauto].
                 repeat split; auto. right. eauto.
              ** split; [intros [l E]; discriminate|].
                 intros [_ [_ [_ E]]]. discriminate.
           ++ split; [intros [l E]; discriminate|].
              intros [_ [_ [[E|[path E]] _]]]; discriminate.
      * split; [intros [l E]; discriminate|].
        intros [_ [F _]]. apply google_images_url_none in U. contradiction.
    + split; [intros [l E]; discriminate|]. intros [E _]. discriminate.
Qed.

(** How a call of the class method ends. *)
Lemma class_find_image_urls_outcome (config : ScrapingConfig)
    (json_dir : str) (p : page) (key : str) :
  let block' :=
    GoogleImageScraper_find_image_urls_block name_lookup config p in
  Search.GoogleImageScraper_find_image_urls name_lookup w config json_dir p
    key =
  match SearchUrl.google_images_url key with
  | None => ([], Raises BrowserError)
  | Some _ =>
      (fst block',
       match snd block' with
       | [] => Returns (snd block')
       | _ :: _ =>
           match Search.save_urls_try name_lookup w (snd block') key
                   json_dir with
           | Raises _ => Raises BrowserError
           | Returns _ => Returns (snd block')
           end
       end)
  end.
Proof.
  cbn zeta.
  unfold Search.GoogleImageScraper_find_image_urls, Search._save_urls_to_json.
  destruct (SearchUrl.google_images_url key); [|reflexivity].
  destruct (GoogleImageScraper_find_image_urls_block name_lookup config p)
    as [ev cleaned]. cbn [fst snd].
  destruct cleaned; [reflexivity|].
  destruct (Search.save_urls_try _ _ _ _ _); reflexivity.
Qed.

Lemma class_find_image_urls_returns (config : ScrapingConfig)
    (json_dir : str) (p : page) (key : str) (l : list str) :
  snd (Search.GoogleImageScraper_find_image_urls name_lookup w config
         json_dir p key) = Returns l ->
  l = snd (GoogleImageScraper_find_image_urls_block name_lookup config p).
Proof.
  rewrite class_find_image_urls_outcome.
  destruct (SearchUrl.google_images_url key); [|discriminate].
  cbn [snd].
  destruct (snd (GoogleImageScraper_find_image_urls_block name_lookup
                   config p)) as [|u cl].
  - intros E; inversion E; reflexivity.
  - destruct (Search.save_urls_try _ _ _ _ _); [|discriminate].
    intros E; inversion E; reflexivity.
Qed.

(** X10: when the configured [scroll_attempts] equals the standalone's
    [max(3, number_of_images // 10 + 1)] (with the default of three: for
    every target below 30) and the standard output can print the sources
    the clicks find, the class method and the standalone function leave
    the same list in [cleaned_image_urls] after the same page
    interactions.  If moreover the search key and the first three URLs
    can be printed, the logger can be set up and the class writes to
    [google_search], then one call returns a list exactly when the other
    returns it; when they raise, the class raises [BrowserError] and the
    standalone function something else. *)
Theorem find_image_urls_versions (config : ScrapingConfig) (p : page)
    (key : str) :
  scroll_attempts config = Z.max 3 (number_of_images config / 10 + 1) \/
  (scroll_attempts config = 3%Z /\ (number_of_images config < 30)%Z) ->
  printable_sources (stdout_encodes w) (image_containers p) ->
  let block' :=
    GoogleImageScraper_find_image_urls_block name_lookup config p in
  let r := Search.find_image_urls name_lookup w p key
             (number_of_images config) in
  let r' := Search.GoogleImageScraper_find_image_urls name_lookup w config
              (lit "google_search") p key in
  block p (number_of_images config) = block' /\
  (Stdout.print_ok (stdout_encodes w) key = true ->
   printable_samples (stdout_encodes w) (snd block') = true ->
   setup_logger w = IoDone ->
   fst r = fst r' /\
   (forall l, snd r = Returns l <-> snd r' = Returns l) /\
   (forall e, snd r' = Raises e ->
      e = BrowserError /\
      exists e', snd r = Raises e' /\ e' <> BrowserError)).
Proof.
  intros Hs Hp. cbn zeta.
  assert (E : scroll_attempts config =
              Z.max 3 (number_of_images config / 10 + 1)).
  { destruct Hs as [Hs|[Hs L]]; [exact Hs|]. rewrite Hs.
    assert (number_of_images config / 10 < 3)%Z
      by (apply Z.div_lt_upper_bound; lia).
    lia. }
  pose proof (find_image_urls_block_quiet (stdout_encodes w) config p E Hp)
    as B.
  split; [exact B|]. intros Hk Hsm Hl.
  rewrite find_image_urls_outcome, class_find_image_urls_outcome.
  cbn zeta. rewrite B, Hk, Hsm. cbn [negb].
  destruct (SearchUrl.google_images_url key).
  - cbn [fst snd]. split; [reflexivity|].
    destruct (snd (GoogleImageScraper_find_image_urls_block name_lookup
                     config p)) as [|u cl].
    + split; [intros l; reflexivity|]. intros e H; discriminate.
    + unfold Search.save_urls_to_json. rewrite Hl.
      unfold Search.save_urls_try.
      destruct (ensure_dir w (lit "google_search")).
      * destruct (write_json w _ _).
        -- split; [intros l; reflexivity|]. intros e H; discriminate.
        -- split; [intros l; split; discriminate|].
           intros e H. inversion H. split; [reflexivity|].
           exists FileOperationError. split; [reflexivity|discriminate].
        -- split; [intros l; reflexivity|]. intros e H; discriminate.
      * split; [intros l; split; discriminate|].
        intros e H. inversion H. split; [reflexivity|].
        exists UnboundLocalError. split; [reflexivity|discriminate].
      * split; [intros l; reflexivity|]. intros e H; discriminate.
  - cbn [fst snd]. split; [reflexivity|].
    split; [intros l; split; discriminate|].
    intros e H. inversion H. split; [reflexivity|].
    exists UnicodeEncodeError. split; [reflexivity|discriminate].
Qed.

(** X15: whenever the complete workflow of the class returns, it returns
    the URLs its search returned together with a number of saved images
    that is at most their number, and for a non-negative
    [number_of_images] at most that many URLs.  It returns exactly when
    the search returns and the directory of the images can be created;
    otherwise it raises. *)
Theorem scrape_counts (net : nat -> str -> Download.fetched)
    (config : ScrapingConfig) (json_dir : str)
    (save_config : Download.SaveConfig) (p : page) (key : str) :
  let found :=
    snd (Search.GoogleImageScraper_find_image_urls name_lookup w config
           json_dir p key) in
  let r := Search.scrape name_lookup w net config json_dir save_config p
             key in
  (forall urls count, r = Returns (urls, count) ->
     found = Returns urls /\ (count <= length urls)%nat /\
     ((0 <= number_of_images config)%Z ->
      (length urls <= Z.to_nat (number_of_images config))%nat)) /\
  ((exists x, r = Returns x) <->
   (exists urls, found = Returns urls) /\
   ensure_dir w (Download.path_join (Download.photos_dir save_config) key)
     = IoDone).
Proof.
  cbn zeta. unfold Search.scrape.
  destruct (snd (Search.GoogleImageScraper_find_image_urls name_lookup w
                   config json_dir p key)) as [l|e] eqn:F.
  - destruct (ensure_dir w _).
    + split.
      * intros urls count H. inversion H; subst. split; [reflexivity|].
        split.
        -- unfold Download.save_images.
           destruct (DownloadFacts.save_loop_spec net save_config
                       (Download.path_join (Download.photos_dir save_config)
                          key) key urls 0
                       {| Download.downloaded_count := 0;
                          Download.failed_count := 0;
                          Download.written := [] |}) as [_ [I2 _]].
           cbn [Download.downloaded_count Download.failed_count] in I2.
           lia.
        -- intros Hn. apply class_find_image_urls_returns in F. subst urls.
           destruct (class_block_snd config p) as [full ->].
           now apply cut_length.
      * split; [intros _; split; eauto | intros _; eauto].
    + split; [intros urls count H; discriminate|].
      split; [intros [x H]; discriminate | intros [_ H]; discriminate].
    + split; [intros urls count H; discriminate|].
      split; [intros [x H]; discriminate | intros [_ H]; discriminate].
  - split; [intros urls count H; discriminate|].
    split; [intros [x H]; discriminate | intros [[u H] _]; discriminate].
Qed.

End World.
End WithNames.

Lemma sample_key_encodable : Forall encodable (lit "cat").
Proof. repeat constructor; left; reflexivity. Qed.

Lemma find_image_urls_count_witness :
  (exists l,
     snd (Search.find_image_urls no_names sample_world
            {| doc := one_url_document;
               image_containers := [yielding_container] |}
            (lit "cat") 1) = Returns l) /\
  length (snd (find_image_urls_block no_names utf8_stdout
                 {| doc := one_url_document;
                    image_containers := [yielding_container] |} 1))
  = Z.to_nat 1 /\
  snd (find_image_urls_block no_names utf8_stdout
         {| doc := one_url_document;
            image_containers := [yielding_container] |} (-1)) = [].
Proof.
  pose proof (find_image_urls_count no_names sample_world
                {| doc := one_url_document;
                   image_containers := [yielding_container] |}
                (lit "cat") 1) as H1.
  pose proof (find_image_urls_count no_names sample_world
                {| doc := one_url_document;
                   image_containers := [yielding_container] |}
                (lit "cat") (-1)) as H2.
  cbn zeta in H1, H2.
  destruct H1 as [_ [_ [Enough [_ Ret]]]].
  destruct H2 as [_ [_ [_ [Neg _]]]].
  split; [|split].
  - apply Ret. split; [reflexivity|]. split; [exact sample_key_encodable|].
    split; [|reflexivity]. right. eexists. vm_compute. reflexivity.
  - apply Enough. vm_compute. split; discriminate.
  - destruct (Neg ltac:(lia)) as [_ E].
    refine (eq_trans E _). vm_compute. reflexivity.
Defined.

Lemma sample_sources_printable :
  printable_sources utf8_stdout [dead_container; yielding_container].
Proof.
  intros c s src d i u [<-|[<-|[]]] F S A.
  - discriminate F.
  - destruct s; try discriminate F.
    cbn in F. inversion F; subst. cbn in S. inversion S; subst.
    vm_compute in A. inversion A; subst. vm_compute. reflexivity.
Qed.

Lemma find_image_urls_versions_witness :
  let config := {| number_of_images := 2; scroll_attempts := 3 |} in
  let p := {| doc := one_url_document;
              image_containers := [dead_container; yielding_container] |} in
  fst (Search.find_image_urls no_names sample_world p (lit "cat") 2) =
  fst (Search.GoogleImageScraper_find_image_urls no_names sample_world
         config (lit "google_search") p (lit "cat")) /\
  forall l,
    snd (Search.find_image_urls no_names sample_world p (lit "cat") 2)
      = Returns l <->
    snd (Search.GoogleImageScraper_find_image_urls no_names sample_world
           config (lit "google_search") p (lit "cat")) = Returns l.
Proof.
  cbn zeta.
  destruct (find_image_urls_versions no_names sample_world
              {| number_of_images := 2; scroll_attempts := 3 |}
              {| doc := one_url_document;
                 image_containers := [dead_container; yielding_container] |}
              (lit "cat")
              (or_intror (conj eq_refl eq_refl))
              sample_sources_printable) as [_ H].
  destruct (H eq_refl ltac:(vm_compute; reflexivity) eq_refl)
    as [H1 [H2 _]].
  split; [exact H1 | exact H2].
Defined.

Lemma scrape_counts_witness :
  Search.scrape no_names sample_world sample_net
    {| number_of_images := 1; scroll_attempts := 3 |}
    (lit "google_search") sample_save_config
    {| doc := one_url_document; image_containers := [] |} (lit "cat") =
  Returns ([lit "https://cdn.example.org/photos/cat.jpg"], 1%nat) /\
  (1 <= length [lit "https://cdn.example.org/photos/cat.jpg"])%nat.
Proof.
  assert (E : Search.scrape no_names sample_world sample_net
                {| number_of_images := 1; scroll_attempts := 3 |}
                (lit "google_search") sample_save_config
                {| doc := one_url_document; image_containers := [] |}
                (lit "cat") =
              Returns ([lit "https://cdn.example.org/photos/cat.jpg"], 1%nat))
    by (vm_compute; reflexivity).
  split; [exact E|].
  destruct (proj1 (scrape_counts no_names sample_world sample_net
                     {| number_of_images := 1; scroll_attempts := 3 |}
                     (lit "google_search") sample_save_config
                     {| doc := one_url_document; image_containers := [] |}
                     (lit "cat")) _ _ E) as [_ [H _]].
  exact H.
Defined.

End FindFacts.

(** ** The command-line front end *)

Module CliFacts.
Import Os Cli.

Section World.
Variable name_lookup : list N -> option N.
Variable w : world.
Variable path_str : str -> str -> str.
Variable save_images_completes :
  list str -> str -> str -> str -> Z * Z -> Z * Z -> bool.

Local Abbreviation run :=
  (scrape_single_term name_lookup w path_str save_images_completes).

(** X17: [scrape_single_term] unpacks the value of the standalone
    [save_images], which has no [return] statement, so the download step
    always ends in an exception that the function catches.  A result
    reports success exactly when the search returned and either the run
    was a dry run or the search found no URL; a run that is not a dry run
    and found a URL reports failure with zero URLs found, and so does any
    run whose search raised.  No result ever reports a downloaded or a
    failed image. *)
Theorem scrape_single_term_report (term : str) (config : CliConfig)
    (p : Scraper.page) (dry_run : bool) :
  let found :=
    snd (Search.find_image_urls name_lookup w p term
           (number_of_images config)) in
  let r := run term config p dry_run in
  images_downloaded r = 0%nat /\ failed_downloads r = 0%nat /\
  (success r = true <->
   exists urls, found = Returns urls /\ (dry_run = true \/ urls = [])) /\
  (forall urls, success r = true -> found = Returns urls ->
     urls_found r = length urls) /\
  (success r = false -> urls_found r = 0%nat /\ error r = true).
Proof.
  cbn zeta. unfold scrape_single_term, save_images.
  destruct (snd (Search.find_image_urls name_lookup w p term
                   (number_of_images config))) as [l|e].
  - destruct dry_run.
    + cbn. repeat split; auto; try discriminate.
      * intros _. exists l. auto.
      * intros urls _ E. inversion E. reflexivity.
    + destruct l as [|u l].
      * cbn. repeat split; auto; try discriminate.
        -- intros _. exists []. auto.
        -- intros urls _ E. inversion E. reflexivity.
      * destruct (save_images_completes _ _ _ _ _ _); cbn.
        -- repeat split; auto; try discriminate.
           intros [urls [E [H|H]]]; [discriminate H|].
           inversion E. subst. discriminate.
        -- repeat split; auto; try discriminate.
           intros [urls [E [H|H]]]; [discriminate H|].
           inversion E. subst. discriminate.
  - cbn. repeat split; auto; try discriminate.
    intros [urls [E _]]. discriminate.
Qed.

End World.

Lemma scrape_single_term_report_witness :
  let p := {| Scraper.doc := one_url_document;
              Scraper.image_containers := [] |} in
  (let r := scrape_single_term no_names sample_world sample_path_str
              always_completes (lit "cat") sample_cli_config p false in
   success r = false /\ urls_found r = 0%nat /\ error r = true) /\
  (let r := scrape_single_term no_names flat_world sample_path_str
              always_completes (lit "cat/dog") sample_cli_config p true in
   success r = false /\ urls_found r = 0%nat /\ error r = true).
Proof.
  cbn zeta. split.
  - split; [vm_compute; reflexivity|].
    apply (proj2 (proj2 (proj2 (proj2
             (scrape_single_term_report no_names sample_world
                sample_path_str always_completes (lit "cat")
                sample_cli_config
                {| Scraper.doc := one_url_document;
                   Scraper.image_containers := [] |} false))))).
    vm_compute. reflexivity.
  - split; [vm_compute; reflexivity|].
    apply (proj2 (proj2 (proj2 (proj2
             (scrape_single_term_report no_names flat_world
                sample_path_str always_completes (lit "cat/dog")
                sample_cli_config
                {| Scraper.doc := one_url_document;
                   Scraper.image_containers := [] |} true))))).
    vm_compute. reflexivity.
Defined.

End CliFacts.
